(** * Bubble-Sim: a shallow embedding of [bubble_sim.c]

    The physics core of the simulation ([physics_step]), the linear
    congruential generator, the creation and the rebuilding of the bodies,
    the menu and the run loop with its respawn passes are translated from the
    C source; drawing and the storage service are not (what the storage
    service delivers is an input of the model).  The C code computes on
    [float]; the arithmetic is therefore taken through the interface
    [FloatOps], and the program is written once over it.  Two instances
    follow:

    - [B32.binary32]: IEEE 754 binary32 with round-to-nearest-even, every
      operation rounded on its own, through the executable specification of
      the Standard Library ([SpecFloat] at precision 24 and [emax = 128]).
      This is the arithmetic of the C code: the properties of the generator,
      of the pop logic and of the respawn (the off-top test, the place of a
      respawned body) are proved on it, the last through a small theory of
      its order and its rounding, and every counterexample is evaluated on
      it.
    - [Exact.real_ops]: the real numbers, i.e. the same program with
      rounding, overflow and NaN taken away.  The statements about the
      collision response (distances after the positional correction, speeds
      after the bounce) are proved there; they say what the algorithm
      computes up to rounding, and binary32 runs show where rounding or
      overflow breaks them.

    What depends on no arithmetic at all (which fields a step may change,
    which bodies a loop touches, how often the generator is advanced) is
    proved for every instance of the interface.

    Layout: the interface; the physics and the respawn passes
    ([Section Model]); the two instances; concrete bodies and arenas; the
    generator seen from outside; the population, the menu and the run loop
    ([Section Population]); the relations the properties are stated with;
    then the proofs: for every arithmetic, on binary32, on the reals, and
    after them the generator, the rest of [physics_step], the population, the
    menu and the run loop. *)

From Stdlib Require Import ZArith Bool Lia List.
From Stdlib Require Import Floats.SpecFloat.
From Stdlib Require Import QArith.
From Stdlib Require Import Reals Lra.
From stdpp Require Import base option list.

Local Open Scope Z_scope.

(** ** The arithmetic interface *)

Declare Scope fl_scope.
Delimit Scope fl_scope with fl.

(** The operations of C on [float] that the program uses.  [of_int] is the
    conversion [(float)n] of an integer; comparisons return [bool] and, as in
    C, [a > b] is written [b <? a]. *)
Class FloatOps (F : Type) : Type := {
  fadd : F -> F -> F;
  fsub : F -> F -> F;
  fmul : F -> F -> F;
  fdiv : F -> F -> F;
  fneg : F -> F;
  fsqrt : F -> F;
  fltb : F -> F -> bool;
  fleb : F -> F -> bool;
  of_int : Z -> F
}.

Infix "+" := fadd : fl_scope.
Infix "-" := fsub : fl_scope.
Infix "*" := fmul : fl_scope.
Infix "/" := fdiv : fl_scope.
Notation "- a" := (fneg a) : fl_scope.
Infix "<?" := fltb : fl_scope.
Infix "<=?" := fleb : fl_scope.

(** ** Data model *)

Section Model.

Context {F : Type} {ops : FloatOps F}.

(** A decimal literal [n/d] of the source ([0.00001f] is [lit 1 100000]).
    Both integers are small enough to convert exactly, so on binary32 the
    correctly rounded quotient is the value of the literal. *)
Definition lit (n d : Z) : F := (of_int n / of_int d)%fl.

Definition f0 : F := of_int 0.
Definition f1 : F := of_int 1.
Definition fhalf : F := lit 1 2.

(** [struct PhysicsBody].  [group] and [spawn_cooldown] are C [int]s; no
    operation of the program on them can overflow. *)
Record PhysicsBody : Type := {
  x : F;
  y : F;
  vx : F;
  vy : F;
  ax : F;
  ay : F;
  radius : F;
  inv_mass : F;
  restitution : F;
  group : Z;
  spawn_cooldown : Z;
  pop_chance : F;
  popped : bool
}.

Record WorldBounds : Type := {
  min_x : F;
  max_x : F;
  min_y : F;
  max_y : F
}.

(** Field assignments [b->f = v]. *)
Definition set_x (b : PhysicsBody) (v : F) : PhysicsBody :=
  {| x := v; y := y b; vx := vx b; vy := vy b; ax := ax b; ay := ay b;
     radius := radius b; inv_mass := inv_mass b; restitution := restitution b;
     group := group b; spawn_cooldown := spawn_cooldown b;
     pop_chance := pop_chance b; popped := popped b |}.

Definition set_y (b : PhysicsBody) (v : F) : PhysicsBody :=
  {| x := x b; y := v; vx := vx b; vy := vy b; ax := ax b; ay := ay b;
     radius := radius b; inv_mass := inv_mass b; restitution := restitution b;
     group := group b; spawn_cooldown := spawn_cooldown b;
     pop_chance := pop_chance b; popped := popped b |}.

Definition set_vx (b : PhysicsBody) (v : F) : PhysicsBody :=
  {| x := x b; y := y b; vx := v; vy := vy b; ax := ax b; ay := ay b;
     radius := radius b; inv_mass := inv_mass b; restitution := restitution b;
     group := group b; spawn_cooldown := spawn_cooldown b;
     pop_chance := pop_chance b; popped := popped b |}.

Definition set_vy (b : PhysicsBody) (v : F) : PhysicsBody :=
  {| x := x b; y := y b; vx := vx b; vy := v; ax := ax b; ay := ay b;
     radius := radius b; inv_mass := inv_mass b; restitution := restitution b;
     group := group b; spawn_cooldown := spawn_cooldown b;
     pop_chance := pop_chance b; popped := popped b |}.

Definition set_ax (b : PhysicsBody) (v : F) : PhysicsBody :=
  {| x := x b; y := y b; vx := vx b; vy := vy b; ax := v; ay := ay b;
     radius := radius b; inv_mass := inv_mass b; restitution := restitution b;
     group := group b; spawn_cooldown := spawn_cooldown b;
     pop_chance := pop_chance b; popped := popped b |}.

Definition set_ay (b : PhysicsBody) (v : F) : PhysicsBody :=
  {| x := x b; y := y b; vx := vx b; vy := vy b; ax := ax b; ay := v;
     radius := radius b; inv_mass := inv_mass b; restitution := restitution b;
     group := group b; spawn_cooldown := spawn_cooldown b;
     pop_chance := pop_chance b; popped := popped b |}.

Definition set_spawn_cooldown (b : PhysicsBody) (n : Z) : PhysicsBody :=
  {| x := x b; y := y b; vx := vx b; vy := vy b; ax := ax b; ay := ay b;
     radius := radius b; inv_mass := inv_mass b; restitution := restitution b;
     group := group b; spawn_cooldown := n;
     pop_chance := pop_chance b; popped := popped b |}.

Definition set_popped (b : PhysicsBody) (p : bool) : PhysicsBody :=
  {| x := x b; y := y b; vx := vx b; vy := vy b; ax := ax b; ay := ay b;
     radius := radius b; inv_mass := inv_mass b; restitution := restitution b;
     group := group b; spawn_cooldown := spawn_cooldown b;
     pop_chance := pop_chance b; popped := p |}.

Definition ph_len2 (x y : F) : F := (x * x + y * y)%fl.

(** [bounds] may be a null pointer: [None]. *)
Definition body_is_visible_vertical (b : PhysicsBody) (bounds : option WorldBounds) : bool :=
  match bounds with
  | None => true
  | Some bd =>
      let top := (y b - radius b)%fl in
      let bottom := (y b + radius b)%fl in
      negb ((bottom <? min_y bd)%fl || (max_y bd <? top)%fl)
  end.

(** ** The random generator *)

(** [struct SimpleRng]: one [uint32_t], kept in [0, 2^32). *)
Record SimpleRng : Type := { state : Z }.

Definition rng_init (seed : Z) : SimpleRng :=
  {| state := if seed =? 0 then 1 else seed |}.

(** Returns the value drawn and the generator after the draw. *)
Definition rng_next (rng : SimpleRng) : Z * SimpleRng :=
  let s := (state rng * 1664525 + 1013904223) mod 2 ^ 32 in
  (s, {| state := s |}).

Definition rng_next_float01 (rng : SimpleRng) : F * SimpleRng :=
  let '(v, rng') := rng_next rng in
  ((of_int (Z.land v 0x00FFFFFF) / of_int 0x01000000)%fl, rng').

(** ** [physics_step], first loop: integration, walls, cooldown *)

Definition integrate_body (dt gravity_y : F) (b : PhysicsBody) : PhysicsBody :=
  if (f0 <? inv_mass b)%fl && negb (popped b) then
    let b1 := set_vy b (vy b + (ay b + gravity_y) * dt)%fl in
    let b2 := set_vx b1 (vx b1 + ax b1 * dt)%fl in
    let b3 := set_x b2 (x b2 + vx b2 * dt)%fl in
    set_y b3 (y b3 + vy b3 * dt)%fl
  else b.

Definition wall_collide (bounds : option WorldBounds) (b : PhysicsBody) : PhysicsBody :=
  match bounds with
  | None => b
  | Some bd =>
      let r := radius b in
      if (x b - r <? min_x bd)%fl then
        let b1 := set_x b (min_x bd + r)%fl in
        if (vx b1 <? f0)%fl then set_vx b1 (- vx b1 * restitution b1)%fl else b1
      else if (max_x bd <? x b + r)%fl then
        let b1 := set_x b (max_x bd - r)%fl in
        if (f0 <? vx b1)%fl then set_vx b1 (- vx b1 * restitution b1)%fl else b1
      else b
  end.

Definition tick_cooldown (b : PhysicsBody) : PhysicsBody :=
  if 0 <? spawn_cooldown b then set_spawn_cooldown b (spawn_cooldown b - 1) else b.

(** One iteration of the first loop on [bodies[i]]. *)
Definition step_body (dt gravity_y : F) (bounds : option WorldBounds)
    (b : PhysicsBody) : PhysicsBody :=
  tick_cooldown (wall_collide bounds (integrate_body dt gravity_y b)).

(** The array is a list and [count] the number of its slots in use; an index
    at or beyond the end of the list (undefined in C) is skipped. *)
Definition integrate_at (dt gravity_y : F) (bounds : option WorldBounds)
    (bodies : list PhysicsBody) (i : nat) : list PhysicsBody :=
  match bodies !! i with
  | Some b => <[i := step_body dt gravity_y bounds b]> bodies
  | None => bodies
  end.

Definition integrate_all (count : nat) (dt gravity_y : F) (bounds : option WorldBounds)
    (bodies : list PhysicsBody) : list PhysicsBody :=
  fold_left (integrate_at dt gravity_y bounds) (seq 0 count) bodies.

(** ** [physics_step], second loop: circle-circle collisions *)

(** [dx], [dy] and [dist2] of a pair, after the guard against coincident
    centers. *)
Definition separation (a b : PhysicsBody) : F * F * F :=
  let dx := (x b - x a)%fl in
  let dy := (y b - y a)%fl in
  let dist2 := ph_len2 dx dy in
  if (dist2 <=? lit 1 100000)%fl then
    let dx := lit 1 1000 in
    let dy := f0 in
    (dx, dy, ph_len2 dx dy)
  else (dx, dy, dist2).

(** What the inner loop knows about a pair once it has passed every test
    that precedes the positional correction. *)
Record Contact : Type := {
  c_nx : F;
  c_ny : F;
  c_penetration : F;
  c_inv_sum : F
}.

(** The tests of the inner loop for the pair [(a, b)], from [b->popped] to
    "both static"; [None] is a [continue].  [vis_a] was computed before the
    inner loop started. *)
Definition pair_contact (bounds : option WorldBounds) (vis_a : bool)
    (a b : PhysicsBody) : option Contact :=
  if popped b then None else
  let vis_b := body_is_visible_vertical b bounds in
  if negb vis_a && negb vis_b then None else
  if (0 <? spawn_cooldown a) || (0 <? spawn_cooldown b) then None else
  let '(dx, dy, dist2) := separation a b in
  let r_sum := (radius a + radius b)%fl in
  if (r_sum * r_sum <? dist2)%fl then None else
  let dist := fsqrt dist2 in
  let penetration := (r_sum - dist)%fl in
  if (penetration <=? f0)%fl then None else
  let nx := (dx / dist)%fl in
  let ny := (dy / dist)%fl in
  let inv_sum := (inv_mass a + inv_mass b)%fl in
  if (inv_sum <=? f0)%fl then None else
  Some {| c_nx := nx; c_ny := ny; c_penetration := penetration; c_inv_sum := inv_sum |}.

(** "Positional correction proportional to inverse mass". *)
Definition positional_correction (c : Contact)
    (a b : PhysicsBody) : PhysicsBody * PhysicsBody :=
  let inv_ma := inv_mass a in
  let inv_mb := inv_mass b in
  let move_a := (inv_ma / c_inv_sum c * c_penetration c)%fl in
  let move_b := (inv_mb / c_inv_sum c * c_penetration c)%fl in
  let a' :=
    if (f0 <? inv_ma)%fl then
      let a1 := set_x a (x a - c_nx c * move_a)%fl in
      set_y a1 (y a1 - c_ny c * move_a)%fl
    else a in
  let b' :=
    if (f0 <? inv_mb)%fl then
      let b1 := set_x b (x b + c_nx c * move_b)%fl in
      set_y b1 (y b1 + c_ny c * move_b)%fl
    else b in
  (a', b').

(** "Relative velocity along normal". *)
Definition vel_norm (nx ny : F) (a b : PhysicsBody) : F :=
  let rvx := (vx b - vx a)%fl in
  let rvy := (vy b - vy a)%fl in
  (rvx * nx + rvy * ny)%fl.

(** "Combine restitution". *)
Definition combined_restitution (a b : PhysicsBody) : F :=
  ((restitution a + restitution b) * fhalf)%fl.

(** The bounce: impulse scalar and velocity update. *)
Definition impulse_response (c : Contact) (vn : F)
    (a b : PhysicsBody) : PhysicsBody * PhysicsBody :=
  let inv_ma := inv_mass a in
  let inv_mb := inv_mass b in
  let e := combined_restitution a b in
  let j_impulse := (- (f1 + e) * vn)%fl in
  let j_impulse := (j_impulse / c_inv_sum c)%fl in
  let ix := (j_impulse * c_nx c)%fl in
  let iy := (j_impulse * c_ny c)%fl in
  let a' :=
    if (f0 <? inv_ma)%fl then
      let a1 := set_vx a (vx a - ix * inv_ma)%fl in
      set_vy a1 (vy a1 - iy * inv_ma)%fl
    else a in
  let b' :=
    if (f0 <? inv_mb)%fl then
      let b1 := set_vx b (vx b + ix * inv_mb)%fl in
      set_vy b1 (vy b1 + iy * inv_mb)%fl
    else b in
  (a', b').

Definition avg_pop (a b : PhysicsBody) : F :=
  ((pop_chance a + pop_chance b) * fhalf)%fl.

(** "POP logic: chance-based removal on collision".  [rng] may be a null
    pointer: [None].  The [&&] of C draws only when [avg_pop > 0.0f]. *)
Definition pop_logic (a b : PhysicsBody) (rng : option SimpleRng)
    : PhysicsBody * PhysicsBody * option SimpleRng :=
  match rng with
  | None => (a, b, None)
  | Some r =>
      if (f0 <? avg_pop a b)%fl then
        let '(u, r') := rng_next_float01 r in
        if (u <? avg_pop a b)%fl then
          if (radius a <=? radius b)%fl
          then (set_popped a true, b, Some r')
          else (a, set_popped b true, Some r')
        else (a, b, Some r')
      else (a, b, Some r)
  end.

(** The body of the inner loop for the pair [(a, b)].  A pair that is
    already separating leaves through the [continue] after the positional
    correction, before the bounce and the pop logic. *)
Definition resolve_pair (bounds : option WorldBounds) (vis_a : bool)
    (a b : PhysicsBody) (rng : option SimpleRng)
    : PhysicsBody * PhysicsBody * option SimpleRng :=
  match pair_contact bounds vis_a a b with
  | None => (a, b, rng)
  | Some c =>
      let '(a1, b1) := positional_correction c a b in
      let vn := vel_norm (c_nx c) (c_ny c) a1 b1 in
      if (f0 <? vn)%fl then (a1, b1, rng) else
      let '(a2, b2) := impulse_response c vn a1 b1 in
      pop_logic a2 b2 rng
  end.

(** The state the second loop threads: the array and the generator. *)
Definition sim_state : Type := list PhysicsBody * option SimpleRng.

(** One iteration of the inner loop: [a = &bodies[i]], [b = &bodies[j]],
    [i < j], both written back. *)
Definition collide_pair (bounds : option WorldBounds) (vis_a : bool) (i : nat)
    (st : sim_state) (j : nat) : sim_state :=
  let '(bodies, rng) := st in
  match bodies !! i, bodies !! j with
  | Some a, Some b =>
      let '(a', b', rng') := resolve_pair bounds vis_a a b rng in
      (<[j := b']> (<[i := a']> bodies), rng')
  | _, _ => st
  end.

(** One iteration of the outer loop.  [a->popped] is tested once, before
    the inner loop, and [vis_a] is computed once. *)
Definition collide_row (bounds : option WorldBounds) (count : nat)
    (st : sim_state) (i : nat) : sim_state :=
  match fst st !! i with
  | Some a =>
      if popped a then st else
      let vis_a := body_is_visible_vertical a bounds in
      fold_left (collide_pair bounds vis_a i) (seq (S i) (count - S i)) st
  | None => st
  end.

Definition collide_all (bounds : option WorldBounds) (count : nat)
    (st : sim_state) : sim_state :=
  fold_left (collide_row bounds count) (seq 0 count) st.

(** [bodies] may be a null pointer: [None]. *)
Definition physics_step (bodies : option (list PhysicsBody)) (count : nat)
    (dt gravity_y : F) (bounds : option WorldBounds) (rng : option SimpleRng)
    : option (list PhysicsBody) * option SimpleRng :=
  if (dt <=? f0)%fl then (bodies, rng) else
  match bodies with
  | None => (bodies, rng)
  | Some bs =>
      if (count =? 0)%nat then (bodies, rng) else
      let bs1 := integrate_all count dt gravity_y bounds bs in
      let '(bs2, rng2) := collide_all bounds count (bs1, rng) in
      (Some bs2, rng2)
  end.

(** ** The application: groups, respawn, the run loop's tick *)

Definition MAX_BODIES : nat := 48.
Definition GROUP_COUNT : Z := 3.
Definition SPAWN_COOLDOWN_FRAMES : Z := 10.

(** [struct BubbleGroupConfig], without the display name. *)
Record BubbleGroupConfig : Type := {
  cfg_count : Z;
  cfg_radius : F;
  cfg_rise_speed : F;
  cfg_restitution : F;
  cfg_pop_chance : F
}.

(** The part of [struct BubbleApp] the simulation uses.  [app_bodies] has
    [MAX_BODIES] slots in C, of which [app_body_count] are in use. *)
Record BubbleApp : Type := {
  app_bodies : list PhysicsBody;
  app_body_count : nat;
  app_bounds : WorldBounds;
  app_gravity_y : F;
  app_groups : list BubbleGroupConfig;
  app_rng : SimpleRng
}.

Definition set_app_bodies (app : BubbleApp) (bs : list PhysicsBody) : BubbleApp :=
  {| app_bodies := bs; app_body_count := app_body_count app;
     app_bounds := app_bounds app; app_gravity_y := app_gravity_y app;
     app_groups := app_groups app; app_rng := app_rng app |}.

Definition set_app_rng (app : BubbleApp) (r : SimpleRng) : BubbleApp :=
  {| app_bodies := app_bodies app; app_body_count := app_body_count app;
     app_bounds := app_bounds app; app_gravity_y := app_gravity_y app;
     app_groups := app_groups app; app_rng := r |}.

(** [app->groups[g]]; outside the array (undefined in C) there is no
    result. *)
Definition group_config (app : BubbleApp) (g : Z) : option BubbleGroupConfig :=
  if (0 <=? g) && (g <? GROUP_COUNT) then app_groups app !! Z.to_nat g else None.

(** [bubble_respawn_body]: the body written through [b] and the generator
    after its three draws. *)
Definition bubble_respawn_body (app : BubbleApp) (b : PhysicsBody)
    : option (PhysicsBody * SimpleRng) :=
  cfg ← group_config app (group b);
  let bd := app_bounds app in
  let r := radius b in
  let '(u1, rng1) := rng_next_float01 (app_rng app) in
  let x' := ((min_x bd + r) + u1 * ((max_x bd - r) - (min_x bd + r)))%fl in
  let y_base := (max_y bd + r + of_int 40)%fl in
  let '(u2, rng2) := rng_next_float01 rng1 in
  let y' := (y_base + u2 * of_int 20)%fl in
  let b1 := set_y (set_x b x') y' in
  let '(u3, rng3) := rng_next_float01 rng2 in
  let jitter := ((u3 - fhalf) * cfg_rise_speed cfg * lit 2 10)%fl in
  let b2 := set_vy (set_vx b1 jitter) (- cfg_rise_speed cfg)%fl in
  let b3 := set_ay (set_ax b2 f0) f0 in
  Some (set_popped (set_spawn_cooldown b3 SPAWN_COOLDOWN_FRAMES) false, rng3).

(** [bubble_respawn_body(app, &app->bodies[i])]. *)
Definition respawn_at (app : BubbleApp) (i : nat) : option BubbleApp :=
  match app_bodies app !! i with
  | Some b =>
      '(b', rng') ← bubble_respawn_body app b;
      Some (set_app_rng (set_app_bodies app (<[i := b']> (app_bodies app))) rng')
  | None => Some app
  end.

(** "Handle popped bubbles: respawn them", one iteration. *)
Definition respawn_if_popped (app : BubbleApp) (i : nat) : option BubbleApp :=
  match app_bodies app !! i with
  | Some b => if popped b then respawn_at app i else Some app
  | None => Some app
  end.

(** "If a bubble floats off the top, respawn well below the screen", one
    iteration. *)
Definition respawn_if_off_top (app : BubbleApp) (i : nat) : option BubbleApp :=
  match app_bodies app !! i with
  | Some b =>
      if (y b + radius b <? min_y (app_bounds app) - of_int 20)%fl
      then respawn_at app i else Some app
  | None => Some app
  end.

(** [for(size_t i = 0; i < app->body_count; i++)] over a step that may hit
    undefined behaviour. *)
Definition for_each_body (step : BubbleApp -> nat -> option BubbleApp)
    (app : BubbleApp) : option BubbleApp :=
  fold_left (fun acc i => acc ≫= fun a => step a i)
            (seq 0 (app_body_count app)) (Some app).

Definition respawn_popped (app : BubbleApp) : option BubbleApp :=
  for_each_body respawn_if_popped app.

Definition respawn_off_top (app : BubbleApp) : option BubbleApp :=
  for_each_body respawn_if_off_top app.

(** One turn of the [while(running)] loop, without input and drawing:
    [dt] is the constant [0.03f]. *)
Definition bubble_sim_tick (app : BubbleApp) : option BubbleApp :=
  let dt := lit 3 100 in
  let '(bodies, rng) :=
    physics_step (Some (app_bodies app)) (app_body_count app) dt
                 (app_gravity_y app) (Some (app_bounds app)) (Some (app_rng app)) in
  let app1 := set_app_bodies app (default (app_bodies app) bodies) in
  let app2 := set_app_rng app1 (default (app_rng app) rng) in
  app3 ← respawn_popped app2;
  respawn_off_top app3.

End Model.

Arguments PhysicsBody F : clear implicits.
Arguments WorldBounds F : clear implicits.
Arguments Contact F : clear implicits.
Arguments BubbleGroupConfig F : clear implicits.
Arguments BubbleApp F : clear implicits.
Arguments sim_state F : clear implicits.

(** ** The two arithmetics *)

(** IEEE 754 binary32, the [float] of the C code. *)
Module B32.

Definition prec : Z := 24.
Definition emax : Z := 128.

(** [(float)n]: the integer rounded to nearest, ties to even. *)
Definition of_Z (n : Z) : spec_float := binary_normalize prec emax n 0 false.

#[export] Instance binary32 : FloatOps spec_float := {|
  fadd := SFadd prec emax;
  fsub := SFsub prec emax;
  fmul := SFmul prec emax;
  fdiv := SFdiv prec emax;
  fneg := SFopp;
  fsqrt := SFsqrt prec emax;
  fltb := SFltb;
  fleb := SFleb;
  of_int := of_Z
|}.

(** The mantissa of [(float)p] for a positive integer below [2^24]: [p]
    shifted left until it has 24 binary digits. *)
Definition norm_mant (p : positive) : positive :=
  match (Z.pos (digits2_pos p) - 24)%Z with
  | Z.neg k => Pos.iter xO p k
  | _ => p
  end.

Definition is_nan (f : spec_float) : bool :=
  match f with S754_nan => true | _ => false end.

Definition is_finite (f : spec_float) : bool :=
  match f with S754_zero _ | S754_finite _ _ _ => true | _ => false end.

(** The rational a finite float stands for. *)
Definition to_Q (f : spec_float) : option Q :=
  match f with
  | S754_zero _ => Some 0%Q
  | S754_finite s m e =>
      let v := if 0 <=? e then inject_Z (Z.pos m * 2 ^ e)
               else (Z.pos m # Z.to_pos (2 ^ (- e)))%Q in
      Some (if s then (- v)%Q else v)
  | _ => None
  end.

(** A [spec_float] that is a datum of the format: zeros, infinities and NaN
    are, and a mantissa with an exponent is when the mantissa has 24 binary
    digits and the exponent lies in [-149, 104], or the mantissa has fewer
    and the exponent is -149.  The conversions and the operations of
    [binary32] return such data only. *)
Definition valid (f : spec_float) : bool := valid_binary prec emax f.

(** The place of a number on the line, in units of [2^-149], the smallest
    positive number of the format.  The infinities sit at [2^277] and its
    opposite, beyond every finite number of the format. *)
Definition ord (f : spec_float) : Z :=
  match f with
  | S754_zero _ => 0
  | S754_infinity s => if s then - 2 ^ 277 else 2 ^ 277
  | S754_nan => 0
  | S754_finite s m e =>
      let v := Z.pos m * 2 ^ (e + 149) in if s then - v else v
  end.

(** A record of [SpecFloat]'s right shift that stands for [m0] shifted by
    [k] bits: the mantissa is the quotient, the first bit says that half a
    unit or more was lost, the second that something was lost below that
    half. *)
Definition shifted (m0 k : Z) (mrs : shr_record) : Prop :=
  shr_m mrs = m0 / 2 ^ k /\
  (shr_r mrs = true <-> 2 ^ k <= 2 * (m0 mod 2 ^ k)) /\
  (shr_s mrs = true <-> (2 * m0) mod 2 ^ k <> 0).

(** [m / 2^n] rounded to the nearest integer, ties to even. *)
Definition rne (m n : Z) : Z :=
  let q := m / 2 ^ n in
  match 2 * (m mod 2 ^ n) ?= 2 ^ n with
  | Lt => q
  | Eq => if Z.even q then q else q + 1
  | Gt => q + 1
  end.

(** Rounding to binary32, on the line of [ord]: a number of [v >= 0] units
    [2^-149] keeps its 24 leading digits, rounded to nearest even, and
    becomes infinite from [2^277] on. *)
Definition RN (v : Z) : Z :=
  let E := Z.max (Zdigits2 v - 24) 0 in
  Z.min (rne v E * 2 ^ E) (2 ^ 277).

(** The same for a number of either sign. *)
Definition sRN (v : Z) : Z := if v <? 0 then - RN (- v) else RN v.

(** [r] is what the number of [v] units [2^-149] rounds to: a number of the
    format or an infinity that no finite number of the format separates
    from [v]. *)
Definition rounds_to (v : Z) (r : spec_float) : Prop :=
  valid r = true /\ is_nan r = false /\
  forall c, valid c = true -> is_finite c = true ->
    (ord c <= v -> ord c <= ord r) /\ (v <= ord c -> ord r <= ord c).

End B32.

(** The real numbers: the program without rounding. *)
Module Exact.

Definition Rltb (a b : R) : bool := if Rlt_dec a b then true else false.
Definition Rleb (a b : R) : bool := if Rle_dec a b then true else false.

#[export] Instance real_ops : FloatOps R := {|
  fadd := Rplus;
  fsub := Rminus;
  fmul := Rmult;
  fdiv := Rdiv;
  fneg := Ropp;
  fsqrt := sqrt;
  fltb := Rltb;
  fleb := Rleb;
  of_int := IZR
|}.

End Exact.

(** ** Concrete bodies and arenas, on binary32 *)

Module Scenario.

Import B32.

(** The arena of [bubble_sim_app]: the 128x64 screen. *)
Definition arena : WorldBounds spec_float :=
  {| min_x := of_Z 0; max_x := of_Z 127; min_y := of_Z 0; max_y := of_Z 63 |}.

(** The groups of [bubble_app_init_groups]. *)
Definition groups : list (BubbleGroupConfig spec_float) :=
  [ {| cfg_count := 22; cfg_radius := of_Z 3; cfg_rise_speed := of_Z 60;
       cfg_restitution := lit 8 10; cfg_pop_chance := of_Z 1 |};
    {| cfg_count := 10; cfg_radius := of_Z 8; cfg_rise_speed := of_Z 11;
       cfg_restitution := lit 15 100; cfg_pop_chance := lit 10 100 |};
    {| cfg_count := 4; cfg_radius := of_Z 16; cfg_rise_speed := of_Z 4;
       cfg_restitution := lit 5 100; cfg_pop_chance := lit 10 100 |} ].

(** The timestep of the run loop, [0.03f]. *)
Definition dt : spec_float := lit 3 100.

Definition rng0 : SimpleRng := rng_init 1.

(** A dynamic body of group 0 with integer coordinates, out of cooldown. *)
Definition body (px py pvx pvy r pop : Z) (is_popped : bool) : PhysicsBody spec_float :=
  {| x := of_Z px; y := of_Z py; vx := of_Z pvx; vy := of_Z pvy;
     ax := of_Z 0; ay := of_Z 0;
     radius := of_Z r; inv_mass := of_Z 1; restitution := lit 8 10;
     group := 0; spawn_cooldown := 0; pop_chance := of_Z pop;
     popped := is_popped |}.

(** An eliminated body in mid-arena, moving. *)
Definition popped_body : PhysicsBody spec_float := body 64 30 1 (-4) 5 0 true.

(** Two overlapping bodies that approach each other, pop chance 0. *)
Definition left_in : PhysicsBody spec_float := body 60 30 1 0 5 0 false.
Definition right_in : PhysicsBody spec_float := body 65 30 (-1) 0 5 0 false.

(** Two overlapping bodies that move apart, pop chance 1. *)
Definition left_out : PhysicsBody spec_float := body 60 30 (-1) 0 5 1 false.
Definition right_out : PhysicsBody spec_float := body 65 30 1 0 8 1 false.

(** Two overlapping bodies at rest, pop chance 1, the second smaller. *)
Definition big_still : PhysicsBody spec_float := body 60 30 0 0 8 1 false.
Definition small_still : PhysicsBody spec_float := body 65 30 0 0 5 1 false.

(** A body at rest whose lower edge is exactly 20 above the top of the
    arena. *)
Definition margin_body : PhysicsBody spec_float := body 64 (-25) 0 0 5 0 false.

(** The same body one unit higher. *)
Definition gone_body : PhysicsBody spec_float := body 64 (-26) 0 0 5 0 false.

Definition app_of (bodies : list (PhysicsBody spec_float)) : BubbleApp spec_float :=
  {| app_bodies := bodies; app_body_count := length bodies;
     app_bounds := arena; app_gravity_y := of_Z 0;
     app_groups := groups; app_rng := rng0 |}.




(** An eliminated body of radius [16.2f], in an application whose generator
    is about to draw [0xFFFFFF / 0x1000000], the largest value there is. *)
Definition wide_body : PhysicsBody spec_float :=
  {| x := of_Z 64; y := of_Z 30; vx := of_Z 0; vy := of_Z 0;
     ax := of_Z 0; ay := of_Z 0;
     radius := lit 162 10; inv_mass := of_Z 1; restitution := lit 8 10;
     group := 0; spawn_cooldown := 0; pop_chance := of_Z 0;
     popped := true |}.

Definition edge_rng : SimpleRng := rng_init 16103200.

Definition edge_app : BubbleApp spec_float :=
  {| app_bodies := [wide_body]; app_body_count := 1;
     app_bounds := arena; app_gravity_y := of_Z 0;
     app_groups := groups; app_rng := edge_rng |}.

(** An arena whose lower edge is at [2^30], where consecutive binary32
    numbers are 64 apart. *)
Definition deep_arena : WorldBounds spec_float :=
  {| min_x := of_Z 0; max_x := of_Z 127; min_y := of_Z 0; max_y := of_Z (2 ^ 30) |}.

Definition deep_app : BubbleApp spec_float :=
  {| app_bodies := [popped_body]; app_body_count := 1;
     app_bounds := deep_arena; app_gravity_y := of_Z 0;
     app_groups := groups; app_rng := rng0 |}.

(** An arena from [-2^127] to [2^127]: its width is beyond the largest
    binary32 number. *)
Definition vast_arena : WorldBounds spec_float :=
  {| min_x := of_Z (- 2 ^ 127); max_x := of_Z (2 ^ 127);
     min_y := of_Z 0; max_y := of_Z 63 |}.

Definition vast_app : BubbleApp spec_float :=
  {| app_bodies := [popped_body]; app_body_count := 1;
     app_bounds := vast_arena; app_gravity_y := of_Z 0;
     app_groups := groups; app_rng := rng0 |}.

End Scenario.

(** ** Concrete bodies and arenas, at the reals *)

Module RealScenario.

Import Exact.

Definition arena : WorldBounds R :=
  {| min_x := IZR 0; max_x := IZR 127; min_y := IZR 0; max_y := IZR 63 |}.

Definition groups : list (BubbleGroupConfig R) :=
  [ {| cfg_count := 22; cfg_radius := IZR 3; cfg_rise_speed := IZR 60;
       cfg_restitution := lit 8 10; cfg_pop_chance := IZR 1 |};
    {| cfg_count := 10; cfg_radius := IZR 8; cfg_rise_speed := IZR 11;
       cfg_restitution := lit 15 100; cfg_pop_chance := lit 10 100 |};
    {| cfg_count := 4; cfg_radius := IZR 16; cfg_rise_speed := IZR 4;
       cfg_restitution := lit 5 100; cfg_pop_chance := lit 10 100 |} ].

Definition rng0 : SimpleRng := rng_init 1.

Definition body (px py pvx pvy r : Z) : PhysicsBody R :=
  {| x := IZR px; y := IZR py; vx := IZR pvx; vy := IZR pvy;
     ax := IZR 0; ay := IZR 0;
     radius := IZR r; inv_mass := IZR 1; restitution := IZR 0;
     group := 0; spawn_cooldown := 0; pop_chance := IZR 0;
     popped := false |}.

(** Two bodies of radius 5 whose centers are 6 apart, approaching. *)
Definition left_in : PhysicsBody R := body 60 30 1 0 5.
Definition right_in : PhysicsBody R := body 66 30 (-1) 0 5.

(** A body whose lower edge is 21 above the top of the arena. *)
Definition gone_body : PhysicsBody R := body 64 (-26) 0 (-4) 5.

Definition app_of (bodies : list (PhysicsBody R)) : BubbleApp R :=
  {| app_bodies := bodies; app_body_count := length bodies;
     app_bounds := arena; app_gravity_y := IZR 0;
     app_groups := groups; app_rng := rng0 |}.

End RealScenario.

(** ** Relations the frame properties are stated with *)

Section Relations.

Context {F : Type} {ops : FloatOps F}.

(** What no step of [physics_step] may change in a body: its shape and
    material, its group, its pop chance; and a body that is popped stays
    popped. *)
Definition params_kept (b b' : PhysicsBody F) : Prop :=
  radius b' = radius b /\
  inv_mass b' = inv_mass b /\
  restitution b' = restitution b /\
  group b' = group b /\
  pop_chance b' = pop_chance b /\
  (popped b = true -> popped b' = true).

Definition bodies_kept (st st' : sim_state F) : Prop :=
  Forall2 params_kept (fst st) (fst st').

(** The pair as it stands when the pop logic is reached: after the
    positional correction and the bounce. *)
Definition before_pop (c : Contact F) (a b : PhysicsBody F)
    : PhysicsBody F * PhysicsBody F :=
  let '(a1, b1) := positional_correction c a b in
  impulse_response c (vel_norm (c_nx c) (c_ny c) a1 b1) a1 b1.

(** Every body's [group] indexes [app->groups]: [bubble_respawn_body] is
    defined on every body of the array. *)
Definition groups_ok (app : BubbleApp F) : Prop :=
  forall j b, app_bodies app !! j = Some b -> is_Some (group_config app (group b)).

(** What the respawn loops leave alone in the application. *)
Definition same_setup (app app' : BubbleApp F) : Prop :=
  app_bounds app' = app_bounds app /\
  app_groups app' = app_groups app /\
  app_body_count app' = app_body_count app.

End Relations.

(** ** The generator, seen from outside *)

(** The generator after [n] draws. *)
Definition rng_skip (n : N) (rng : SimpleRng) : SimpleRng :=
  N.iter n (fun r => snd (rng_next r)) rng.

(** The state from which one draw leads to the state [v]: the multiplier
    1664525 is odd, and 4276115653 is its inverse modulo [2^32]. *)
Definition rng_prev (v : Z) : Z :=
  ((v - 1013904223) * 4276115653) mod 2 ^ 32.

(** [2^k] draws are one affine map [s -> A * s + C] modulo [2^32]; squaring
    the map doubles the number of draws. *)
Definition lcg_double (p : Z * Z) : Z * Z :=
  let '(A, C) := p in ((A * A) mod 2 ^ 32, (A * C + C) mod 2 ^ 32).

Definition lcg_pow2 (k : nat) : Z * Z :=
  Nat.iter k lcg_double (1664525, 1013904223).

(** ** The rest of the application: population, menu, input *)

(** The keys and the kinds of event of the firmware's input service.  Its
    header is not part of the repository: the constructors are the values
    [bubble_handle_input] names, and one more for every other value. *)
Inductive InputKey : Type :=
  | InputKeyUp | InputKeyDown | InputKeyRight | InputKeyLeft
  | InputKeyOk | InputKeyBack | InputKeyOther.

Inductive InputType : Type :=
  | InputTypeShort | InputTypeLong | InputTypeRepeat | InputTypeOther.

(** [enum ConfigField], as the integers the source computes with. *)
Definition ConfigFieldCount : Z := 0.
Definition ConfigFieldRadius : Z := 1.
Definition ConfigFieldSpeed : Z := 2.
Definition ConfigFieldRestitution : Z := 3.
Definition ConfigFieldPopChance : Z := 4.
Definition ConfigFieldCountEnum : Z := 5.

Definition BUBBLE_MAX_COUNT : Z := 64.

(** The menu fields of [struct BubbleApp]. *)
Record Menu : Type := {
  selected_group : Z;
  menu_field : Z;
  hud_visible : bool
}.

Section Population.

Context {F : Type} {ops : FloatOps F}.

Definition BUBBLE_MIN_RADIUS : F := of_int 1.
Definition BUBBLE_MAX_RADIUS : F := of_int 32.
Definition BUBBLE_MIN_SPEED : F := lit 25 100.
Definition BUBBLE_MAX_SPEED : F := of_int 64.
Definition BUBBLE_MIN_RESTITUTION : F := of_int 0.
Definition BUBBLE_MAX_RESTITUTION : F := of_int 1.
Definition BUBBLE_MIN_POP : F := of_int 0.
Definition BUBBLE_MAX_POP : F := of_int 1.

Definition set_app_body_count (app : BubbleApp F) (n : nat) : BubbleApp F :=
  {| app_bodies := app_bodies app; app_body_count := n;
     app_bounds := app_bounds app; app_gravity_y := app_gravity_y app;
     app_groups := app_groups app; app_rng := app_rng app |}.

Definition set_app_groups (app : BubbleApp F) (gs : list (BubbleGroupConfig F))
    : BubbleApp F :=
  {| app_bodies := app_bodies app; app_body_count := app_body_count app;
     app_bounds := app_bounds app; app_gravity_y := app_gravity_y app;
     app_groups := gs; app_rng := app_rng app |}.

(** [bubble_app_init_groups]: the three entries of [app->groups]. *)
Definition bubble_app_init_groups (app : BubbleApp F) : BubbleApp F :=
  set_app_groups app
    [ {| cfg_count := 22; cfg_radius := of_int 3; cfg_rise_speed := of_int 60;
         cfg_restitution := lit 8 10; cfg_pop_chance := of_int 1 |};
      {| cfg_count := 10; cfg_radius := of_int 8; cfg_rise_speed := of_int 11;
         cfg_restitution := lit 15 100; cfg_pop_chance := lit 10 100 |};
      {| cfg_count := 4; cfg_radius := of_int 16; cfg_rise_speed := of_int 4;
         cfg_restitution := lit 5 100; cfg_pop_chance := lit 10 100 |} ].

(** The body that [bubble_app_build_bodies] and [bubble_app_reinit_group]
    write to [bodies[body_count]]: both assign every field, so what the slot
    held before does not matter.  The generator is drawn from three times. *)
Definition new_body (bd : WorldBounds F) (cfg : BubbleGroupConfig F) (g : Z)
    (rng : SimpleRng) : PhysicsBody F * SimpleRng :=
  let r := cfg_radius cfg in
  let '(u1, rng1) := rng_next_float01 rng in
  let x' := ((min_x bd + r) + u1 * ((max_x bd - r) - (min_x bd + r)))%fl in
  let y_base := (max_y bd + r + of_int 40)%fl in
  let '(u2, rng2) := rng_next_float01 rng1 in
  let y' := (y_base + u2 * of_int 20)%fl in
  let '(u3, rng3) := rng_next_float01 rng2 in
  let jitter := ((u3 - fhalf) * cfg_rise_speed cfg * lit 2 10)%fl in
  ({| x := x'; y := y'; vx := jitter; vy := (- cfg_rise_speed cfg)%fl;
      ax := f0; ay := f0;
      radius := r; inv_mass := f1; restitution := cfg_restitution cfg;
      group := g; spawn_cooldown := SPAWN_COOLDOWN_FRAMES;
      pop_chance := cfg_pop_chance cfg; popped := false |}, rng3).

(** One iteration of the creation loop: [b = &app->bodies[app->body_count++]]
    and the assignments through [b]. *)
Definition spawn_one (cfg : BubbleGroupConfig F) (g : Z) (app : BubbleApp F)
    : BubbleApp F :=
  let '(b, rng') := new_body (app_bounds app) cfg g (app_rng app) in
  set_app_rng
    (set_app_body_count
       (set_app_bodies app (<[app_body_count app := b]> (app_bodies app)))
       (S (app_body_count app)))
    rng'.

(** [for(int i = 0; i < count && app->body_count < MAX_BODIES; i++)], with
    [n] the number of values of [i] still to come. *)
Fixpoint spawn_loop (cfg : BubbleGroupConfig F) (g : Z) (n : nat) (app : BubbleApp F)
    : BubbleApp F :=
  match n with
  | O => app
  | S n' =>
      if (app_body_count app <? MAX_BODIES)%nat
      then spawn_loop cfg g n' (spawn_one cfg g app)
      else app
  end.

(** [int count = cfg->count; if(count < 0) count = 0;] *)
Definition requested (cfg : BubbleGroupConfig F) : nat :=
  Z.to_nat (if cfg_count cfg <? 0 then 0 else cfg_count cfg).

(** The body of the loop over the groups in [bubble_app_build_bodies]. *)
Definition spawn_group (app : BubbleApp F) (g : Z) : option (BubbleApp F) :=
  cfg ← group_config app g;
  Some (spawn_loop cfg g (requested cfg) app).

(** [bubble_app_build_bodies]. *)
Definition bubble_app_build_bodies (app : BubbleApp F) : option (BubbleApp F) :=
  fold_left (fun acc g => acc ≫= fun a => spawn_group a g)
            (map Z.of_nat (seq 0 (Z.to_nat GROUP_COUNT)))
            (Some (set_app_body_count app 0)).

(** One iteration of the compaction loop of [bubble_app_reinit_group]; the
    state is the array and [write].  Reading [app->bodies[i]] beyond the array
    is undefined, [None]. *)
Definition compact_step (group_id : Z) (st : option (list (PhysicsBody F) * nat))
    (i : nat) : option (list (PhysicsBody F) * nat) :=
  '(bodies, write) ← st;
  b ← bodies !! i;
  if group b =? group_id then Some (bodies, write)
  else Some ((if (write =? i)%nat then bodies else <[write := b]> bodies), S write).

(** [bubble_app_reinit_group]. *)
Definition bubble_app_reinit_group (app : BubbleApp F) (group_id : Z)
    : option (BubbleApp F) :=
  if (group_id <? 0) || (GROUP_COUNT <=? group_id) then Some app else
  cfg ← group_config app group_id;
  '(bodies, write) ←
    fold_left (compact_step group_id) (seq 0 (app_body_count app))
              (Some (app_bodies app, O));
  let app1 := set_app_body_count (set_app_bodies app bodies) write in
  Some (spawn_loop cfg group_id (requested cfg) app1).

(** [bubble_save_and_reinit], without the write to the configuration file,
    which changes nothing in the application. *)
Definition bubble_save_and_reinit (app : BubbleApp F) (m : Menu) : option (BubbleApp F) :=
  bubble_app_reinit_group app (selected_group m).

(** The two [if]s that follow every adjustment of a [float] field. *)
Definition clamp (lo hi v : F) : F :=
  let v1 := if (v <? lo)%fl then lo else v in
  if (hi <? v1)%fl then hi else v1.

(** [lo <= v && v <= hi]. *)
Definition within (lo hi v : F) : bool := (lo <=? v)%fl && (v <=? hi)%fl.

Definition set_cfg_count (cfg : BubbleGroupConfig F) (n : Z) : BubbleGroupConfig F :=
  {| cfg_count := n; cfg_radius := cfg_radius cfg; cfg_rise_speed := cfg_rise_speed cfg;
     cfg_restitution := cfg_restitution cfg; cfg_pop_chance := cfg_pop_chance cfg |}.

Definition set_cfg_radius (cfg : BubbleGroupConfig F) (v : F) : BubbleGroupConfig F :=
  {| cfg_count := cfg_count cfg; cfg_radius := v; cfg_rise_speed := cfg_rise_speed cfg;
     cfg_restitution := cfg_restitution cfg; cfg_pop_chance := cfg_pop_chance cfg |}.

Definition set_cfg_rise_speed (cfg : BubbleGroupConfig F) (v : F) : BubbleGroupConfig F :=
  {| cfg_count := cfg_count cfg; cfg_radius := cfg_radius cfg; cfg_rise_speed := v;
     cfg_restitution := cfg_restitution cfg; cfg_pop_chance := cfg_pop_chance cfg |}.

Definition set_cfg_restitution (cfg : BubbleGroupConfig F) (v : F) : BubbleGroupConfig F :=
  {| cfg_count := cfg_count cfg; cfg_radius := cfg_radius cfg;
     cfg_rise_speed := cfg_rise_speed cfg;
     cfg_restitution := v; cfg_pop_chance := cfg_pop_chance cfg |}.

Definition set_cfg_pop_chance (cfg : BubbleGroupConfig F) (v : F) : BubbleGroupConfig F :=
  {| cfg_count := cfg_count cfg; cfg_radius := cfg_radius cfg;
     cfg_rise_speed := cfg_rise_speed cfg;
     cfg_restitution := cfg_restitution cfg; cfg_pop_chance := v |}.

(** The range of the C [int] of the target. *)
Definition INT_MIN : Z := - 2 ^ 31.
Definition INT_MAX : Z := 2 ^ 31 - 1.

(** The [switch] of [bubble_adjust_field] on the configuration it points
    to.  [cfg->count += dir] is an addition of [int]s: beyond their range it
    is undefined, [None].  The [default] case changes nothing. *)
Definition adjust_config (field dir : Z) (cfg : BubbleGroupConfig F)
    : option (BubbleGroupConfig F) :=
  if field =? ConfigFieldCount then
    let n := cfg_count cfg + dir in
    if (n <? INT_MIN) || (INT_MAX <? n) then None else
    let n := if n <? 0 then 0 else n in
    let n := if BUBBLE_MAX_COUNT <? n then BUBBLE_MAX_COUNT else n in
    Some (set_cfg_count cfg n)
  else if field =? ConfigFieldRadius then
    Some (set_cfg_radius cfg
            (clamp BUBBLE_MIN_RADIUS BUBBLE_MAX_RADIUS
                   (cfg_radius cfg + of_int dir * lit 25 100)%fl))
  else if field =? ConfigFieldSpeed then
    Some (set_cfg_rise_speed cfg
            (clamp BUBBLE_MIN_SPEED BUBBLE_MAX_SPEED
                   (cfg_rise_speed cfg + of_int dir * f1)%fl))
  else if field =? ConfigFieldRestitution then
    Some (set_cfg_restitution cfg
            (clamp BUBBLE_MIN_RESTITUTION BUBBLE_MAX_RESTITUTION
                   (cfg_restitution cfg + of_int dir * lit 1 100)%fl))
  else if field =? ConfigFieldPopChance then
    Some (set_cfg_pop_chance cfg
            (clamp BUBBLE_MIN_POP BUBBLE_MAX_POP
                   (cfg_pop_chance cfg + of_int dir * lit 1 100)%fl))
  else Some cfg.

(** [bubble_adjust_field]: in the five cases of the [switch] the
    configuration [app->groups[app->selected_group]] is adjusted in place and
    the group is rebuilt; the [default] case reads nothing. *)
Definition bubble_adjust_field (app : BubbleApp F) (m : Menu) (dir : Z)
    : option (BubbleApp F) :=
  if (menu_field m <? 0) || (ConfigFieldCountEnum <=? menu_field m) then Some app else
  cfg ← group_config app (selected_group m);
  cfg' ← adjust_config (menu_field m) dir cfg;
  bubble_save_and_reinit
    (set_app_groups app (<[Z.to_nat (selected_group m) := cfg']> (app_groups app))) m.

Definition set_menu_field (m : Menu) (f : Z) : Menu :=
  {| selected_group := selected_group m; menu_field := f; hud_visible := hud_visible m |}.

Definition set_selected_group (m : Menu) (g : Z) : Menu :=
  {| selected_group := g; menu_field := menu_field m; hud_visible := hud_visible m |}.

Definition set_hud_visible (m : Menu) (v : bool) : Menu :=
  {| selected_group := selected_group m; menu_field := menu_field m; hud_visible := v |}.

(** [bubble_handle_input] on the event [(ty, key)]: the application, the menu
    and [*running] afterwards.  [app->selected_group++] is an increment of an
    [int], undefined ([None]) at [INT_MAX]. *)
Definition bubble_handle_input (app : BubbleApp F) (m : Menu) (ty : InputType)
    (key : InputKey) (running : bool) : option (BubbleApp F * Menu * bool) :=
  match ty, key with
  | InputTypeLong, InputKeyOk => Some (app, set_hud_visible m (negb (hud_visible m)), running)
  | (InputTypeShort | InputTypeRepeat), InputKeyBack => Some (app, m, false)
  | (InputTypeShort | InputTypeRepeat), InputKeyUp =>
      let f := if menu_field m =? 0 then ConfigFieldCountEnum - 1 else menu_field m - 1 in
      Some (app, set_menu_field m f, running)
  | (InputTypeShort | InputTypeRepeat), InputKeyDown =>
      let f := menu_field m + 1 in
      let f := if ConfigFieldCountEnum <=? f then ConfigFieldCount else f in
      Some (app, set_menu_field m f, running)
  | (InputTypeShort | InputTypeRepeat), InputKeyLeft =>
      app' ← bubble_adjust_field app m (-1); Some (app', m, running)
  | (InputTypeShort | InputTypeRepeat), InputKeyRight =>
      app' ← bubble_adjust_field app m 1; Some (app', m, running)
  | (InputTypeShort | InputTypeRepeat), InputKeyOk =>
      let g := selected_group m + 1 in
      if INT_MAX <? g then None else
      let g := if GROUP_COUNT <=? g then 0 else g in
      Some (app, set_selected_group m g, running)
  | _, _ => Some (app, m, running)
  end.

(** [bubble_load_config]: [file] is what the storage service delivers,
    [Some] of the three records when the file exists and has the full size. *)
Definition bubble_load_config (app : BubbleApp F)
    (file : option (BubbleGroupConfig F * BubbleGroupConfig F * BubbleGroupConfig F))
    : BubbleApp F :=
  match file with
  | Some (c0, c1, c2) => set_app_groups app [c0; c1; c2]
  | None => app
  end.

Definition SCREEN_W : Z := 128.
Definition SCREEN_H : Z := 64.

(** A body and a configuration after [memset(app, 0, sizeof(BubbleApp))]. *)
Definition zero_body : PhysicsBody F :=
  {| x := f0; y := f0; vx := f0; vy := f0; ax := f0; ay := f0;
     radius := f0; inv_mass := f0; restitution := f0;
     group := 0; spawn_cooldown := 0; pop_chance := f0; popped := false |}.

Definition zero_config : BubbleGroupConfig F :=
  {| cfg_count := 0; cfg_radius := f0; cfg_rise_speed := f0;
     cfg_restitution := f0; cfg_pop_chance := f0 |}.

(** [bubble_sim_app] up to its loop: [tick] is the value of
    [furi_get_tick()]. *)
Definition bubble_sim_app_init (tick : Z)
    (file : option (BubbleGroupConfig F * BubbleGroupConfig F * BubbleGroupConfig F))
    : option (BubbleApp F * Menu) :=
  let app0 :=
    {| app_bodies := replicate MAX_BODIES zero_body; app_body_count := 0;
       app_bounds := {| min_x := f0; max_x := of_int (SCREEN_W - 1);
                        min_y := f0; max_y := of_int (SCREEN_H - 1) |};
       app_gravity_y := f0;
       app_groups := replicate (Z.to_nat GROUP_COUNT) zero_config;
       app_rng := rng_init tick |} in
  let app1 := bubble_load_config (bubble_app_init_groups app0) file in
  app2 ← bubble_app_build_bodies app1;
  Some (app2, {| selected_group := 0; menu_field := ConfigFieldCount;
                 hud_visible := true |}).

(** One turn of [while(running)]: [ev] is the event the queue holds, if any;
    then the physics step and the two respawn passes. *)
Definition bubble_sim_turn (ev : option (InputType * InputKey))
    (st : BubbleApp F * Menu * bool) : option (BubbleApp F * Menu * bool) :=
  let '(app, m, running) := st in
  '(app1, m1, running1) ←
    match ev with
    | Some (ty, key) => bubble_handle_input app m ty key running
    | None => Some (app, m, running)
    end;
  app2 ← bubble_sim_tick app1;
  Some (app2, m1, running1).

(** The loop of [bubble_sim_app] over the events of the successive turns,
    until [running] is cleared or the events end. *)
Fixpoint bubble_sim_loop (evs : list (option (InputType * InputKey)))
    (st : BubbleApp F * Menu * bool) : option (BubbleApp F * Menu * bool) :=
  match evs with
  | [] => Some st
  | ev :: evs' =>
      if st.2 then st' ← bubble_sim_turn ev st; bubble_sim_loop evs' st'
      else Some st
  end.

End Population.

(** ** Relations the further properties are stated with *)

Section MoreRelations.

Context {F : Type} {ops : FloatOps F}.

(** The flag and the pop chance of a body are those of an earlier one. *)
Definition flags_kept (b0 b : PhysicsBody F) : Prop :=
  popped b = popped b0 /\ pop_chance b = pop_chance b0.

(** What a respawn pass with the test [test] has done to the body [b] of a
    slot it has visited: nothing, because the test failed, or one respawn. *)
Definition visited (test : BubbleApp F -> PhysicsBody F -> bool)
    (app : BubbleApp F) (b b' : PhysicsBody F) : Prop :=
  (b' = b /\ test app b = false) \/
  (test app b = true /\
   exists app1 r', same_setup app app1 /\ bubble_respawn_body app1 b = Some (b', r')).

(** The application as the program keeps it: the two arrays have their
    declared sizes, the count is within the array and every body's [group]
    indexes [app->groups]. *)
Definition app_ok (app : BubbleApp F) : Prop :=
  length (app_bodies app) = MAX_BODIES /\
  (app_body_count app <= MAX_BODIES)%nat /\
  length (app_groups app) = Z.to_nat GROUP_COUNT /\
  forall j b, app_bodies app !! j = Some b -> 0 <= group b < GROUP_COUNT.

(** The menu selects a group and a field that exist. *)
Definition menu_ok (m : Menu) : Prop :=
  0 <= selected_group m < GROUP_COUNT /\ 0 <= menu_field m < ConfigFieldCountEnum.

(** Every configured count can be moved one step either way as an [int]. *)
Definition counts_ok (app : BubbleApp F) : Prop :=
  Forall (fun cfg => INT_MIN < cfg_count cfg < INT_MAX) (app_groups app).

(** The bodies in use. *)
Definition used (app : BubbleApp F) : list (PhysicsBody F) :=
  take (app_body_count app) (app_bodies app).

(** [b] is a body as the creation loops make it for group [g]. *)
Definition created (bd : WorldBounds F) (cfg : BubbleGroupConfig F) (g : Z)
    (b : PhysicsBody F) : Prop :=
  exists r, b = fst (new_body bd cfg g r).

(** Every setting of a configuration is within its limits. *)
Definition limits_ok (cfg : BubbleGroupConfig F) : Prop :=
  0 <= cfg_count cfg <= BUBBLE_MAX_COUNT /\
  within BUBBLE_MIN_RADIUS BUBBLE_MAX_RADIUS (cfg_radius cfg) = true /\
  within BUBBLE_MIN_SPEED BUBBLE_MAX_SPEED (cfg_rise_speed cfg) = true /\
  within BUBBLE_MIN_RESTITUTION BUBBLE_MAX_RESTITUTION (cfg_restitution cfg) = true /\
  within BUBBLE_MIN_POP BUBBLE_MAX_POP (cfg_pop_chance cfg) = true.

(** [b] has the radius, the mass and the material its group is configured
    with. *)
Definition follows (app : BubbleApp F) (b : PhysicsBody F) : Prop :=
  exists cfg, group_config app (group b) = Some cfg /\
    radius b = cfg_radius cfg /\ inv_mass b = f1 /\
    restitution b = cfg_restitution cfg /\ pop_chance b = cfg_pop_chance cfg.

Definition bodies_follow (app : BubbleApp F) : Prop := Forall (follows app) (used app).

(** What a turn of the run loop leaves alone in a body. *)
Definition settings_kept (b b' : PhysicsBody F) : Prop :=
  radius b' = radius b /\ inv_mass b' = inv_mass b /\
  restitution b' = restitution b /\ group b' = group b /\
  pop_chance b' = pop_chance b.

(** A short press of [key] in the state [st]. *)
Definition press (key : InputKey) (st : option (BubbleApp F * Menu * bool))
    : option (BubbleApp F * Menu * bool) :=
  '(app, m, running) ← st; bubble_handle_input app m InputTypeShort key running.

End MoreRelations.

(** ** The application before its bodies are built *)

Module Start.

Import B32.

(** The menu as [bubble_sim_app] sets it. *)
Definition menu0 : Menu :=
  {| selected_group := 0; menu_field := ConfigFieldCount; hud_visible := true |}.

(** On binary32: zeroed bodies, the screen as arena, the default groups. *)
Definition blank : BubbleApp spec_float :=
  bubble_app_init_groups
    {| app_bodies := replicate MAX_BODIES zero_body; app_body_count := 0;
       app_bounds := Scenario.arena; app_gravity_y := of_Z 0;
       app_groups := replicate (Z.to_nat GROUP_COUNT) zero_config;
       app_rng := Scenario.rng0 |}.

(** A body that has just been spawned: its cooldown is still running. *)
Definition cooling : PhysicsBody spec_float :=
  set_spawn_cooldown Scenario.left_in SPAWN_COOLDOWN_FRAMES.

(** The default configuration of the small bubbles. *)
Definition small : BubbleGroupConfig spec_float :=
  {| cfg_count := 22; cfg_radius := of_Z 3; cfg_rise_speed := of_Z 60;
     cfg_restitution := lit 8 10; cfg_pop_chance := of_Z 1 |}.

End Start.

(** * Properties that hold for every arithmetic *)

(** A loop whose every iteration respects a preorder respects it as a
    whole. *)
Lemma fold_left_preorder {S A : Type} (R : S -> S -> Prop) (f : S -> A -> S) :
  (forall s, R s s) -> (forall s1 s2 s3, R s1 s2 -> R s2 s3 -> R s1 s3) ->
  (forall s x, R s (f s x)) ->
  forall l s, R s (fold_left f l s).
Proof.
  intros Hrefl Htrans Hstep l. induction l as [|x l IH]; intros s; cbn; eauto.
Qed.

(** A loop whose every iteration keeps an invariant keeps it. *)
Lemma fold_left_invariant {S A : Type} (P : S -> Prop) (f : S -> A -> S) :
  (forall s x, P s -> P (f s x)) ->
  forall l s, P s -> P (fold_left f l s).
Proof.
  intros Hstep l. induction l as [|x l IH]; intros s Hs; cbn; auto.
Qed.

Section Frame.

Context {F : Type} {ops : FloatOps F}.

Implicit Types (a b : PhysicsBody F) (bs : list (PhysicsBody F)).
Implicit Types (st : sim_state F) (bounds : option (WorldBounds F)).
Implicit Types (rng : option SimpleRng) (c : Contact F).

Ltac split_ifs :=
  repeat match goal with
         | |- context [if ?c then _ else _] => destruct c
         end.

Lemma params_kept_refl b : params_kept b b.
Proof. unfold params_kept; auto 10. Qed.

Lemma params_kept_trans (b1 b2 b3 : PhysicsBody F) :
  params_kept b1 b2 -> params_kept b2 b3 -> params_kept b1 b3.
Proof.
  unfold params_kept. intros (?&?&?&?&?&?) (?&?&?&?&?&?).
  repeat split; try congruence; auto.
Qed.

Lemma integrate_body_keeps dt g b : params_kept b (integrate_body dt g b).
Proof. unfold integrate_body, params_kept. split_ifs; cbn; auto 10. Qed.

Lemma wall_collide_keeps bounds b : params_kept b (wall_collide bounds b).
Proof.
  unfold wall_collide, params_kept. destruct bounds; [|auto 10].
  cbv zeta. split_ifs; cbn; auto 10.
Qed.

Lemma tick_cooldown_keeps b : params_kept b (tick_cooldown b).
Proof. unfold tick_cooldown, params_kept. split_ifs; cbn; auto 10. Qed.

Lemma step_body_keeps dt g bounds b : params_kept b (step_body dt g bounds b).
Proof.
  unfold step_body.
  eapply params_kept_trans; [apply integrate_body_keeps|].
  eapply params_kept_trans; [apply wall_collide_keeps|apply tick_cooldown_keeps].
Qed.

Lemma positional_correction_keeps c a b :
  params_kept a (fst (positional_correction c a b)) /\
  params_kept b (snd (positional_correction c a b)).
Proof. unfold positional_correction, params_kept. cbv zeta. split_ifs; cbn; auto 20. Qed.

Lemma impulse_response_keeps c vn a b :
  params_kept a (fst (impulse_response c vn a b)) /\
  params_kept b (snd (impulse_response c vn a b)).
Proof. unfold impulse_response, params_kept. cbv zeta. split_ifs; cbn; auto 20. Qed.

Lemma pop_logic_keeps a b rng :
  params_kept a (fst (fst (pop_logic a b rng))) /\
  params_kept b (snd (fst (pop_logic a b rng))).
Proof.
  unfold pop_logic, params_kept. destruct rng as [r|]; [|cbn; auto 20].
  destruct (rng_next_float01 r) as [u r']. split_ifs; cbn; auto 20.
Qed.

Lemma resolve_pair_keeps bounds vis_a a b rng :
  params_kept a (fst (fst (resolve_pair bounds vis_a a b rng))) /\
  params_kept b (snd (fst (resolve_pair bounds vis_a a b rng))).
Proof.
  unfold resolve_pair.
  destruct (pair_contact bounds vis_a a b) as [c|]; [|split; apply params_kept_refl].
  pose proof (positional_correction_keeps c a b) as [Ha1 Hb1].
  destruct (positional_correction c a b) as [a1 b1]. cbn [fst snd] in *. cbv zeta.
  destruct (f0 <? vel_norm (c_nx c) (c_ny c) a1 b1)%fl; [cbn; auto|].
  pose proof (impulse_response_keeps c (vel_norm (c_nx c) (c_ny c) a1 b1) a1 b1) as [Ha2 Hb2].
  destruct (impulse_response c _ a1 b1) as [a2 b2]. cbn [fst snd] in *.
  pose proof (pop_logic_keeps a2 b2 rng) as [Ha3 Hb3].
  split; eauto using params_kept_trans.
Qed.

(** Writing a body back into its slot. *)
Lemma insert_kept bs i b b' :
  bs !! i = Some b -> params_kept b b' -> Forall2 params_kept bs (<[i := b']> bs).
Proof.
  intros Hi Hk. apply Forall2_same_length_lookup_2.
  - by rewrite length_insert.
  - intros j u v Hu Hv. destruct (decide (i = j)) as [->|Hne].
    + rewrite list_lookup_insert_eq in Hv by (eapply lookup_lt_Some; eauto).
      congruence.
    + rewrite list_lookup_insert_ne in Hv by done.
      assert (u = v) as -> by congruence. apply params_kept_refl.
Qed.

Lemma Forall2_kept_refl bs : Forall2 params_kept bs bs.
Proof. induction bs; constructor; auto using params_kept_refl. Qed.

Lemma Forall2_kept_trans bs1 bs2 bs3 :
  Forall2 params_kept bs1 bs2 -> Forall2 params_kept bs2 bs3 ->
  Forall2 params_kept bs1 bs3.
Proof.
  intros H12. revert bs3. induction H12; intros bs3 H23; inversion H23; subst;
    constructor; eauto using params_kept_trans.
Qed.

Lemma integrate_at_keeps dt g bounds bs i :
  Forall2 params_kept bs (integrate_at dt g bounds bs i).
Proof.
  unfold integrate_at. destruct (bs !! i) as [b|] eqn:Hi.
  - eapply insert_kept; eauto using step_body_keeps.
  - apply Forall2_kept_refl.
Qed.

Lemma integrate_all_keeps count dt g bounds bs :
  Forall2 params_kept bs (integrate_all count dt g bounds bs).
Proof.
  unfold integrate_all.
  apply (fold_left_preorder (Forall2 params_kept));
    auto using Forall2_kept_refl, integrate_at_keeps.
  exact Forall2_kept_trans.
Qed.

Lemma bodies_kept_refl st : bodies_kept st st.
Proof. apply Forall2_kept_refl. Qed.

Lemma bodies_kept_trans st1 st2 st3 :
  bodies_kept st1 st2 -> bodies_kept st2 st3 -> bodies_kept st1 st3.
Proof. apply Forall2_kept_trans. Qed.

Lemma collide_pair_keeps bounds vis_a i st j :
  bodies_kept st (collide_pair bounds vis_a i st j).
Proof.
  unfold bodies_kept, collide_pair. destruct st as [bs rng]. cbn [fst].
  destruct (bs !! i) as [a|] eqn:Hi; [|apply Forall2_kept_refl].
  destruct (bs !! j) as [b|] eqn:Hj; [|apply Forall2_kept_refl].
  pose proof (resolve_pair_keeps bounds vis_a a b rng) as [Ha Hb].
  destruct (resolve_pair bounds vis_a a b rng) as [[a' b'] rng']. cbn [fst snd] in *.
  destruct (decide (i = j)) as [->|Hne].
  - rewrite list_insert_insert_eq. eapply insert_kept; eauto.
  - apply (Forall2_kept_trans _ (<[i := a']> bs)); [eapply insert_kept; eauto|].
    eapply insert_kept; [rewrite list_lookup_insert_ne by done; eauto|exact Hb].
Qed.

Lemma collide_row_keeps bounds count st i :
  bodies_kept st (collide_row bounds count st i).
Proof.
  unfold collide_row. destruct (fst st !! i) as [a|]; [|apply bodies_kept_refl].
  destruct (popped a); [apply bodies_kept_refl|]. cbv zeta.
  apply (fold_left_preorder bodies_kept);
    auto using bodies_kept_refl, collide_pair_keeps.
  exact bodies_kept_trans.
Qed.

Lemma collide_all_keeps bounds count st :
  bodies_kept st (collide_all bounds count st).
Proof.
  unfold collide_all.
  apply (fold_left_preorder bodies_kept);
    auto using bodies_kept_refl, collide_row_keeps.
  exact bodies_kept_trans.
Qed.

(** The result of [physics_step] on an array that is there. *)
Lemma physics_step_some bs count dt g bounds rng :
  exists bs' rng',
    physics_step (Some bs) count dt g bounds rng = (Some bs', rng') /\
    Forall2 params_kept bs bs'.
Proof.
  unfold physics_step.
  destruct (dt <=? f0)%fl; [eauto using Forall2_kept_refl|].
  destruct (count =? 0)%nat; [eauto using Forall2_kept_refl|]. cbv zeta.
  pose proof (collide_all_keeps bounds count
                (integrate_all count dt g bounds bs, rng)) as Hc.
  destruct (collide_all bounds count _) as [bs2 rng2].
  exists bs2, rng2. split; [reflexivity|].
  eapply Forall2_kept_trans; [apply integrate_all_keeps|exact Hc].
Qed.

Lemma physics_step_none count dt g bounds rng :
  physics_step None count dt g bounds rng = (None, rng).
Proof. unfold physics_step. by destruct (dt <=? f0)%fl. Qed.

(** *** The first loop, slot by slot *)

Lemma integrate_at_lookup dt g bounds bs i k :
  integrate_at dt g bounds bs i !! k
  = if decide (i = k) then step_body dt g bounds <$> bs !! k else bs !! k.
Proof.
  unfold integrate_at. destruct (decide (i = k)) as [->|Hne].
  - destruct (bs !! k) as [b|] eqn:Hk; [|by rewrite Hk].
    rewrite list_lookup_insert_eq by (eapply lookup_lt_Some; eauto). done.
  - destruct (bs !! i); [by rewrite list_lookup_insert_ne|done].
Qed.

Lemma integrate_all_lookup count dt g bounds bs k :
  integrate_all count dt g bounds bs !! k
  = if decide (k < count)%nat then step_body dt g bounds <$> bs !! k else bs !! k.
Proof.
  unfold integrate_all. induction count as [|n IH].
  - cbn. destruct (decide (k < 0)%nat); [lia|done].
  - rewrite seq_S, fold_left_app. cbn [fold_left]. rewrite Nat.add_0_l.
    rewrite integrate_at_lookup, IH.
    destruct (decide (n = k)) as [->|Hne].
    + destruct (decide (k < k)%nat); [lia|].
      destruct (decide (k < S k)%nat); [done|lia].
    + destruct (decide (k < n)%nat), (decide (k < S n)%nat); (done || lia).
Qed.

(** A body that is not integrated only meets the wall and the cooldown. *)
Lemma step_body_popped dt g bounds b :
  popped b = true -> step_body dt g bounds b = tick_cooldown (wall_collide bounds b).
Proof.
  intros Hp. unfold step_body, integrate_body. rewrite Hp.
  by rewrite andb_false_r.
Qed.

(** *** The second loop leaves a popped body alone *)

Lemma resolve_pair_popped_b bounds vis_a a b rng :
  popped b = true -> resolve_pair bounds vis_a a b rng = (a, b, rng).
Proof. intros Hp. unfold resolve_pair, pair_contact. by rewrite Hp. Qed.

Lemma collide_pair_popped_slot bounds vis_a i st j k b0 :
  k <> i -> popped b0 = true -> fst st !! k = Some b0 ->
  fst (collide_pair bounds vis_a i st j) !! k = Some b0.
Proof.
  intros Hki Hp Hk. unfold collide_pair. destruct st as [bs rng]. cbn [fst] in *.
  destruct (bs !! i) as [a|] eqn:Hi; [|done].
  destruct (bs !! j) as [b|] eqn:Hj; [|done].
  destruct (decide (j = k)) as [->|Hjk].
  - assert (b = b0) as -> by congruence.
    rewrite resolve_pair_popped_b by done. cbn [fst].
    rewrite list_lookup_insert_eq; [done|].
    rewrite length_insert. eapply lookup_lt_Some; eauto.
  - destruct (resolve_pair bounds vis_a a b rng) as [[a' b'] rng']. cbn [fst].
    by rewrite !list_lookup_insert_ne.
Qed.

Lemma collide_row_popped_slot bounds count st i k b0 :
  popped b0 = true -> fst st !! k = Some b0 ->
  fst (collide_row bounds count st i) !! k = Some b0.
Proof.
  intros Hp Hk. unfold collide_row.
  destruct (fst st !! i) as [a|] eqn:Hi; [|done].
  destruct (popped a) eqn:Hpa; [done|]. cbv zeta.
  assert (k <> i) as Hki by (intros ->; congruence).
  apply (fold_left_invariant (fun s => fst s !! k = Some b0)); [|done].
  intros s j Hs. by apply collide_pair_popped_slot.
Qed.

Lemma collide_all_popped_slot bounds count st k b0 :
  popped b0 = true -> fst st !! k = Some b0 ->
  fst (collide_all bounds count st) !! k = Some b0.
Proof.
  intros Hp Hk. unfold collide_all.
  apply (fold_left_invariant (fun s => fst s !! k = Some b0)); [|done].
  intros s i Hs. by apply collide_row_popped_slot.
Qed.

Lemma tick_cooldown_popped b : popped (tick_cooldown b) = popped b.
Proof. unfold tick_cooldown. by destruct (0 <? spawn_cooldown b). Qed.

Lemma wall_collide_popped bounds b : popped (wall_collide bounds b) = popped b.
Proof.
  unfold wall_collide. destruct bounds; [|done]. cbv zeta. split_ifs; done.
Qed.

Lemma wall_collide_vertical bounds b :
  y (wall_collide bounds b) = y b /\ vy (wall_collide bounds b) = vy b.
Proof.
  unfold wall_collide. destruct bounds; [|done]. cbv zeta. split_ifs; done.
Qed.

Lemma tick_cooldown_motion b :
  x (tick_cooldown b) = x b /\ y (tick_cooldown b) = y b /\
  vx (tick_cooldown b) = vx b /\ vy (tick_cooldown b) = vy b.
Proof. unfold tick_cooldown. by destruct (0 <? spawn_cooldown b). Qed.

(** *** What the stages of a resolved pair leave alone *)

(** Everything but the position. *)
Lemma positional_correction_fields c a b :
  let a1 := fst (positional_correction c a b) in
  let b1 := snd (positional_correction c a b) in
  (vx a1 = vx a /\ vy a1 = vy a /\ radius a1 = radius a /\
   inv_mass a1 = inv_mass a /\ restitution a1 = restitution a /\
   pop_chance a1 = pop_chance a /\ popped a1 = popped a) /\
  (vx b1 = vx b /\ vy b1 = vy b /\ radius b1 = radius b /\
   inv_mass b1 = inv_mass b /\ restitution b1 = restitution b /\
   pop_chance b1 = pop_chance b /\ popped b1 = popped b).
Proof. unfold positional_correction. cbv zeta. split_ifs; cbn; auto 20. Qed.

(** Everything but the velocity. *)
Lemma impulse_response_fields c vn a b :
  let a2 := fst (impulse_response c vn a b) in
  let b2 := snd (impulse_response c vn a b) in
  (x a2 = x a /\ y a2 = y a /\ radius a2 = radius a /\
   pop_chance a2 = pop_chance a /\ popped a2 = popped a) /\
  (x b2 = x b /\ y b2 = y b /\ radius b2 = radius b /\
   pop_chance b2 = pop_chance b /\ popped b2 = popped b).
Proof. unfold impulse_response. cbv zeta. split_ifs; cbn; auto 20. Qed.


Lemma vel_norm_positional c nx ny a b :
  vel_norm nx ny (fst (positional_correction c a b)) (snd (positional_correction c a b))
  = vel_norm nx ny a b.
Proof.
  destruct (positional_correction_fields c a b) as [(Hax & Hay & _) (Hbx & Hby & _)].
  unfold vel_norm. cbv zeta in *. by rewrite Hax, Hay, Hbx, Hby.
Qed.

Lemma avg_pop_eq a b a' b' :
  pop_chance a' = pop_chance a -> pop_chance b' = pop_chance b ->
  avg_pop a' b' = avg_pop a b.
Proof. unfold avg_pop. by intros -> ->. Qed.

Lemma before_pop_fields c a b :
  let a2 := fst (before_pop c a b) in
  let b2 := snd (before_pop c a b) in
  (radius a2 = radius a /\ pop_chance a2 = pop_chance a /\ popped a2 = popped a) /\
  (radius b2 = radius b /\ pop_chance b2 = pop_chance b /\ popped b2 = popped b).
Proof.
  unfold before_pop.
  pose proof (positional_correction_fields c a b) as Hpc.
  destruct (positional_correction c a b) as [a1 b1]. cbn [fst snd] in Hpc.
  pose proof (impulse_response_fields c (vel_norm (c_nx c) (c_ny c) a1 b1) a1 b1) as Hir.
  destruct (impulse_response c _ a1 b1) as [a2 b2]. cbn [fst snd] in *.
  destruct Hpc as [(_&_&?&_&_&?&?) (_&_&?&_&_&?&?)].
  destruct Hir as [(_&_&?&?&?) (_&_&?&?&?)].
  repeat split; congruence.
Qed.

(** The three ways out of the inner loop's body. *)
Lemma resolve_pair_cases bounds vis_a a b rng :
  resolve_pair bounds vis_a a b rng =
  match pair_contact bounds vis_a a b with
  | None => (a, b, rng)
  | Some c =>
      if (f0 <? vel_norm (c_nx c) (c_ny c) a b)%fl
      then (positional_correction c a b, rng)
      else pop_logic (fst (before_pop c a b)) (snd (before_pop c a b)) rng
  end.
Proof.
  unfold resolve_pair, before_pop.
  destruct (pair_contact bounds vis_a a b) as [c|]; [|done].
  pose proof (vel_norm_positional c (c_nx c) (c_ny c) a b) as Hvn.
  destruct (positional_correction c a b) as [a1 b1]. cbn [fst snd] in Hvn.
  cbv zeta. rewrite Hvn.
  destruct (f0 <? vel_norm (c_nx c) (c_ny c) a b)%fl; [done|].
  by destruct (impulse_response c _ a1 b1).
Qed.




Lemma rng_next_float01_state (r : SimpleRng) :
  snd (rng_next_float01 (F:=F) r) = snd (rng_next r).
Proof. reflexivity. Qed.

End Frame.

(** * The respawn loops, for every arithmetic *)

Section Lifecycle.

Context {F : Type} {ops : FloatOps F}.

Implicit Types (app : BubbleApp F) (b : PhysicsBody F).

Lemma same_setup_refl app : same_setup app app.
Proof. by unfold same_setup. Qed.

Lemma same_setup_trans app1 app2 app3 :
  same_setup app1 app2 -> same_setup app2 app3 -> same_setup app1 app3.
Proof. unfold same_setup. intros (?&?&?) (?&?&?). repeat split; congruence. Qed.

(** [bubble_respawn_body] clears the flag, whatever it draws. *)
Lemma respawn_clears_popped app b b' (r' : SimpleRng) :
  bubble_respawn_body app b = Some (b', r') ->
  popped b' = false /\ spawn_cooldown b' = SPAWN_COOLDOWN_FRAMES /\
  radius b' = radius b /\ group b' = group b.
Proof.
  unfold bubble_respawn_body. destruct (group_config app (group b)) as [cfg|]; [|done].
  cbn. destruct (rng_next_float01 (app_rng app)) as [u1 r1].
  destruct (rng_next_float01 r1) as [u2 r2].
  destruct (rng_next_float01 r2) as [u3 r3].
  intros [= <- <-]. done.
Qed.

(** A respawn of slot [i], when the body's group is in range. *)
Lemma respawn_at_defined app i b :
  app_bodies app !! i = Some b ->
  is_Some (group_config app (group b)) ->
  exists b' r',
    bubble_respawn_body app b = Some (b', r') /\
    respawn_at app i = Some (set_app_rng (set_app_bodies app (<[i := b']> (app_bodies app))) r').
Proof.
  intros Hi [cfg Hcfg]. unfold respawn_at. rewrite Hi.
  unfold bubble_respawn_body. rewrite Hcfg. cbn.
  destruct (rng_next_float01 (app_rng app)) as [u1 r1].
  destruct (rng_next_float01 r1) as [u2 r2].
  destruct (rng_next_float01 r2) as [u3 r3].
  eexists _, _. split; reflexivity.
Qed.

(** One iteration of the off-top loop never fails on an array whose groups
    are in range; it keeps the setup and that property, and touches slot [j]
    alone. *)
Lemma respawn_if_off_top_step app j :
  groups_ok app ->
  exists app',
    respawn_if_off_top app j = Some app' /\
    same_setup app app' /\ groups_ok app' /\
    forall i, i <> j -> app_bodies app' !! i = app_bodies app !! i.
Proof.
  intros Hok. unfold respawn_if_off_top.
  destruct (app_bodies app !! j) as [b|] eqn:Hj;
    [|exists app; eauto using same_setup_refl].
  destruct (_ <? _)%fl; [|exists app; eauto using same_setup_refl].
  destruct (respawn_at_defined app j b Hj (Hok j b Hj)) as (b' & r' & Hb' & ->).
  eexists. split; [reflexivity|]. split; [by unfold same_setup|]. split.
  - intros i bi. cbn. intros Hbi.
    destruct (decide (j = i)) as [->|Hne].
    + rewrite list_lookup_insert_eq in Hbi by (eapply lookup_lt_Some; eauto).
      injection Hbi as <-.
      destruct (respawn_clears_popped app b b' r' Hb') as (_ & _ & _ & Hg).
      unfold group_config in *. cbn. rewrite Hg. eauto.
    + rewrite list_lookup_insert_ne in Hbi by done.
      unfold group_config in *. cbn. eauto.
  - intros i Hne. cbn. by rewrite list_lookup_insert_ne.
Qed.

(** The iterations over indices other than [i] leave slot [i] alone. *)
Lemma respawn_off_top_others (l : list nat) app i :
  groups_ok app -> i ∉ l ->
  exists app',
    fold_left (fun acc j => acc ≫= fun a => respawn_if_off_top a j) l (Some app)
      = Some app' /\
    same_setup app app' /\ groups_ok app' /\
    app_bodies app' !! i = app_bodies app !! i.
Proof.
  revert app. induction l as [|j l IH]; intros app Hok Hi.
  - exists app. cbn. eauto using same_setup_refl.
  - apply not_elem_of_cons in Hi as [Hij Hil].
    destruct (respawn_if_off_top_step app j Hok) as (app1 & Hstep & Hset & Hok1 & Hslot).
    destruct (IH app1 Hok1 Hil) as (app2 & Hfold & Hset2 & Hok2 & Hslot2).
    exists app2. cbn [fold_left]. cbn [mbind option_bind]. rewrite Hstep, Hfold.
    split; [done|]. split; [eauto using same_setup_trans|]. split; [done|].
    rewrite Hslot2. by apply Hslot.
Qed.

(** The whole off-top pass on a body that is beyond the margin: its slot
    ends holding a respawned body. *)
Lemma respawn_off_top_slot app i b :
  groups_ok app ->
  app_bodies app !! i = Some b ->
  (i < app_body_count app)%nat ->
  (y b + radius b <? min_y (app_bounds app) - of_int 20)%fl = true ->
  exists app' app1 b' r',
    respawn_off_top app = Some app' /\
    same_setup app app1 /\ same_setup app app' /\
    bubble_respawn_body app1 b = Some (b', r') /\
    app_bodies app' !! i = Some b'.
Proof.
  intros Hok Hi Hlt Htest. unfold respawn_off_top, for_each_body.
  replace (seq 0 (app_body_count app))
    with (seq 0 i ++ i :: seq (S i) (app_body_count app - S i)).
  2:{ change (i :: seq (S i) (app_body_count app - S i))
        with (seq i (S (app_body_count app - S i))).
      rewrite <- seq_app. f_equal. lia. }
  rewrite fold_left_app. cbn [fold_left].
  destruct (respawn_off_top_others (seq 0 i) app i Hok) as (app1 & -> & Hset1 & Hok1 & Hslot1).
  { rewrite list_elem_of_In, in_seq. lia. }
  cbn [mbind option_bind]. rewrite Hi in Hslot1.
  destruct (respawn_at_defined app1 i b Hslot1 (Hok1 i b Hslot1)) as (b' & r' & Hb' & Hat).
  unfold respawn_if_off_top at 2. rewrite Hslot1.
  destruct Hset1 as (Hbd & Hgr & Hcnt). rewrite Hbd, Htest, Hat.
  set (app2 := set_app_rng _ _).
  assert (same_setup app app2) as Hset2 by (by unfold same_setup, app2).
  assert (groups_ok app2) as Hok2.
  { intros j bj. unfold app2. cbn. intros Hbj.
    destruct (decide (i = j)) as [->|Hne].
    - rewrite list_lookup_insert_eq in Hbj by (eapply lookup_lt_Some; eauto).
      injection Hbj as <-.
      destruct (respawn_clears_popped app1 b b' r' Hb') as (_ & _ & _ & Hg).
      specialize (Hok1 j b Hslot1). unfold group_config in *. cbn. by rewrite Hg.
    - rewrite list_lookup_insert_ne in Hbj by done.
      specialize (Hok1 j bj Hbj). unfold group_config in *. by cbn. }
  destruct (respawn_off_top_others (seq (S i) (app_body_count app - S i)) app2 i Hok2)
    as (app3 & Hfold & Hset3 & _ & Hslot3).
  { rewrite list_elem_of_In, in_seq. lia. }
  exists app3, app1, b', r'. rewrite Hfold.
  split; [done|]. split; [by unfold same_setup|].
  split; [eauto using same_setup_trans|]. split; [done|].
  rewrite Hslot3. unfold app2. cbn.
  apply list_lookup_insert_eq. eapply lookup_lt_Some; eauto.
Qed.

End Lifecycle.

(** * Binary32: the unit interval of the generator *)

Section Binary32Facts.

Import B32.

(** [digits2_pos p] is the number of binary digits of [p]. *)
Lemma digits2_pos_bounds (p : positive) :
  2 ^ (Z.pos (digits2_pos p) - 1) <= Z.pos p < 2 ^ Z.pos (digits2_pos p).
Proof.
  induction p as [p IH | p IH |]; cbn [digits2_pos].
  - rewrite Pos2Z.inj_succ.
    replace (Z.succ (Z.pos (digits2_pos p)) - 1) with (Z.succ (Z.pos (digits2_pos p) - 1)) by lia.
    rewrite !Z.pow_succ_r by lia. lia.
  - rewrite Pos2Z.inj_succ.
    replace (Z.succ (Z.pos (digits2_pos p)) - 1) with (Z.succ (Z.pos (digits2_pos p) - 1)) by lia.
    rewrite !Z.pow_succ_r by lia. lia.
  - cbn. lia.
Qed.

(** A number below [2^k] has at most [k] digits. *)
Lemma digits2_pos_le (p : positive) (k : Z) :
  0 <= k -> Z.pos p < 2 ^ k -> Z.pos (digits2_pos p) <= k.
Proof.
  intros Hk Hp. destruct (digits2_pos_bounds p) as [Hlo _].
  destruct (Z.le_gt_cases (Z.pos (digits2_pos p)) k) as [|Hgt]; [assumption|].
  exfalso. assert (2 ^ k <= 2 ^ (Z.pos (digits2_pos p) - 1)) by (apply Z.pow_le_mono_r; lia).
  lia.
Qed.

(** Shifting left by [k] adds [k] digits and multiplies by [2^k]. *)
Lemma iter_xO_digits (p k : positive) :
  digits2_pos (Pos.iter xO p k) = (digits2_pos p + k)%positive.
Proof.
  induction k as [|k IH] using Pos.peano_ind.
  - cbn. lia.
  - rewrite Pos.iter_succ. cbn [digits2_pos]. rewrite IH. lia.
Qed.

Lemma iter_xO_value (p k : positive) :
  Z.pos (Pos.iter xO p k) = Z.pos p * 2 ^ Z.pos k.
Proof.
  induction k as [|k IH] using Pos.peano_ind.
  - cbn. lia.
  - rewrite Pos.iter_succ, Pos2Z.inj_succ, Z.pow_succ_r by lia.
    rewrite Pos2Z.inj_xO, IH. lia.
Qed.

(** A mantissa of 24 digits with an exponent in range is left alone. *)
Lemma binary_round_aux_canonical (s : bool) (m : positive) (e : Z) :
  Z.pos (digits2_pos m) = 24 -> -149 <= e <= 104 ->
  binary_round_aux prec emax s (Z.pos m) e loc_Exact = S754_finite s m e.
Proof.
  intros Hd He. unfold binary_round_aux, shr_fexp, fexp, emin, prec, emax.
  cbn [Zdigits2 shr_record_of_loc]. rewrite Hd.
  replace (Z.max (24 + e - 24) (3 - 128 - 24) - e) with 0 by lia.
  cbn [shr shr_m loc_of_shr_record round_nearest_even Zdigits2 shr_record_of_loc].
  rewrite Hd.
  replace (Z.max (24 + e - 24) (3 - 128 - 24) - e) with 0 by lia.
  cbn [shr shr_m].
  replace (e <=? 128 - 24) with true by (symmetry; apply Z.leb_le; lia).
  reflexivity.
Qed.

Lemma norm_mant_digits (p : positive) :
  Z.pos p < 2 ^ 24 -> Z.pos (digits2_pos (norm_mant p)) = 24.
Proof.
  intros Hp. pose proof (digits2_pos_le p 24 ltac:(lia) Hp) as Hd.
  unfold norm_mant. destruct (Z.pos (digits2_pos p) - 24) as [|k|k] eqn:E; try lia.
  rewrite iter_xO_digits. lia.
Qed.

Lemma norm_mant_value (p : positive) :
  Z.pos p < 2 ^ 24 ->
  Z.pos (norm_mant p) = Z.pos p * 2 ^ (24 - Z.pos (digits2_pos p)).
Proof.
  intros Hp. pose proof (digits2_pos_le p 24 ltac:(lia) Hp) as Hd.
  unfold norm_mant. destruct (Z.pos (digits2_pos p) - 24) as [|k|k] eqn:E; try lia.
  - replace (24 - Z.pos (digits2_pos p)) with 0 by lia. lia.
  - rewrite iter_xO_value. f_equal. f_equal. lia.
Qed.

(** The conversion of a positive integer below [2^24] is exact. *)
Lemma of_Z_pos (p : positive) :
  Z.pos p < 2 ^ 24 ->
  of_Z (Z.pos p) = S754_finite false (norm_mant p) (Z.pos (digits2_pos p) - 24).
Proof.
  intros Hp. pose proof (digits2_pos_le p 24 ltac:(lia) Hp) as Hd.
  pose proof (norm_mant_digits p Hp) as Hn.
  unfold of_Z, binary_normalize, binary_round, shl_align, fexp, emin, prec, emax.
  replace (Z.max (Z.pos (digits2_pos p) + 0 - 24) (3 - 128 - 24) - 0)
    with (Z.pos (digits2_pos p) - 24) by lia.
  replace (Z.max (Z.pos (digits2_pos p) + 0 - 24) (3 - 128 - 24))
    with (Z.pos (digits2_pos p) - 24) by lia.
  unfold norm_mant in *.
  destruct (Z.pos (digits2_pos p) - 24) as [|k|k] eqn:E; try lia.
  - apply (binary_round_aux_canonical false p 0); [exact Hn | lia].
  - apply (binary_round_aux_canonical false _ (Z.neg k)); [exact Hn | lia].
Qed.

(** [m * 2^24] divided by [2^23] is [2 * m], with no remainder. *)
Lemma div_eucl_shift (m : positive) :
  Z.div_eucl (Z.shiftl (Z.pos m) 24) 8388608 = (Z.pos m~0, 0).
Proof.
  rewrite Z.shiftl_mul_pow2 by lia.
  pose proof (Z.div_eucl_eq (Z.pos m * 2 ^ 24) 8388608 ltac:(lia)) as Heq.
  pose proof (Z.mod_pos_bound (Z.pos m * 2 ^ 24) 8388608 ltac:(lia)) as Hb.
  unfold Z.modulo in Hb.
  destruct (Z.div_eucl (Z.pos m * 2 ^ 24) 8388608) as [q r].
  change (2 ^ 24) with (8388608 * 2) in Heq.
  assert (q = Z.pos m~0 /\ r = 0) as [-> ->] by lia. reflexivity.
Qed.

(** Dividing a normalised 24-bit float by [2^24] only moves the exponent. *)
Lemma SFdiv_pow24 (m : positive) (e : Z) :
  Z.pos (digits2_pos m) = 24 -> -23 <= e <= 0 ->
  SFdiv prec emax (S754_finite false m e) (of_Z 16777216) = S754_finite false m (e - 24).
Proof.
  intros Hd He. change (of_Z 16777216) with (S754_finite false 8388608 1).
  unfold SFdiv, SFdiv_core_binary, fexp, emin, prec, emax.
  cbn [Zdigits2 xorb]. rewrite Hd.
  change (Z.pos (digits2_pos 8388608)) with 24.
  replace (Z.min (Z.max (24 + e - (24 + 1) - 24) (3 - 128 - 24)) (e - 1)) with (e - 25) by lia.
  replace (e - 1 - (e - 25)) with 24 by lia.
  rewrite div_eucl_shift.
  change (new_location 8388608 0) with loc_Exact.
  unfold binary_round_aux, shr_fexp, fexp, emin.
  cbn [Zdigits2 digits2_pos shr_record_of_loc]. rewrite Pos2Z.inj_succ, Hd.
  replace (Z.max (Z.succ 24 + (e - 25) - 24) (3 - 128 - 24) - (e - 25)) with 1 by lia.
  cbn [shr SpecFloat.iter_pos shr_1 shr_m shr_r shr_s orb loc_of_shr_record round_nearest_even Zdigits2 shr_record_of_loc].
  rewrite Hd.
  replace (Z.max (24 + (e - 25 + 1) - 24) (3 - 128 - 24) - (e - 25 + 1)) with 0 by lia.
  cbn [shr shr_m].
  replace (e - 25 + 1 <=? 128 - 24) with true by (symmetry; apply Z.leb_le; lia).
  f_equal. lia.
Qed.

(** The float [rng_next_float01] returns for the masked integer [p]. *)
Lemma float01_of_pos (p : positive) :
  Z.pos p < 2 ^ 24 ->
  SFdiv prec emax (of_Z (Z.pos p)) (of_Z 16777216)
  = S754_finite false (norm_mant p) (Z.pos (digits2_pos p) - 48).
Proof.
  intros Hp. pose proof (digits2_pos_le p 24 ltac:(lia) Hp) as Hd.
  rewrite (of_Z_pos p Hp), SFdiv_pow24.
  - f_equal. lia.
  - exact (norm_mant_digits p Hp).
  - pose proof (Pos2Z.is_pos (digits2_pos p)). lia.
Qed.

(** The mask [0x00FFFFFF] keeps 24 bits. *)
Lemma land_mask_bounds (v : Z) : 0 <= Z.land v 0x00FFFFFF < 2 ^ 24.
Proof.
  change 0x00FFFFFF with (Z.ones 24). rewrite Z.land_ones by lia.
  apply Z.mod_pos_bound. lia.
Qed.

(** The quotient of a 24-bit integer by [2^24] is computed without
    rounding and lies in [0, 1). *)
Lemma unit_quotient (n : Z) :
  0 <= n < 2 ^ 24 ->
  let u := SFdiv prec emax (of_Z n) (of_Z 16777216) in
  (exists q, to_Q u = Some q /\ (q == n # 16777216)%Q) /\
  SFleb (of_Z 0) u = true /\ SFltb u (of_Z 1) = true.
Proof.
  intros Hn. destruct n as [|p|p]; [| |lia].
  - cbn. split; [|done]. exists 0%Q. split; [done|reflexivity].
  - cbv zeta. rewrite (float01_of_pos p) by lia.
    pose proof (digits2_pos_le p 24 ltac:(lia) ltac:(lia)) as Hd.
    pose proof (Pos2Z.is_pos (digits2_pos p)) as Hd0.
    split; [|split].
    + unfold to_Q.
      replace (0 <=? Z.pos (digits2_pos p) - 48) with false
        by (symmetry; apply Z.leb_gt; lia).
      eexists; split; [reflexivity|].
      unfold Qeq. cbn [Qnum Qden].
      rewrite Z2Pos.id by (apply Z.pow_pos_nonneg; lia).
      rewrite norm_mant_value by lia.
      replace (- (Z.pos (digits2_pos p) - 48)) with (24 - Z.pos (digits2_pos p) + 24) by lia.
      rewrite Z.pow_add_r by lia. change (Z.pos 16777216) with (2 ^ 24). lia.
    + reflexivity.
    + change (of_Z 1) with (S754_finite false 8388608 (-23)).
      unfold SFltb, SFcompare.
      destruct (Z.compare_spec (Z.pos (digits2_pos p) - 48) (-23)); (done || lia).
Qed.

End Binary32Facts.

(** * Binary32: order and rounding

    The comparisons and the rounding of [SpecFloat], seen through [ord]: what
    the lifecycle properties need of [float] arithmetic. *)

Section Binary32Order.

Import B32.

Lemma fexp_eq (x : Z) : fexp prec emax x = Z.max (x - 24) (-149).
Proof. reflexivity. Qed.

(** What it takes for a mantissa and an exponent to be a binary32 number. *)
Lemma valid_finite (s : bool) (m : positive) (e : Z) :
  valid (S754_finite s m e) = true <->
  -149 <= e <= 104 /\ Z.pos m < 2 ^ 24 /\ (-149 < e -> 2 ^ 23 <= Z.pos m).
Proof.
  unfold valid. cbn [valid_binary]. unfold SpecFloat.bounded, SpecFloat.canonical_mantissa.
  rewrite andb_true_iff, fexp_eq, Z.leb_le. change (emax - prec) with 104.
  pose proof (digits2_pos_bounds m) as [Hlo Hhi].
  set (d := Z.pos (digits2_pos m)) in *.
  assert (0 < d) as Hd by (unfold d; lia).
  split.
  - intros [Hc He]. apply Z.eqb_eq in Hc.
    assert (d <= 24) as Hd24 by lia.
    split; [lia|]. split.
    + apply Z.lt_le_trans with (2 ^ d); [lia|]. apply Z.pow_le_mono_r; lia.
    + intros Hn. assert (d = 24) as Hd' by lia. rewrite Hd' in Hlo. exact Hlo.
  - intros (He & Hm & Hn).
    assert (d <= 24) as Hd24.
    { destruct (Z.le_gt_cases d 24) as [|Hgt]; [done|]. exfalso.
      assert (2 ^ 24 <= 2 ^ (d - 1)) by (apply Z.pow_le_mono_r; lia). lia. }
    split; [|lia]. apply Z.eqb_eq.
    destruct (Z.eq_dec e (-149)) as [->|Hne]; [lia|].
    assert (d = 24); [|lia].
    destruct (Z.eq_dec d 24) as [|Hd']; [done|]. exfalso.
    assert (2 ^ d <= 2 ^ 23) by (apply Z.pow_le_mono_r; lia). lia.
Qed.

Lemma ord_finite_bound (s : bool) (m : positive) (e : Z) :
  valid (S754_finite s m e) = true ->
  0 < Z.pos m * 2 ^ (e + 149) < 2 ^ 277.
Proof.
  intros H. apply valid_finite in H as (He & Hm & _).
  assert (0 < 2 ^ (e + 149)) by (apply Z.pow_pos_nonneg; lia).
  split; [lia|].
  apply Z.lt_le_trans with (2 ^ 24 * 2 ^ (e + 149)); [nia|].
  rewrite <- Z.pow_add_r by lia. apply Z.pow_le_mono_r; lia.
Qed.

(** Two binary32 numbers of the same sign compare as their exponents, then
    their mantissas. *)
Lemma finite_compare (m1 m2 : positive) (e1 e2 : Z) :
  valid (S754_finite false m1 e1) = true -> valid (S754_finite false m2 e2) = true ->
  match e1 ?= e2 with
  | Lt => Lt | Gt => Gt | Eq => Pos.compare_cont Eq m1 m2
  end = (Z.pos m1 * 2 ^ (e1 + 149) ?= Z.pos m2 * 2 ^ (e2 + 149)).
Proof.
  intros H1 H2. apply valid_finite in H1 as (He1 & Hm1 & Hn1).
  apply valid_finite in H2 as (He2 & Hm2 & Hn2).
  assert (forall ma mb ea eb, -149 <= ea -> ea < eb ->
            Z.pos ma < 2 ^ 24 -> 2 ^ 23 <= Z.pos mb ->
            Z.pos ma * 2 ^ (ea + 149) < Z.pos mb * 2 ^ (eb + 149)) as Hlt.
  { intros ma mb ea eb Ha Hab Hma Hmb.
    assert (0 < 2 ^ (ea + 149)) by (apply Z.pow_pos_nonneg; lia).
    assert (0 < 2 ^ (eb + 149)) by (apply Z.pow_pos_nonneg; lia).
    apply Z.lt_le_trans with (2 ^ 24 * 2 ^ (ea + 149)); [nia|].
    apply Z.le_trans with (2 ^ 23 * 2 ^ (eb + 149)); [|nia].
    rewrite <- !Z.pow_add_r by lia. apply Z.pow_le_mono_r; lia. }
  destruct (e1 ?= e2) eqn:E.
  - apply Z.compare_eq in E. subst e2.
    assert (0 < 2 ^ (e1 + 149)) by (apply Z.pow_pos_nonneg; lia).
    change (Pos.compare_cont Eq m1 m2) with (Z.pos m1 ?= Z.pos m2).
    destruct (Z.pos m1 ?= Z.pos m2) eqn:Em; symmetry.
    + apply Z.compare_eq in Em. rewrite Em. apply Z.compare_refl.
    + apply Z.compare_lt_iff. apply Z.compare_lt_iff in Em.
      by apply Z.mul_lt_mono_pos_r.
    + apply Z.compare_gt_iff. apply Z.compare_gt_iff in Em.
      by apply Z.mul_lt_mono_pos_r.
  - rewrite Z.compare_lt_iff in E. symmetry. apply Z.compare_lt_iff.
    apply Hlt; lia.
  - rewrite Z.compare_gt_iff in E. symmetry. apply Z.compare_gt_iff.
    apply Hlt; lia.
Qed.

(** On binary32 numbers the comparison of C is the comparison of the values. *)
Lemma SFcompare_ord (f g : spec_float) :
  valid f = true -> valid g = true -> is_nan f = false -> is_nan g = false ->
  SFcompare f g = Some (ord f ?= ord g).
Proof.
  intros Hf Hg Hnf Hng.
  assert (0 < 2 ^ 277) as Hbig by (by apply Z.pow_pos_nonneg).
  destruct f as [sf|sf| |sf mf ef], g as [sg|sg| |sg mg eg]; try discriminate;
    cbn [SFcompare ord];
    try pose proof (ord_finite_bound _ _ _ Hf) as Bf;
    try pose proof (ord_finite_bound _ _ _ Hg) as Bg.
  9:{ destruct sf, sg; f_equal.
      - assert (valid (S754_finite false mf ef) = true) as Hf' by exact Hf.
        assert (valid (S754_finite false mg eg) = true) as Hg' by exact Hg.
        rewrite Z.compare_opp. rewrite <- (finite_compare mg mf eg ef Hg' Hf').
        rewrite (Z.compare_antisym eg ef).
        assert (Pos.compare_cont Eq mg mf = CompOpp (Pos.compare_cont Eq mf mg)) as ->
          by (by rewrite Pos.compare_cont_antisym).
        by destruct (eg ?= ef).
      - symmetry. apply Z.compare_lt_iff. lia.
      - symmetry. apply Z.compare_gt_iff. lia.
      - by apply finite_compare. }
  all: try destruct sf; try destruct sg; f_equal; symmetry;
    first [apply Z.compare_refl|apply Z.compare_lt_iff; lia|apply Z.compare_gt_iff; lia].
Qed.

Lemma SFleb_ord (f g : spec_float) :
  valid f = true -> valid g = true -> is_nan f = false -> is_nan g = false ->
  SFleb f g = true <-> ord f <= ord g.
Proof.
  intros Hf Hg Hnf Hng. unfold SFleb. rewrite SFcompare_ord by done.
  destruct (ord f ?= ord g) eqn:E.
  - apply Z.compare_eq in E. split; [lia|done].
  - rewrite Z.compare_lt_iff in E. split; [lia|done].
  - rewrite Z.compare_gt_iff in E. split; [done|lia].
Qed.

Lemma SFltb_ord (f g : spec_float) :
  valid f = true -> valid g = true -> is_nan f = false -> is_nan g = false ->
  SFltb f g = true <-> ord f < ord g.
Proof.
  intros Hf Hg Hnf Hng. unfold SFltb. rewrite SFcompare_ord by done.
  destruct (ord f ?= ord g) eqn:E.
  - apply Z.compare_eq in E. split; [done|lia].
  - rewrite Z.compare_lt_iff in E. split; [done|lia].
  - rewrite Z.compare_gt_iff in E. split; [done|lia].
Qed.

End Binary32Order.

Section Binary32Rounding.

Import B32.

(** [iter_pos f p] applies [f] [p] times. *)
Lemma iter_pos_count {A : Type} (P : Z -> A -> Prop) (f : A -> A) :
  (forall k a, 0 <= k -> P k a -> P (k + 1) (f a)) ->
  forall p a k, 0 <= k -> P k a -> P (k + Z.pos p) (SpecFloat.iter_pos f p a).
Proof.
  intros Hf. induction p as [p IH|p IH|]; intros a k Hk Ha; cbn [SpecFloat.iter_pos].
  - replace (k + Z.pos p~1) with (k + 1 + Z.pos p + Z.pos p) by lia.
    apply IH; [lia|]. apply IH; [lia|]. by apply Hf.
  - replace (k + Z.pos p~0) with (k + Z.pos p + Z.pos p) by lia.
    apply IH; [lia|]. by apply IH.
  - by apply Hf.
Qed.

Lemma shr_1_shifted (m0 k : Z) (mrs : shr_record) :
  0 <= m0 -> 0 <= k -> shifted m0 k mrs -> shifted m0 (k + 1) (shr_1 mrs).
Proof.
  intros Hm Hk (Hq & Hr & Hs).
  assert (0 < 2 ^ k) as Hpow by (by apply Z.pow_pos_nonneg).
  assert (2 ^ (k + 1) = 2 * 2 ^ k) as Hp1 by (rewrite Z.pow_add_r by lia; lia).
  assert (m0 / 2 ^ (k + 1) = m0 / 2 ^ k / 2) as Hdiv
    by (rewrite Z.pow_add_r, Z.div_div by lia; done).
  assert (m0 mod 2 ^ (k + 1) = m0 mod 2 ^ k + 2 ^ k * ((m0 / 2 ^ k) mod 2)) as Hmod
    by (rewrite Z.pow_add_r by lia; apply Z.rem_mul_r; lia).
  assert ((2 * m0) mod 2 ^ (k + 1) = 2 * (m0 mod 2 ^ k)) as Hmod2
    by (rewrite Hp1; apply Z.mul_mod_distr_l; lia).
  assert ((2 * m0) mod 2 ^ k = (2 * (m0 mod 2 ^ k)) mod 2 ^ k) as Hmod3.
  { rewrite (Z.div_mod m0 (2 ^ k)) at 1 by lia.
    replace (2 * (2 ^ k * (m0 / 2 ^ k) + m0 mod 2 ^ k))
      with (2 * (m0 mod 2 ^ k) + (2 * (m0 / 2 ^ k)) * 2 ^ k) by ring.
    apply Z.mod_add. lia. }
  pose proof (Z.mod_pos_bound m0 (2 ^ k) Hpow) as Hrem.
  assert (0 <= m0 / 2 ^ k) as Hq0 by (apply Z.div_pos; lia).
  destruct mrs as [m r s]. cbn [shr_m shr_r shr_s] in *. subst m.
  unfold shifted. rewrite Hdiv, Hmod, Hmod2, Hp1. rewrite Hmod3 in Hs.
  set (q := m0 / 2 ^ k) in *. set (t := m0 mod 2 ^ k) in *.
  clearbody q t. clear Hdiv Hmod Hmod2 Hmod3.
  (* something was lost so far: the old bits *)
  assert (r || s = true <-> 2 * t <> 0) as Hsticky.
  { rewrite orb_true_iff, Hr, Hs. split.
    - intros [H|H]; [lia|]. intros H0. rewrite H0 in H. by apply H.
    - intros H. destruct (Z.le_gt_cases (2 ^ k) (2 * t)) as [|Hlt]; [by left|right].
      rewrite Z.mod_small by lia. done. }
  destruct q as [|[p|p|]|p]; cbn [shr_1 shr_m shr_r shr_s]; try lia.
  - change (0 mod 2) with 0. split; [done|]. split; [|done]. split; [done|lia].
  - replace (Z.pos p~1 mod 2) with 1 by (apply (Z.mod_unique _ 2 (Z.pos p)); lia).
    split; [apply (Z.div_unique _ 2 _ 1); lia|]. split; [|done]. split; [lia|done].
  - replace (Z.pos p~0 mod 2) with 0 by (apply (Z.mod_unique _ 2 (Z.pos p)); lia).
    split; [apply (Z.div_unique _ 2 _ 0); lia|]. split; [|done]. split; [done|lia].
  - change (1 mod 2) with 1. split; [done|]. split; [|done]. split; [lia|done].
Qed.

Lemma shr_shifted (m e n : Z) :
  0 <= m ->
  let k := Z.max n 0 in
  exists mrs,
    shr (shr_record_of_loc m loc_Exact) e n = (mrs, e + k) /\ shifted m k mrs.
Proof.
  intros Hm. cbv zeta.
  assert (shifted m 0 (shr_record_of_loc m loc_Exact)) as H0.
  { split; cbn; [by rewrite Z.div_1_r|]. rewrite !Z.mod_1_r.
    split; (split; [done|lia]). }
  destruct n as [|p|p]; cbn [shr Z.max Z.compare].
  - eexists. split; [f_equal; lia|exact H0].
  - eexists. split; [reflexivity|].
    apply (iter_pos_count (shifted m) shr_1 (fun k a Hk => shr_1_shifted m k a Hm Hk)
             p _ 0 ltac:(lia) H0).
  - eexists. split; [f_equal; lia|exact H0].
Qed.

Lemma shr_fexp_shifted (m e : Z) :
  0 <= m ->
  let k := Z.max (fexp prec emax (Zdigits2 m + e) - e) 0 in
  exists mrs, shr_fexp prec emax m e loc_Exact = (mrs, e + k) /\ shifted m k mrs.
Proof. intros Hm. unfold shr_fexp. by apply shr_shifted. Qed.

(** What [SpecFloat] rounds a shifted mantissa to. *)
Lemma round_shifted (m0 k : Z) (mrs : shr_record) :
  0 <= m0 -> 0 <= k -> shifted m0 k mrs ->
  round_nearest_even (shr_m mrs) (loc_of_shr_record mrs) = rne m0 k.
Proof.
  intros Hm Hk (Hq & Hr & Hs).
  assert (0 < 2 ^ k) as Hpow by (by apply Z.pow_pos_nonneg).
  pose proof (Z.mod_pos_bound m0 (2 ^ k) Hpow) as Hrem.
  assert ((2 * m0) mod 2 ^ k = (2 * (m0 mod 2 ^ k)) mod 2 ^ k) as Hmod3.
  { rewrite (Z.div_mod m0 (2 ^ k)) at 1 by lia.
    replace (2 * (2 ^ k * (m0 / 2 ^ k) + m0 mod 2 ^ k))
      with (2 * (m0 mod 2 ^ k) + (2 * (m0 / 2 ^ k)) * 2 ^ k) by ring.
    apply Z.mod_add. lia. }
  rewrite Hmod3 in Hs. unfold rne. rewrite <- Hq.
  set (t := m0 mod 2 ^ k) in *.
  destruct mrs as [m [] []]; cbn [shr_m shr_r shr_s loc_of_shr_record round_nearest_even] in *.
  - (* more than half *)
    assert (2 ^ k <= 2 * t) as H1 by (by apply Hr).
    assert (2 * t <> 2 ^ k) as H2.
    { intros Heq. rewrite Heq, Z.mod_same in Hs by lia. by apply Hs. }
    replace (2 * t ?= 2 ^ k) with Gt by (symmetry; apply Z.compare_gt_iff; lia). done.
  - (* a tie *)
    assert (2 ^ k <= 2 * t) as H1 by (by apply Hr).
    assert (2 * t = 2 ^ k) as ->; [|by rewrite Z.compare_refl].
    destruct (Z.eq_dec (2 * t) (2 ^ k)) as [|Hne]; [done|]. exfalso.
    assert ((2 * t) mod 2 ^ k = 2 * t - 2 ^ k) as Hmd.
    { symmetry. apply (Z.mod_unique _ _ 1); lia. }
    rewrite Hmd in Hs. assert (false = true) as Ht by (apply Hs; lia). done.
  - replace (2 * t ?= 2 ^ k) with Lt; [done|]. symmetry. apply Z.compare_lt_iff.
    destruct (Z.le_gt_cases (2 ^ k) (2 * t)) as [H|]; [|done]. by apply Hr in H.
  - replace (2 * t ?= 2 ^ k) with Lt; [done|]. symmetry. apply Z.compare_lt_iff.
    destruct (Z.le_gt_cases (2 ^ k) (2 * t)) as [H|]; [|done]. by apply Hr in H.
Qed.

Lemma rne_bounds (m n : Z) :
  m / 2 ^ n <= rne m n <= m / 2 ^ n + 1 /\
  (m mod 2 ^ n = 0 -> 0 <= n -> rne m n = m / 2 ^ n) /\
  (2 * (m mod 2 ^ n) < 2 ^ n -> rne m n = m / 2 ^ n).
Proof.
  unfold rne. split; [|split].
  - destruct (_ ?= _); [destruct (Z.even _)| |]; lia.
  - intros -> Hn. assert (0 < 2 ^ n) as Hp by (by apply Z.pow_pos_nonneg).
    assert ((2 * 0 ?= 2 ^ n) = Lt) as -> by (apply Z.compare_lt_iff; lia). done.
  - intros H. apply Z.compare_lt_iff in H. by rewrite H.
Qed.

(** What [binary_round_aux] returns for a positive mantissa whose exponent
    is at or below the one the format gives it: the mantissa shifted right
    to that exponent is kept or increased by one, and what comes out is a
    binary32 number or an infinity. *)
Lemma round_spec (s : bool) (mz : positive) (ez : Z) :
  let e1 := fexp prec emax (Z.pos (digits2_pos mz) + ez) in
  let n := e1 - ez in
  0 <= n ->
  let r := binary_round_aux prec emax s (Z.pos mz) ez loc_Exact in
  valid r = true /\ is_nan r = false /\
  ord r = let v := Z.min (rne (Z.pos mz) n * 2 ^ (e1 + 149)) (2 ^ 277) in
          if s then - v else v.
Proof.
  intros e1 n Hn r. subst r. unfold binary_round_aux.
  destruct (shr_fexp_shifted (Z.pos mz) ez ltac:(lia)) as (mrs1 & -> & Hsh1).
  cbn [Zdigits2] in Hsh1 |- *. fold e1 in Hsh1 |- *. fold n in Hsh1 |- *.
  rewrite Z.max_l in Hsh1 |- * by lia.
  replace (ez + n) with e1 by (unfold n; lia).
  rewrite (round_shifted (Z.pos mz) n mrs1 ltac:(lia) Hn Hsh1).
  pose proof (rne_bounds (Z.pos mz) n) as (Hm2 & _).
  set (m1 := Z.pos mz / 2 ^ n) in *.
  set (m2 := rne (Z.pos mz) n) in *.
  pose proof (digits2_pos_bounds mz) as [Hdlo Hdhi].
  set (d := Z.pos (digits2_pos mz)) in *.
  assert (0 < d) as Hd by (unfold d; lia).
  assert (-149 <= e1) as He1 by (unfold e1; rewrite fexp_eq; lia).
  assert (d - 24 <= n) as Hn24 by (unfold n, e1; rewrite fexp_eq; lia).
  assert (0 < 2 ^ n) as Hpn by (by apply Z.pow_pos_nonneg).
  assert (0 <= m1) as Hm10 by (apply Z.div_pos; lia).
  assert (m1 < 2 ^ 24) as Hm1hi.
  { apply Z.div_lt_upper_bound; [done|].
    apply Z.lt_le_trans with (2 ^ d); [done|].
    rewrite <- Z.pow_add_r by lia. apply Z.pow_le_mono_r; lia. }
  assert (-149 < e1 -> 2 ^ 23 <= m1) as Hm1lo.
  { intros Hgt. assert (n = d - 24) as Hnd by (unfold n, e1 in *; rewrite fexp_eq in *; lia).
    apply Z.div_le_lower_bound; [done|]. rewrite Z.mul_comm, <- Z.pow_add_r by lia.
    replace (23 + n) with (d - 1) by lia. done. }
  destruct (shr_fexp_shifted m2 e1 ltac:(lia)) as (mrs2 & -> & Hq2 & _).
  rewrite Hq2.
  assert (0 < 2 ^ (e1 + 149)) as Hp1 by (apply Z.pow_pos_nonneg; lia).
  assert (0 < 2 ^ 277) as Hbig by (by apply Z.pow_pos_nonneg).
  destruct m2 as [|p2|p2] eqn:Em2; [| |lia].
  - (* the mantissa has vanished *)
    cbn [Zdigits2]. rewrite fexp_eq.
    replace (Z.max (Z.max (0 + e1 - 24) (-149) - e1) 0) with 0 by lia.
    change (0 / 2 ^ 0) with 0. cbv iota.
    split; [done|]. split; [done|]. cbn [ord]. rewrite Z.mul_0_l, Z.min_l by lia.
    by destruct s.
  - cbn [Zdigits2]. rewrite fexp_eq.
    pose proof (digits2_pos_bounds p2) as [Hplo Hphi].
    set (d2 := Z.pos (digits2_pos p2)) in *.
    assert (0 < d2) as Hd2 by (unfold d2; lia).
    destruct (Z.eq_dec (Z.pos p2) (2 ^ 24)) as [Hcarry|Hnc].
    + (* the increment has carried into a 25th digit *)
      assert (d2 = 25) as Hd25.
      { assert (d2 <= 25) by (apply digits2_pos_le; [lia|rewrite Hcarry; done]).
        destruct (Z.eq_dec d2 25) as [|Hne]; [done|]. exfalso.
        assert (2 ^ d2 <= 2 ^ 24) by (apply Z.pow_le_mono_r; lia). lia. }
      rewrite Hd25.
      replace (Z.max (Z.max (25 + e1 - 24) (-149) - e1) 0) with 1 by lia.
      rewrite Hcarry. change (2 ^ 24 / 2 ^ 1) with (Z.pos 8388608). cbv iota.
      change (emax - prec) with 104.
      destruct (e1 + 1 <=? 104) eqn:El.
      * apply Z.leb_le in El. split; [apply valid_finite; lia|]. split; [done|].
        cbn [ord]. replace (e1 + 1 + 149) with (1 + (e1 + 149)) by lia.
        rewrite Z.pow_add_r by lia. change (Z.pos 8388608 * (2 ^ 1 * 2 ^ (e1 + 149)))
          with (8388608 * (2 * 2 ^ (e1 + 149))).
        assert (2 ^ 24 * 2 ^ (e1 + 149) < 2 ^ 277).
        { rewrite <- Z.pow_add_r by lia. apply Z.pow_lt_mono_r; lia. }
        rewrite Z.min_l by lia. change (2 ^ 24) with 16777216. by destruct s; lia.
      * apply Z.leb_gt in El. split; [done|]. split; [done|]. cbn [ord].
        assert (2 ^ 277 <= 2 ^ 24 * 2 ^ (e1 + 149)).
        { rewrite <- Z.pow_add_r by lia. apply Z.pow_le_mono_r; lia. }
        rewrite Z.min_r by lia. done.
    + assert (Z.pos p2 < 2 ^ 24) as Hp24 by lia.
      assert (d2 <= 24) as Hd24 by (by apply digits2_pos_le).
      replace (Z.max (Z.max (d2 + e1 - 24) (-149) - e1) 0) with 0 by lia.
      rewrite Z.pow_0_r, Z.div_1_r. cbv iota. change (emax - prec) with 104.
      replace (e1 + 0) with e1 by lia.
      destruct (e1 <=? 104) eqn:El.
      * apply Z.leb_le in El.
        assert (valid (S754_finite s p2 e1) = true) as Hv by (apply valid_finite; lia).
        split; [done|]. split; [done|]. cbn [ord].
        pose proof (ord_finite_bound s p2 e1 Hv). rewrite Z.min_l by lia. done.
      * apply Z.leb_gt in El. split; [done|]. split; [done|]. cbn [ord].
        assert (2 ^ 277 <= Z.pos p2 * 2 ^ (e1 + 149)).
        { apply Z.le_trans with (2 ^ 23 * 2 ^ (e1 + 149)); [|nia].
          rewrite <- Z.pow_add_r by lia. apply Z.pow_le_mono_r; lia. }
        rewrite Z.min_r by lia. done.
Qed.

(** The shifted mantissa has at most 24 digits, and exactly 24 above the
    smallest exponent. *)
Lemma round_mantissa_bounds (mz : positive) (ez : Z) :
  let e1 := fexp prec emax (Z.pos (digits2_pos mz) + ez) in
  let n := e1 - ez in
  0 <= n ->
  let m1 := Z.pos mz / 2 ^ n in
  -149 <= e1 /\ 0 <= m1 < 2 ^ 24 /\ (-149 < e1 -> 2 ^ 23 <= m1) /\
  m1 * 2 ^ n <= Z.pos mz < (m1 + 1) * 2 ^ n.
Proof.
  intros e1 n Hn m1.
  pose proof (digits2_pos_bounds mz) as [Hdlo Hdhi].
  set (d := Z.pos (digits2_pos mz)) in *.
  assert (0 < d) as Hd by (unfold d; lia).
  assert (-149 <= e1) as He1 by (unfold e1; rewrite fexp_eq; lia).
  assert (d - 24 <= n) as Hn24 by (unfold n, e1; rewrite fexp_eq; lia).
  assert (0 < 2 ^ n) as Hpn by (by apply Z.pow_pos_nonneg).
  split; [done|]. split; [split|split].
  - apply Z.div_pos; lia.
  - apply Z.div_lt_upper_bound; [done|].
    apply Z.lt_le_trans with (2 ^ d); [done|].
    rewrite <- Z.pow_add_r by lia. apply Z.pow_le_mono_r; lia.
  - intros Hgt. assert (n = d - 24) as Hnd by (unfold n, e1 in *; rewrite fexp_eq in *; lia).
    apply Z.div_le_lower_bound; [done|]. rewrite Z.mul_comm, <- Z.pow_add_r by lia.
    replace (23 + n) with (d - 1) by lia. done.
  - pose proof (Z.div_mod (Z.pos mz) (2 ^ n) ltac:(lia)) as Hdm.
    pose proof (Z.mod_pos_bound (Z.pos mz) (2 ^ n) Hpn) as Hmb.
    fold m1 in Hdm. lia.
Qed.

Lemma pow_split (a b : Z) : 0 <= a <= b -> 2 ^ b = 2 ^ (b - a) * 2 ^ a.
Proof. intros H. rewrite <- Z.pow_add_r by lia. f_equal. lia. Qed.

(** A positive number of the format with exponent [Ec] against the grid of
    exponent [E]: it is on the grid, or below the grid's first point with 24
    digits, and so is its successor. *)
Lemma grid_cases (mc Ec m1 E : Z) :
  0 <= Ec -> 0 <= E -> 0 < mc < 2 ^ 24 ->
  (0 < E -> 2 ^ 23 <= m1) ->
  (E <= Ec /\ 2 ^ Ec = 2 ^ (Ec - E) * 2 ^ E) \/
  (Ec < E /\ (mc + 1) * 2 ^ Ec <= m1 * 2 ^ E).
Proof.
  intros HEc HE Hmc Hm1. destruct (Z.le_gt_cases E Ec) as [Hle|Hgt].
  - left. split; [done|]. apply pow_split. lia.
  - right. split; [done|]. specialize (Hm1 ltac:(lia)).
    rewrite (pow_split Ec E) by lia.
    assert (2 ^ 1 <= 2 ^ (E - Ec)) as Hp by (apply Z.pow_le_mono_r; lia).
    change (2 ^ 1) with 2 in Hp.
    assert (0 < 2 ^ Ec) as HpE by (by apply Z.pow_pos_nonneg).
    change (2 ^ 23) with 8388608 in Hm1. change (2 ^ 24) with 16777216 in Hmc.
    set (t := 2 ^ (E - Ec)) in *. set (g := 2 ^ Ec) in *. clearbody t g.
    assert (16777216 <= m1 * t) as Hmt by nia.
    assert (16777216 * g <= m1 * t * g) by (apply Z.mul_le_mono_nonneg_r; lia).
    assert ((mc + 1) * g <= 16777216 * g) by (apply Z.mul_le_mono_nonneg_r; lia).
    lia.
Qed.

(** The magnitude [binary_round_aux] returns for the positive number
    [mz * 2^ez]: a binary32 number or an infinity, between the numbers of
    the format below [mz * 2^ez] and those above it, and not above a number
    of the format that [mz * 2^ez] is less than half a unit away from. *)
Lemma round_mag (s : bool) (mz : positive) (ez : Z) :
  let e1 := fexp prec emax (Z.pos (digits2_pos mz) + ez) in
  let n := e1 - ez in
  0 <= n ->
  let r := binary_round_aux prec emax s (Z.pos mz) ez loc_Exact in
  let V := Z.pos mz * 2 ^ (e1 + 149) in
  exists v,
    valid r = true /\ is_nan r = false /\ ord r = (if s then - v else v) /\
    0 <= v <= 2 ^ 277 /\
    (forall c, valid c = true -> is_finite c = true -> 0 <= ord c ->
       (ord c * 2 ^ n <= V -> ord c <= v) /\ (V <= ord c * 2 ^ n -> v <= ord c)) /\
    (forall mc ec, valid (S754_finite false mc ec) = true ->
       2 * V < (2 * (Z.pos mc * 2 ^ (ec + 149)) + 2 ^ (ec + 149)) * 2 ^ n ->
       v <= Z.pos mc * 2 ^ (ec + 149)) /\
    v = Z.min (rne (Z.pos mz) n * 2 ^ (e1 + 149)) (2 ^ 277).
Proof.
  intros e1 n Hn r V.
  destruct (round_spec s mz ez Hn) as (Hv & Hnan & Hord).
  destruct (round_mantissa_bounds mz ez Hn) as (He1 & Hm1 & Hm1lo & Hdm).
  fold e1 in Hord, He1, Hm1, Hm1lo, Hdm. fold n in Hord, Hm1, Hm1lo, Hdm.
  pose proof (rne_bounds (Z.pos mz) n) as (Hm2 & Hex & Hnear).
  specialize (fun H => Hex H Hn).
  set (m2 := rne (Z.pos mz) n) in *.
  fold r in Hv, Hnan, Hord. cbv zeta in Hord.
  set (m1 := Z.pos mz / 2 ^ n) in *.
  set (E := e1 + 149) in *.
  assert (0 <= E) as HE by (unfold E; lia).
  assert (0 < 2 ^ E) as HpE by (by apply Z.pow_pos_nonneg).
  assert (0 < 2 ^ n) as Hpn by (by apply Z.pow_pos_nonneg).
  assert (0 < E -> 2 ^ 23 <= m1) as Hm1E by (intros; apply Hm1lo; unfold E in *; lia).
  assert (Z.pos mz mod 2 ^ n = Z.pos mz - 2 ^ n * m1) as Hmod by (apply Z.mod_eq; lia).
  exists (Z.min (m2 * 2 ^ E) (2 ^ 277)).
  assert (0 < 2 ^ 277) as Hbig by (by apply Z.pow_pos_nonneg).
  split; [done|]. split; [done|]. split; [done|].
  split; [split; [apply Z.min_glb; nia|apply Z.le_min_r]|].
  assert (forall mc ec, valid (S754_finite false mc ec) = true ->
            let C := Z.pos mc * 2 ^ (ec + 149) in
            (C * 2 ^ n <= V -> C <= Z.min (m2 * 2 ^ E) (2 ^ 277)) /\
            (V <= C * 2 ^ n -> Z.min (m2 * 2 ^ E) (2 ^ 277) <= C) /\
            (2 * V < (2 * C + 2 ^ (ec + 149)) * 2 ^ n ->
             Z.min (m2 * 2 ^ E) (2 ^ 277) <= C)) as Hpos.
  { intros mc ec Hc C.
    pose proof (ord_finite_bound _ _ _ Hc) as HC. fold C in HC.
    apply valid_finite in Hc as (Hec & Hmc & Hmclo).
    set (Ec := ec + 149) in *.
    assert (0 <= Ec) as HEc by (unfold Ec; lia).
    assert (0 < 2 ^ Ec) as HpEc by (by apply Z.pow_pos_nonneg).
    destruct (grid_cases (Z.pos mc) Ec m1 E HEc HE ltac:(lia) Hm1E) as [[Hle Hsp]|[Hlt Hbelow]].
    - (* [c] is on the grid of the result *)
      set (t := 2 ^ (Ec - E)) in *.
      assert (0 < t) as Ht by (apply Z.pow_pos_nonneg; lia).
      assert (C = Z.pos mc * t * 2 ^ E) as HCq by (unfold C; rewrite Hsp; ring).
      set (q := Z.pos mc * t) in *.
      unfold V. split; [|split].
      + intros Hlow. assert (q * 2 ^ n <= Z.pos mz) as Hq by nia.
        assert (q <= m1) by (apply Z.div_le_lower_bound; lia).
        apply Z.min_glb; [|lia]. rewrite HCq. nia.
      + intros Hhigh. assert (Z.pos mz <= q * 2 ^ n) as Hq by nia.
        assert (m2 <= q) as Hm2q.
        { destruct (Z.eq_dec (Z.pos mz) (q * 2 ^ n)) as [Heq|Hne].
          - assert (m1 = q) as Hm1q by nia.
            rewrite Hex by (rewrite Hmod; nia). lia.
          - assert (m1 < q) by nia. lia. }
        apply Z.le_trans with (m2 * 2 ^ E); [apply Z.le_min_l|]. rewrite HCq. nia.
      + intros Hhalf.
        assert (m2 <= q) as Hm2q.
        { destruct (Z.eq_dec Ec E) as [Heq|Hne].
          - assert (t = 1) as Ht1 by (unfold t; rewrite Heq, Z.sub_diag; done).
            rewrite Hsp, Ht1, HCq in Hhalf.
            assert (2 * Z.pos mz < (2 * q + 1) * 2 ^ n) as Hh by nia.
            assert (m1 <= q) by nia.
            destruct (Z.eq_dec m1 q) as [Hmq|Hmq]; [|lia].
            rewrite Hnear; [lia|]. rewrite Hmod. nia.
          - assert (2 ^ 1 <= t) as Ht2 by (apply Z.pow_le_mono_r; lia).
            change (2 ^ 1) with 2 in Ht2.
            specialize (Hmclo ltac:(unfold Ec, E in *; lia)).
            change (2 ^ 23) with 8388608 in Hmclo. change (2 ^ 24) with 16777216 in Hm1.
            unfold q. nia. }
        apply Z.le_trans with (m2 * 2 ^ E); [apply Z.le_min_l|]. rewrite HCq. nia.
    - (* [c] is below the first point of that grid *)
      assert (C < m1 * 2 ^ E) as Hb by (unfold C; nia).
      unfold V. split; [|split].
      + intros _. apply Z.min_glb; [nia|lia].
      + intros Hhigh. exfalso. nia.
      + intros Hhalf. exfalso.
        assert ((2 * C + 2 ^ Ec) * 2 ^ n <= 2 * (m1 * 2 ^ E) * 2 ^ n) by (unfold C; nia).
        nia. }
  split; [|split; [|done]].
  - intros c Hc Hfin Hc0. destruct c as [sc| | |sc mc ec]; try done.
    + cbn [ord] in *. split; [intros _; nia|]. intros H. exfalso. unfold V in H. nia.
    + destruct sc.
      * exfalso. pose proof (ord_finite_bound _ _ _ Hc). cbn [ord] in Hc0. lia.
      * cbn [ord]. destruct (Hpos mc ec Hc) as (H1 & H2 & _). by split.
  - intros mc ec Hc. by destruct (Hpos mc ec Hc) as (_ & _ & H3).
Qed.

Lemma valid_opp (c : spec_float) : valid (SFopp c) = valid c.
Proof. by destruct c. Qed.

Lemma ord_opp (c : spec_float) : ord (SFopp c) = - ord c.
Proof. destruct c as [[]|[]| |[] m e]; cbn [SFopp ord negb]; lia. Qed.

Lemma finite_opp (c : spec_float) : is_finite (SFopp c) = is_finite c.
Proof. by destruct c. Qed.

Lemma finite_of_ord (c : spec_float) :
  is_nan c = false -> - 2 ^ 277 < ord c < 2 ^ 277 -> is_finite c = true.
Proof. destruct c as [s|[]| |[] m e]; cbn [ord is_finite is_nan]; try done; lia. Qed.

Lemma shl_align_spec (m : positive) (e e' : Z) :
  let k := Z.max (e - e') 0 in
  exists m', shl_align m e e' = (m', e - k) /\
    Z.pos m' = Z.pos m * 2 ^ k /\
    Z.pos (digits2_pos m') = Z.pos (digits2_pos m) + k.
Proof.
  cbv zeta. unfold shl_align. destruct (e' - e) as [|p|p] eqn:E.
  - exists m. rewrite Z.max_r by lia. split; [f_equal; lia|]. split; lia.
  - exists m. rewrite Z.max_r by lia. split; [f_equal; lia|]. split; lia.
  - exists (Pos.iter xO m p). rewrite Z.max_l by lia.
    replace (e - e') with (Z.pos p) by lia.
    split; [f_equal; lia|]. split; [apply iter_xO_value|].
    rewrite iter_xO_digits. lia.
Qed.

(** The number of digits is the one that brackets the number. *)
Lemma digits_unique (p : positive) (k : Z) :
  2 ^ (k - 1) <= Z.pos p < 2 ^ k -> Z.pos (digits2_pos p) = k.
Proof.
  intros [Hlo Hhi]. pose proof (digits2_pos_bounds p) as [Hdlo Hdhi].
  set (d := Z.pos (digits2_pos p)) in *.
  assert (0 < d) as Hd by (unfold d; lia).
  assert (0 < k) as Hk.
  { destruct (Z.lt_trichotomy k 0) as [Hn|[->|]]; [|cbn in Hhi; lia|done].
    rewrite Z.pow_neg_r in Hhi by done. lia. }
  destruct (Z.lt_trichotomy d k) as [Hlt|[|Hgt]]; [|done|]; exfalso.
  - assert (2 ^ d <= 2 ^ (k - 1)) by (apply Z.pow_le_mono_r; lia). lia.
  - assert (2 ^ k <= 2 ^ (d - 1)) by (apply Z.pow_le_mono_r; lia). lia.
Qed.

Lemma Zdigits2_shift (v j : Z) :
  0 < v -> 0 <= j -> Zdigits2 (v * 2 ^ j) = Zdigits2 v + j.
Proof.
  intros Hv Hj. assert (0 < 2 ^ j) as Hp by (by apply Z.pow_pos_nonneg).
  destruct v as [|p|p]; try lia.
  destruct (Z.pos p * 2 ^ j) as [|q|q] eqn:Eq; try lia.
  cbn [Zdigits2]. pose proof (digits2_pos_bounds p) as [Hlo Hhi].
  apply digits_unique. rewrite <- Eq.
  replace (Z.pos (digits2_pos p) + j - 1) with (Z.pos (digits2_pos p) - 1 + j) by lia.
  rewrite !Z.pow_add_r by lia. nia.
Qed.

Lemma Zdigits2_bounds (v : Z) :
  0 < v -> 2 ^ (Zdigits2 v - 1) <= v < 2 ^ Zdigits2 v.
Proof. intros Hv. destruct v as [|p|p]; try lia. apply digits2_pos_bounds. Qed.

(** Rounding does not depend on how the number is written. *)
Lemma rne_shift (m n j : Z) :
  0 <= n -> 0 <= j -> rne (m * 2 ^ j) (n + j) = rne m n.
Proof.
  intros Hn Hj. assert (0 < 2 ^ j) as Hpj by (by apply Z.pow_pos_nonneg).
  assert (0 < 2 ^ n) as Hpn by (by apply Z.pow_pos_nonneg).
  unfold rne. rewrite Z.pow_add_r by lia.
  rewrite Z.div_mul_cancel_r, Z.mul_mod_distr_r by lia.
  rewrite Z.mul_assoc, <- (Zmult_compare_compat_r (2 * (m mod 2 ^ n)) (2 ^ n) (2 ^ j)) by lia.
  done.
Qed.

(** [binary_round] on [m * 2^e], an integer number of units [2^-149]. *)
Lemma binary_round_mag (s : bool) (m : positive) (e : Z) :
  -149 <= e ->
  let r := binary_round prec emax s m e in
  let V := Z.pos m * 2 ^ (e + 149) in
  exists v,
    valid r = true /\ is_nan r = false /\ ord r = (if s then - v else v) /\
    0 <= v <= 2 ^ 277 /\
    (forall c, valid c = true -> is_finite c = true -> 0 <= ord c ->
       (ord c <= V -> ord c <= v) /\ (V <= ord c -> v <= ord c)) /\
    v = RN V.
Proof.
  intros He r V. subst r. unfold binary_round.
  set (e' := fexp prec emax (Z.pos (digits2_pos m) + e)).
  assert (-149 <= e') as He' by (unfold e'; rewrite fexp_eq; lia).
  destruct (shl_align_spec m e e') as (mz & -> & Hmz & Hdz). cbv zeta in Hmz, Hdz.
  set (k := Z.max (e - e') 0) in *.
  assert (0 <= k) as Hk by (unfold k; lia).
  assert (fexp prec emax (Z.pos (digits2_pos mz) + (e - k)) = e') as Hfe.
  { rewrite Hdz. unfold e'. f_equal. lia. }
  assert (0 <= e' - (e - k)) as Hn by (unfold k; lia).
  pose proof (round_mag s mz (e - k)) as Hr. cbv zeta in Hr. rewrite Hfe in Hr.
  destruct (Hr Hn) as (v & Hv & Hnan & Hord & Hv0 & Hsand & _ & Hrne).
  exists v. split; [done|]. split; [done|]. split; [done|]. split; [done|].
  set (n := e' - (e - k)) in *.
  assert (0 < 2 ^ n) as Hpn by (by apply Z.pow_pos_nonneg).
  assert (Z.pos mz * 2 ^ (e' + 149) = V * 2 ^ n) as HV.
  { unfold V. rewrite Hmz, <- !Z.mul_assoc, <- !Z.pow_add_r by lia.
    f_equal. f_equal. unfold n. lia. }
  rewrite HV in Hsand. split.
  - intros c Hc Hf Hc0. destruct (Hsand c Hc Hf Hc0) as [H1 H2].
    split; intros H; [apply H1|apply H2]; nia.
  - (* the same number, written in units [2^-149] *)
    assert (V = Z.pos mz * 2 ^ (e - k + 149)) as HVz.
    { unfold V. rewrite Hmz, <- !Z.mul_assoc, <- !Z.pow_add_r by (unfold k; lia).
      f_equal. f_equal. lia. }
    assert (0 <= e - k + 149) as Hj by (unfold k; lia).
    rewrite Hrne. unfold RN. rewrite HVz, Zdigits2_shift by lia. cbn [Zdigits2].
    assert (Z.max (Z.pos (digits2_pos mz) + (e - k + 149) - 24) 0 = e' + 149) as ->.
    { rewrite <- Hfe, fexp_eq. lia. }
    replace (e' + 149) with (n + (e - k + 149)) at 2 by (unfold n; lia).
    by rewrite rne_shift.
Qed.

Lemma rounds_to_self (r : spec_float) :
  valid r = true -> is_nan r = false -> rounds_to (ord r) r.
Proof. intros Hv Hn. split; [done|]. split; [done|]. intros c _ _. by split. Qed.

Lemma rounds_to_zero (s : bool) : rounds_to 0 (S754_zero s).
Proof. exact (rounds_to_self (S754_zero s) eq_refl eq_refl). Qed.

(** The sign of what [v] rounds to. *)
Lemma rounds_to_sign (v : Z) (r : spec_float) :
  rounds_to v r -> (0 <= v -> 0 <= ord r) /\ (v <= 0 -> ord r <= 0).
Proof.
  intros (_ & _ & H). destruct (H (S754_zero false) eq_refl eq_refl) as [H1 H2].
  cbn [ord] in H1, H2. by split.
Qed.

Lemma binary_normalize_rounds (S e : Z) :
  -149 <= e -> rounds_to (S * 2 ^ (e + 149)) (binary_normalize prec emax S e false).
Proof.
  intros He. assert (0 < 2 ^ (e + 149)) as Hp by (apply Z.pow_pos_nonneg; lia).
  destruct S as [|m|m]; cbn [binary_normalize].
  - apply rounds_to_zero.
  - destruct (binary_round_mag false m e He) as (v & Hv & Hnan & Hord & Hv0 & Hs & _).
    split; [done|]. split; [done|]. rewrite Hord. intros c Hc Hf.
    destruct (Z.le_gt_cases 0 (ord c)) as [Hc0|Hc0].
    + exact (Hs c Hc Hf Hc0).
    + split; intros H; lia.
  - destruct (binary_round_mag true m e He) as (v & Hv & Hnan & Hord & Hv0 & Hs & _).
    split; [done|]. split; [done|]. rewrite Hord. intros c Hc Hf.
    destruct (Z.le_gt_cases (ord c) 0) as [Hc0|Hc0].
    + destruct (Hs (SFopp c)) as [H1 H2];
        rewrite ?valid_opp, ?finite_opp, ?ord_opp; try done; [lia|].
      rewrite ord_opp in H1, H2. change (Z.neg m) with (- Z.pos m).
      split; intros H; [apply Z.opp_le_mono; rewrite Z.opp_involutive; apply H2
                       |apply Z.opp_le_mono; rewrite Z.opp_involutive; apply H1]; lia.
    + change (Z.neg m) with (- Z.pos m). split; intros H; lia.
Qed.

(** An aligned mantissa, in units [2^-149]. *)
Lemma aligned_ord (s : bool) (m : positive) (e ez : Z) :
  -149 <= ez <= e ->
  cond_Zopp s (Z.pos (fst (shl_align m e ez))) * 2 ^ (ez + 149)
  = ord (S754_finite s m e).
Proof.
  intros He. destruct (shl_align_spec m e ez) as (m' & -> & Hm' & _).
  cbv zeta in Hm'. rewrite Z.max_l in Hm' by lia. cbn [fst ord].
  assert (Z.pos m' * 2 ^ (ez + 149) = Z.pos m * 2 ^ (e + 149)) as Hv.
  { rewrite Hm', <- Z.mul_assoc, <- Z.pow_add_r by lia. f_equal. f_equal. lia. }
  destruct s; cbn [cond_Zopp]; lia.
Qed.

(** Sums and differences of finite numbers are rounded from the exact
    ones. *)
Lemma SFadd_rounds (a b : spec_float) :
  valid a = true -> valid b = true -> is_finite a = true -> is_finite b = true ->
  rounds_to (ord a + ord b) (SFadd prec emax a b).
Proof.
  intros Ha Hb Hfa Hfb.
  destruct a as [sa| | |sa ma ea], b as [sb| | |sb mb eb]; try done.
  - destruct sa, sb; apply rounds_to_zero.
  - cbn [SFadd]. change (ord (S754_zero sb)) with 0. rewrite Z.add_0_r.
    by apply rounds_to_self.
  - cbn [SFadd]. cbv zeta.
    pose proof (proj1 (valid_finite _ _ _) Ha) as (Hea & _).
    pose proof (proj1 (valid_finite _ _ _) Hb) as (Heb & _).
    change (IntDef.Z.min ea eb) with (Z.min ea eb).
    set (ez := Z.min ea eb).
    rewrite <- (aligned_ord sa ma ea ez), <- (aligned_ord sb mb eb ez) by (unfold ez; lia).
    rewrite <- Z.mul_add_distr_r. apply binary_normalize_rounds. unfold ez. lia.
Qed.

Lemma SFsub_rounds (a b : spec_float) :
  valid a = true -> valid b = true -> is_finite a = true -> is_finite b = true ->
  rounds_to (ord a - ord b) (SFsub prec emax a b).
Proof.
  intros Ha Hb Hfa Hfb.
  destruct a as [sa| | |sa ma ea], b as [sb| | |sb mb eb]; try done.
  - destruct sa, sb; apply rounds_to_zero.
  - cbn [SFsub]. change (ord (S754_zero sa)) with 0. rewrite Z.sub_0_l.
    rewrite <- (ord_opp (S754_finite sb mb eb)). by apply rounds_to_self.
  - cbn [SFsub]. change (ord (S754_zero sb)) with 0. rewrite Z.sub_0_r.
    by apply rounds_to_self.
  - cbn [SFsub]. cbv zeta.
    pose proof (proj1 (valid_finite _ _ _) Ha) as (Hea & _).
    pose proof (proj1 (valid_finite _ _ _) Hb) as (Heb & _).
    change (IntDef.Z.min ea eb) with (Z.min ea eb).
    set (ez := Z.min ea eb).
    rewrite <- (aligned_ord sa ma ea ez), <- (aligned_ord sb mb eb ez) by (unfold ez; lia).
    rewrite <- Z.mul_sub_distr_r. apply binary_normalize_rounds. unfold ez. lia.
Qed.

(** *** Rounding is a monotone function of the exact result *)

Lemma rne_mono (m m' n : Z) : 0 <= n -> m <= m' -> rne m n <= rne m' n.
Proof.
  intros Hn Hm. assert (0 < 2 ^ n) as Hp by (by apply Z.pow_pos_nonneg).
  pose proof (Z.div_le_mono m m' (2 ^ n) Hp Hm) as Hq.
  destruct (Z.eq_dec (m / 2 ^ n) (m' / 2 ^ n)) as [Heq|Hne].
  - pose proof (Z.div_mod m (2 ^ n) ltac:(lia)) as H1.
    pose proof (Z.div_mod m' (2 ^ n) ltac:(lia)) as H2.
    unfold rne. rewrite <- Heq in H2 |- *.
    set (q := m / 2 ^ n) in *. set (t := m mod 2 ^ n) in *. set (t' := m' mod 2 ^ n) in *.
    assert (t <= t') as Ht by lia.
    destruct (Z.compare_spec (2 * t) (2 ^ n)), (Z.compare_spec (2 * t') (2 ^ n));
      try lia; destruct (Z.even q); lia.
  - pose proof (rne_bounds m n) as [H1 _]. pose proof (rne_bounds m' n) as [H2 _]. lia.
Qed.

Lemma RN_zero : RN 0 = 0.
Proof. reflexivity. Qed.

Lemma RN_nonneg (v : Z) : 0 <= v -> 0 <= RN v.
Proof.
  intros Hv. unfold RN. set (E := Z.max _ 0).
  assert (0 < 2 ^ E) as Hp by (apply Z.pow_pos_nonneg; unfold E; lia).
  pose proof (rne_bounds v E) as [H _].
  assert (0 <= v / 2 ^ E) by (apply Z.div_pos; lia).
  apply Z.min_glb; [nia|]. by apply Z.pow_nonneg.
Qed.

Lemma RN_mono (v1 v2 : Z) : 0 <= v1 <= v2 -> RN v1 <= RN v2.
Proof.
  intros [H1 H12]. destruct (Z.eq_dec v1 0) as [->|Hne].
  { rewrite RN_zero. apply RN_nonneg. lia. }
  pose proof (Zdigits2_bounds v1 ltac:(lia)) as [Hlo1 Hhi1].
  pose proof (Zdigits2_bounds v2 ltac:(lia)) as [Hlo2 Hhi2].
  unfold RN.
  set (d1 := Zdigits2 v1) in *. set (d2 := Zdigits2 v2) in *.
  assert (d1 <= d2) as Hd.
  { destruct (Z.le_gt_cases d1 d2) as [|Hgt]; [done|]. exfalso.
    assert (2 ^ d2 <= 2 ^ (d1 - 1)) by (apply Z.pow_le_mono_r; lia). lia. }
  set (E1 := Z.max (d1 - 24) 0). set (E2 := Z.max (d2 - 24) 0).
  assert (0 < 2 ^ E1) as Hp1 by (apply Z.pow_pos_nonneg; unfold E1; lia).
  assert (0 < 2 ^ E2) as Hp2 by (apply Z.pow_pos_nonneg; unfold E2; lia).
  apply Z.min_le_compat_r.
  destruct (Z.eq_dec E1 E2) as [Heq|HneE].
  - rewrite <- Heq. apply Z.mul_le_mono_nonneg_r; [lia|].
    apply rne_mono; [unfold E1|]; lia.
  - assert (E1 < E2) as HE by (unfold E1, E2 in *; lia).
    assert (E2 = d2 - 24) as HE2 by (unfold E1, E2 in *; lia).
    apply Z.le_trans with (2 ^ (E2 + 23)).
    + apply Z.le_trans with (2 ^ 24 * 2 ^ E1).
      * apply Z.mul_le_mono_nonneg_r; [lia|].
        pose proof (rne_bounds v1 E1) as [[_ Hub] _].
        assert (v1 / 2 ^ E1 < 2 ^ 24); [|lia].
        apply Z.div_lt_upper_bound; [done|].
        apply Z.lt_le_trans with (2 ^ d1); [done|].
        rewrite <- Z.pow_add_r by (unfold E1; lia). apply Z.pow_le_mono_r; unfold E1; lia.
      * rewrite <- Z.pow_add_r by (unfold E1; lia). apply Z.pow_le_mono_r; lia.
    + apply Z.le_trans with (2 ^ 23 * 2 ^ E2).
      * rewrite <- Z.pow_add_r by lia. apply Z.pow_le_mono_r; lia.
      * apply Z.mul_le_mono_nonneg_r; [lia|].
        pose proof (rne_bounds v2 E2) as [[Hlb _] _].
        apply Z.le_trans with (v2 / 2 ^ E2); [|done].
        apply Z.div_le_lower_bound; [done|].
        rewrite Z.mul_comm, <- Z.pow_add_r by lia.
        replace (23 + E2) with (d2 - 1) by lia. done.
Qed.

Lemma sRN_mono (v1 v2 : Z) : v1 <= v2 -> sRN v1 <= sRN v2.
Proof.
  intros H. unfold sRN.
  destruct (Z.ltb_spec v1 0), (Z.ltb_spec v2 0); try lia.
  - pose proof (RN_mono (- v2) (- v1) ltac:(lia)). lia.
  - pose proof (RN_nonneg (- v1) ltac:(lia)). pose proof (RN_nonneg v2 ltac:(lia)). lia.
  - by apply RN_mono.
Qed.

(** The result of [binary_normalize], as a function of the exact number. *)
Lemma binary_normalize_exact (S e : Z) :
  -149 <= e -> ord (binary_normalize prec emax S e false) = sRN (S * 2 ^ (e + 149)).
Proof.
  intros He. assert (0 < 2 ^ (e + 149)) as Hp by (apply Z.pow_pos_nonneg; lia).
  destruct S as [|m|m]; cbn [binary_normalize].
  - done.
  - destruct (binary_round_mag false m e He) as (v & _ & _ & -> & _ & _ & ->).
    unfold sRN. destruct (Z.ltb_spec (Z.pos m * 2 ^ (e + 149)) 0); [lia|done].
  - destruct (binary_round_mag true m e He) as (v & _ & _ & -> & _ & _ & ->).
    unfold sRN. change (Z.neg m) with (- Z.pos m).
    destruct (Z.ltb_spec (- Z.pos m * 2 ^ (e + 149)) 0); [|lia].
    f_equal. f_equal. lia.
Qed.

(** A finite number of the format rounds to itself. *)
Lemma sRN_ord (c : spec_float) :
  valid c = true -> is_finite c = true -> sRN (ord c) = ord c.
Proof.
  intros Hc Hf. destruct c as [s| | |s m e]; try done.
  assert (valid (S754_finite false m e) = true) as Hc' by exact Hc.
  pose proof (proj1 (valid_finite _ _ _) Hc) as (He & _).
  pose proof (ord_finite_bound _ _ _ Hc) as Hb.
  destruct (binary_round_mag false m e ltac:(lia)) as (v & _ & _ & _ & _ & Hs & Hv).
  destruct (Hs (S754_finite false m e) Hc' eq_refl) as [H1 H2]; [cbn [ord]; lia|].
  cbn [ord] in H1, H2. specialize (H1 ltac:(lia)). specialize (H2 ltac:(lia)).
  assert (RN (Z.pos m * 2 ^ (e + 149)) = Z.pos m * 2 ^ (e + 149)) as HRN by lia.
  unfold sRN. cbn [ord]. destruct s.
  - destruct (Z.ltb_spec (- (Z.pos m * 2 ^ (e + 149))) 0); [|lia].
    rewrite Z.opp_involutive, HRN. done.
  - destruct (Z.ltb_spec (Z.pos m * 2 ^ (e + 149)) 0); [lia|done].
Qed.

(** Sums and differences of finite numbers: the exact result, rounded. *)
Lemma SFadd_exact (a b : spec_float) :
  valid a = true -> valid b = true -> is_finite a = true -> is_finite b = true ->
  ord (SFadd prec emax a b) = sRN (ord a + ord b).
Proof.
  intros Ha Hb Hfa Hfb.
  destruct a as [sa| | |sa ma ea], b as [sb| | |sb mb eb]; try done.
  - by destruct sa, sb.
  - cbn [SFadd]. change (ord (S754_zero sa)) with 0. rewrite Z.add_0_l.
    symmetry. by apply sRN_ord.
  - cbn [SFadd]. change (ord (S754_zero sb)) with 0. rewrite Z.add_0_r.
    symmetry. by apply sRN_ord.
  - cbn [SFadd]. cbv zeta.
    pose proof (proj1 (valid_finite _ _ _) Ha) as (Hea & _).
    pose proof (proj1 (valid_finite _ _ _) Hb) as (Heb & _).
    change (IntDef.Z.min ea eb) with (Z.min ea eb).
    set (ez := Z.min ea eb).
    rewrite <- (aligned_ord sa ma ea ez), <- (aligned_ord sb mb eb ez) by (unfold ez; lia).
    rewrite <- Z.mul_add_distr_r. apply binary_normalize_exact. unfold ez. lia.
Qed.

Lemma SFsub_exact (a b : spec_float) :
  valid a = true -> valid b = true -> is_finite a = true -> is_finite b = true ->
  ord (SFsub prec emax a b) = sRN (ord a - ord b).
Proof.
  intros Ha Hb Hfa Hfb.
  destruct a as [sa| | |sa ma ea], b as [sb| | |sb mb eb]; try done.
  - by destruct sa, sb.
  - cbn [SFsub]. change (ord (S754_zero sa)) with 0. rewrite Z.sub_0_l.
    rewrite <- (ord_opp (S754_finite sb mb eb)). symmetry.
    apply (sRN_ord (SFopp (S754_finite sb mb eb))); by rewrite ?valid_opp, ?finite_opp.
  - cbn [SFsub]. change (ord (S754_zero sb)) with 0. rewrite Z.sub_0_r.
    symmetry. by apply sRN_ord.
  - cbn [SFsub]. cbv zeta.
    pose proof (proj1 (valid_finite _ _ _) Ha) as (Hea & _).
    pose proof (proj1 (valid_finite _ _ _) Hb) as (Heb & _).
    change (IntDef.Z.min ea eb) with (Z.min ea eb).
    set (ez := Z.min ea eb).
    rewrite <- (aligned_ord sa ma ea ez), <- (aligned_ord sb mb eb ez) by (unfold ez; lia).
    rewrite <- Z.mul_sub_distr_r. apply binary_normalize_exact. unfold ez. lia.
Qed.

(** Adding a number that is not negative does not decrease the first
    operand; the sum is never a NaN when the second operand is finite. *)
Lemma SFadd_ge_left (a b : spec_float) :
  valid a = true -> valid b = true -> is_nan a = false ->
  is_finite b = true -> 0 <= ord b ->
  let r := SFadd prec emax a b in
  valid r = true /\ is_nan r = false /\ ord a <= ord r.
Proof.
  intros Ha Hb Hna Hfb Hb0. cbv zeta.
  destruct (is_finite a) eqn:Hfa.
  - destruct (SFadd_rounds a b Ha Hb Hfa Hfb) as (Hv & Hn & Hs).
    split; [done|]. split; [done|]. apply (Hs a Ha Hfa). lia.
  - destruct a as [sa|sa| |sa ma ea]; try done.
    destruct b as [sb|sb| |sb mb eb]; try done.
Qed.

Lemma SFltb_not_nan (f g : spec_float) :
  SFltb f g = true -> is_nan f = false /\ is_nan g = false.
Proof. by destruct f as [| | |[]], g as [| | |[]]. Qed.

(** Above a positive number of the format, the next one is a unit of its
    last place away. *)
Lemma ord_succ (mc : positive) (ec : Z) (f : spec_float) :
  valid (S754_finite false mc ec) = true -> valid f = true -> is_finite f = true ->
  Z.pos mc * 2 ^ (ec + 149) < ord f ->
  (Z.pos mc + 1) * 2 ^ (ec + 149) <= ord f.
Proof.
  intros Hc Hf Hfin Hlt.
  apply valid_finite in Hc as (Hec & Hmc & Hmclo).
  assert (0 < 2 ^ (ec + 149)) as Hpc by (apply Z.pow_pos_nonneg; lia).
  destruct f as [sf| | |sf mf ef]; try done; [cbn [ord] in Hlt; lia|].
  pose proof (ord_finite_bound _ _ _ Hf) as Hb.
  destruct sf; [cbn [ord] in Hlt; lia|]. cbn [ord] in Hlt |- *.
  apply valid_finite in Hf as (Hef & Hmf & Hmflo).
  destruct (grid_cases (Z.pos mf) (ef + 149) (Z.pos mc) (ec + 149))
    as [[Hle Hsp]|[Hlt' Hbelow]]; try lia.
  rewrite Hsp in Hlt |- *.
  assert (0 < 2 ^ (ef + 149 - (ec + 149))) by (apply Z.pow_pos_nonneg; lia).
  set (t := 2 ^ (ef + 149 - (ec + 149))) in *. set (g := 2 ^ (ec + 149)) in *.
  assert (Z.pos mc < Z.pos mf * t) as Hq by nia.
  rewrite Z.mul_assoc. apply Z.mul_le_mono_nonneg_r; lia.
Qed.

(** An integer below [2^24] is a number of the format, in units
    [2^-149]. *)
Lemma small_ord (D : Z) :
  0 <= D < 2 ^ 24 ->
  exists c, valid c = true /\ is_finite c = true /\ ord c = D.
Proof.
  intros HD. destruct D as [|p|p]; [| |lia].
  - by exists (S754_zero false).
  - exists (S754_finite false p (-149)). split; [apply valid_finite; lia|].
    split; [done|]. cbn [ord]. change (2 ^ (-149 + 149)) with 1. lia.
Qed.

(** What the generator draws: zero, or a normalised mantissa with an
    exponent between -47 and -24. *)
Lemma draw_cases (rng : SimpleRng) :
  let u := fst (rng_next_float01 (F:=spec_float) rng) in
  u = S754_zero false \/
  exists p, Z.pos p < 2 ^ 24 /\
    u = S754_finite false (norm_mant p) (Z.pos (digits2_pos p) - 48).
Proof.
  cbv zeta. unfold rng_next_float01. cbn [rng_next fst].
  pose proof (land_mask_bounds ((state rng * 1664525 + 1013904223) mod 2 ^ 32)) as Hb.
  destruct (Z.land _ _) as [|p|p]; [by left| |lia].
  right. exists p. split; [lia|]. apply float01_of_pos. lia.
Qed.

(** A draw times a finite number [w] that is not negative: the product is
    finite, between 0 and [w], and it is not above any number that rounds to
    [w]. *)
Lemma draw_mul_spec (rng : SimpleRng) (w : spec_float) :
  valid w = true -> is_finite w = true -> 0 <= ord w ->
  let r := SFmul prec emax (fst (rng_next_float01 (F:=spec_float) rng)) w in
  valid r = true /\ is_finite r = true /\ 0 <= ord r <= ord w /\
  forall D, 0 <= D -> rounds_to D w -> ord r <= D.
Proof.
  intros Hw Hfw Hw0. cbv zeta.
  assert (forall sw : bool, valid (S754_zero sw) = true /\ is_finite (S754_zero sw) = true /\
            0 <= ord (S754_zero sw) <= ord w /\
            forall D, 0 <= D -> rounds_to D w -> ord (S754_zero sw) <= D) as Hzero.
  { intros sw. split; [done|]. split; [done|]. split; [by cbn [ord]|]. by intros D HD _. }
  destruct (draw_cases rng) as [->|(p & Hp & ->)].
  - destruct w as [sw| | |sw mw ew]; try done; apply Hzero.
  - destruct w as [sw| | |sw mw ew]; try done.
    pose proof (ord_finite_bound _ _ _ Hw) as HW.
    destruct sw; [cbn [ord] in Hw0; lia|]. cbn [SFmul xorb].
    pose proof (norm_mant_digits p Hp) as Hdu.
    pose proof (norm_mant_value p Hp) as Hvu.
    pose proof (digits2_pos_bounds (norm_mant p)) as Hbu. rewrite Hdu in Hbu.
    change (2 ^ (24 - 1)) with (2 ^ 23) in Hbu.
    pose proof (digits2_pos_le p 24 ltac:(lia) Hp) as Hdp.
    pose proof (Pos2Z.is_pos (digits2_pos p)) as Hd0.
    set (d := Z.pos (digits2_pos p)) in *.
    set (mu := norm_mant p) in *.
    set (T := 2 ^ (48 - d)).
    assert (Z.pos mu * 2 ^ 24 = Z.pos p * T) as HmuT.
    { rewrite Hvu. unfold T. rewrite <- Z.mul_assoc, <- Z.pow_add_r by lia.
      f_equal. f_equal. lia. }
    assert (0 < T) as HT by (apply Z.pow_pos_nonneg; lia).
    pose proof (proj1 (valid_finite _ _ _) Hw) as (Hew & Hmw & Hmwlo).
    (* the product of the mantissas has 24 digits or more *)
    pose proof (digits2_pos_bounds (mu * mw)) as Hbz.
    set (dz := Z.pos (digits2_pos (mu * mw))) in *.
    assert (24 <= dz) as Hdz.
    { destruct (Z.le_gt_cases 24 dz) as [|Hgt]; [done|]. exfalso.
      assert (2 ^ dz <= 2 ^ 23) by (apply Z.pow_le_mono_r; unfold dz; lia).
      rewrite Pos2Z.inj_mul in Hbz. nia. }
    pose proof (round_mag false (mu * mw) (d - 48 + ew)) as Hr. cbv zeta in Hr.
    fold dz in Hr.
    set (e1 := fexp prec emax (dz + (d - 48 + ew))) in *.
    set (n := e1 - (d - 48 + ew)) in *.
    assert (0 <= n) as Hn by (unfold n, e1; rewrite fexp_eq; lia).
    assert (-149 <= e1) as He1 by (unfold e1; rewrite fexp_eq; lia).
    destruct (Hr Hn) as (v & Hv & Hnan & Hord & Hv0 & Hsand & Hhalf & _). clear Hr.
    rewrite Pos2Z.inj_mul in Hsand, Hhalf.
    set (E := e1 + 149) in *. set (Ew := ew + 149) in *.
    assert (0 < 2 ^ E) as HpE by (apply Z.pow_pos_nonneg; unfold E; lia).
    assert (0 < 2 ^ Ew) as HpEw by (apply Z.pow_pos_nonneg; unfold Ew; lia).
    assert (0 < 2 ^ n) as Hpn by (by apply Z.pow_pos_nonneg).
    assert (2 ^ Ew * 2 ^ n = 2 ^ E * T) as Hsc.
    { unfold T. rewrite <- !Z.pow_add_r by (unfold E, Ew; lia). f_equal.
      unfold E, Ew, n. lia. }
    cbn [ord] in Hw0, HW |- *. fold Ew in HW |- *.
    set (r := binary_round_aux _ _ _ _ _ _) in *.
    (* the product is at most [w] *)
    assert (v <= Z.pos mw * 2 ^ Ew) as HvW.
    { apply (Hsand (S754_finite false mw ew) Hw eq_refl); [cbn [ord]; lia|].
      cbn [ord]. fold Ew.
      replace (Z.pos mw * 2 ^ Ew * 2 ^ n) with (Z.pos mw * (2 ^ E * T)) by (rewrite <- Hsc; ring).
      assert (Z.pos mu <= T) as HmuT'.
      { unfold T. apply Z.le_trans with (2 ^ 24); [lia|]. apply Z.pow_le_mono_r; lia. }
      nia. }
    assert (is_finite r = true) as Hfr by (apply finite_of_ord; [done|lia]).
    split; [done|]. split; [done|]. split; [lia|].
    intros D HD (_ & _ & HDw). rewrite Hord.
    destruct (Z.le_gt_cases (Z.pos mw * 2 ^ Ew) D) as [HWD|HDW]; [lia|].
    (* [w] was rounded up from [D] *)
    assert (forall c, valid c = true -> is_finite c = true ->
              ord c < Z.pos mw * 2 ^ Ew -> ord c < D) as Hbelow.
    { intros c Hc Hfc Hlt. destruct (Z.le_gt_cases D (ord c)) as [Hge|]; [|done].
      apply (HDw c Hc Hfc) in Hge. cbn [ord] in Hge. fold Ew in Hge. lia. }
    destruct (Z.eq_dec ew (-149)) as [Hsub|Hnorm].
    + (* a subnormal [w]: every integer below it is in the format *)
      exfalso. assert (Ew = 0) as HEw0 by (unfold Ew; lia).
      rewrite HEw0, Z.pow_0_r in HDW, Hbelow.
      destruct (small_ord D ltac:(lia)) as (c & Hc & Hfc & Hoc).
      pose proof (HDw c Hc Hfc) as [_ Hup]. cbn [ord] in Hup. fold Ew in Hup.
      rewrite HEw0, Z.pow_0_r in Hup. lia.
    + specialize (Hmwlo ltac:(lia)).
      change (2 ^ 23) with 8388608 in Hmwlo, Hbu.
      change (2 ^ 24) with 16777216 in Hmw, Hbu, Hp, HmuT.
      destruct (Z.eq_dec (Z.pos mw) 8388608) as [Hmin|Hbig].
      * (* [w] is a power of two: the number below it is half a unit away *)
        set (c := S754_finite false 16777215 (ew - 1)).
        assert (valid c = true) as Hc by (apply valid_finite; lia).
        assert (2 ^ Ew = 2 * 2 ^ (Ew - 1)) as HEw1.
        { rewrite <- (Z.pow_succ_r 2 (Ew - 1)) by (unfold Ew; lia). f_equal. lia. }
        assert (ord c = 16777215 * 2 ^ (Ew - 1)) as Hoc.
        { unfold c. cbn [ord]. f_equal. f_equal. unfold Ew. lia. }
        assert (0 < 2 ^ (Ew - 1)) as HpEw1 by (apply Z.pow_pos_nonneg; unfold Ew; lia).
        assert (v <= ord c) as Hvc.
        { apply (Hsand c Hc eq_refl); [rewrite Hoc; lia|]. rewrite Hoc, Hmin.
          assert (2 * (Z.pos mu * 8388608 * 2 ^ E) <= 2 * (16777215 * 2 ^ (Ew - 1) * 2 ^ n)); [|lia].
          replace (2 * (16777215 * 2 ^ (Ew - 1) * 2 ^ n)) with (16777215 * (2 ^ E * T))
            by (rewrite <- Hsc, HEw1; ring).
          replace (2 * (Z.pos mu * 8388608 * 2 ^ E)) with (Z.pos mu * 16777216 * 2 ^ E) by ring.
          rewrite HmuT.
          assert (Z.pos p * T <= 16777215 * T) by nia. nia. }
        assert (ord c < D); [|lia].
        apply Hbelow; [done|done|]. rewrite Hoc, Hmin, HEw1. lia.
      * (* otherwise the number below it is a whole unit away *)
        set (mc := Z.to_pos (Z.pos mw - 1)).
        assert (Z.pos mc = Z.pos mw - 1) as Hmc by (unfold mc; rewrite Z2Pos.id; lia).
        set (c := S754_finite false mc ew).
        assert (valid c = true) as Hc by (apply valid_finite; lia).
        assert (v <= Z.pos mc * 2 ^ Ew) as Hvc.
        { apply (Hhalf mc ew Hc). fold Ew E. rewrite Hmc.
          replace ((2 * ((Z.pos mw - 1) * 2 ^ Ew) + 2 ^ Ew) * 2 ^ n)
            with ((2 * Z.pos mw - 1) * (2 ^ E * T)) by (rewrite <- Hsc; ring).
          assert (2 * (Z.pos mu * Z.pos mw) < (2 * Z.pos mw - 1) * T) as Hcore.
          { assert (2 * (Z.pos mu * 16777216) * Z.pos mw < (2 * Z.pos mw - 1) * T * 16777216); [|nia].
            rewrite HmuT.
            assert (Z.pos p * T <= 16777215 * T) as HpT by nia.
            assert (2 * (Z.pos p * T) * Z.pos mw <= 2 * (16777215 * T) * Z.pos mw)
              by (apply Z.mul_le_mono_nonneg_r; lia).
            assert (16777216 * T < 2 * Z.pos mw * T) by nia.
            nia. }
          nia. }
        assert (ord c < D) as HcD.
        { apply Hbelow; [done|done|]. unfold c. cbn [ord]. fold Ew. rewrite Hmc. nia. }
        unfold c in HcD. cbn [ord] in HcD. fold Ew in HcD. lia.
Qed.

End Binary32Rounding.

(** * The claims that hold for every arithmetic *)

Section GenericClaims.

Context {F : Type} {ops : FloatOps F}.

Implicit Types (a b : PhysicsBody F) (bs : list (PhysicsBody F)).
Implicit Types (bounds : option (WorldBounds F)) (rng : option SimpleRng).

(** C1, as the code has it: a body that is already eliminated when
    [physics_step] is called with [dt > 0] is not integrated.  Its slot ends
    the step holding the body after the wall test and the cooldown decrement
    alone: [y] and [vy] are those at entry, [x] and [vx] are changed by the
    wall only, and the collision loop does not touch it. *)
Theorem popped_body_not_integrated bs count dt g bounds rng i b :
  (dt <=? f0)%fl = false ->
  bs !! i = Some b ->
  (i < count)%nat ->
  popped b = true ->
  exists bs' b',
    fst (physics_step (Some bs) count dt g bounds rng) = Some bs' /\
    bs' !! i = Some b' /\
    b' = tick_cooldown (wall_collide bounds b) /\
    y b' = y b /\ vy b' = vy b /\
    x b' = x (wall_collide bounds b) /\ vx b' = vx (wall_collide bounds b) /\
    popped b' = true.
Proof.
  intros Hdt Hi Hlt Hp. unfold physics_step. rewrite Hdt.
  destruct count as [|n]; [lia|]. cbn [Nat.eqb]. cbv zeta.
  set (b1 := tick_cooldown (wall_collide bounds b)).
  assert (popped b1 = true) as Hp1
    by (unfold b1; by rewrite tick_cooldown_popped, wall_collide_popped).
  assert (integrate_all (S n) dt g bounds bs !! i = Some b1) as H1.
  { rewrite integrate_all_lookup. destruct (decide (i < S n)%nat); [|lia].
    rewrite Hi. cbn. by rewrite step_body_popped. }
  pose proof (collide_all_popped_slot bounds (S n)
                (integrate_all (S n) dt g bounds bs, rng) i b1 Hp1 H1) as H2.
  destruct (collide_all bounds (S n) _) as [bs2 rng2]. cbn [fst] in *.
  exists bs2, b1. repeat split; try done; unfold b1.
  - destruct (tick_cooldown_motion (wall_collide bounds b)) as (_&->&_).
    apply wall_collide_vertical.
  - destruct (tick_cooldown_motion (wall_collide bounds b)) as (_&_&_&->).
    apply wall_collide_vertical.
  - by destruct (tick_cooldown_motion (wall_collide bounds b)) as (->&_).
  - by destruct (tick_cooldown_motion (wall_collide bounds b)) as (_&_&->&_).
Qed.

(** C9: with [dt <= 0], with a null array or with [count = 0],
    [physics_step] returns at once: the array and the generator are the ones
    passed in. *)
Theorem physics_step_noop (bodies : option (list (PhysicsBody F))) count dt g bounds rng :
  (dt <=? f0)%fl = true \/ bodies = None \/ count = 0%nat ->
  physics_step bodies count dt g bounds rng = (bodies, rng).
Proof.
  intros [Hdt | [-> | ->]]; unfold physics_step.
  - by rewrite Hdt.
  - by destruct (dt <=? f0)%fl.
  - destruct (dt <=? f0)%fl; [done|]. by destruct bodies.
Qed.

(** C10: [physics_step] returns an array of the same length in which every
    body has the radius, inverse mass, restitution, group and pop chance it
    had, and is popped if it was; a null array stays null.  The flag is
    cleared by [bubble_respawn_body]. *)
Theorem physics_step_frame bs count dt g bounds rng (app : BubbleApp F) b :
  (exists bs' rng',
     physics_step (Some bs) count dt g bounds rng = (Some bs', rng') /\
     length bs' = length bs /\
     forall i b0, bs !! i = Some b0 ->
       exists b1, bs' !! i = Some b1 /\
         radius b1 = radius b0 /\ inv_mass b1 = inv_mass b0 /\
         restitution b1 = restitution b0 /\ group b1 = group b0 /\
         pop_chance b1 = pop_chance b0 /\
         (popped b0 = true -> popped b1 = true)) /\
  physics_step None count dt g bounds rng = (None, rng) /\
  (forall b' r', bubble_respawn_body app b = Some (b', r') -> popped b' = false).
Proof.
  split; [|split].
  - destruct (physics_step_some bs count dt g bounds rng) as (bs' & rng' & Hstep & Hk).
    exists bs', rng'. split; [done|]. split; [symmetry; by eapply Forall2_length|].
    intros i b0 Hi.
    destruct (Forall2_lookup_l _ _ _ _ _ Hk Hi) as (b1 & Hb1 & Hkept).
    exists b1. split; [done|]. exact Hkept.
  - apply physics_step_none.
  - intros b' r' H. apply respawn_clears_popped in H. apply H.
Qed.

(** C2, as the code has it: what one pair does to the generator.  A pair
    that is skipped or does not overlap draws nothing; so does a pair that is
    already separating, and a pair whose average pop chance is not above 0.
    Every other colliding pair draws exactly once, whether or not a body is
    then eliminated. *)
Theorem pair_draws bounds vis_a a b (r : SimpleRng) :
  snd (resolve_pair bounds vis_a a b (Some r)) =
  Some match pair_contact bounds vis_a a b with
       | None => r
       | Some c =>
           if (f0 <? vel_norm (c_nx c) (c_ny c) a b)%fl then r
           else if (f0 <? avg_pop a b)%fl then snd (rng_next r) else r
       end.
Proof.
  rewrite resolve_pair_cases.
  destruct (pair_contact bounds vis_a a b) as [c|]; [|done].
  destruct (f0 <? vel_norm (c_nx c) (c_ny c) a b)%fl; [done|].
  destruct (before_pop_fields c a b) as [(_ & Hpa & _) (_ & Hpb & _)].
  unfold pop_logic. rewrite (avg_pop_eq a b _ _ Hpa Hpb).
  destruct (f0 <? avg_pop a b)%fl; [|done].
  rewrite <- (rng_next_float01_state (F:=F) r).
  destruct (rng_next_float01 r) as [u r']. cbn [snd].
  destruct (u <? avg_pop a b)%fl; [|done].
  by destruct (radius (before_pop c a b).1 <=? radius (before_pop c a b).2)%fl.
Qed.

End GenericClaims.

(** * The claims on binary32 *)

Section Binary32Claims.

Import B32 Scenario.

(** C1 fails as stated: the eliminated body [popped_body] has inverse mass 1
    and moves, [dt] is [0.03f] and gravity is 10, yet after the step it is
    where it was, with the vertical velocity it had; a body that is not
    eliminated would have moved and accelerated. *)
Lemma popped_body_left_in_place :
  popped popped_body = true /\
  (f0 <? inv_mass popped_body)%fl = true /\
  (f0 <? dt)%fl = true /\
  exists b',
    physics_step (Some [popped_body]) 1 dt (of_Z 10) (Some arena) (Some rng0)
      = (Some [b'], Some rng0) /\
    x b' = x popped_body /\ y b' = y popped_body /\
    vx b' = vx popped_body /\ vy b' = vy popped_body /\
    x b' <> x (integrate_body dt (of_Z 10) (set_popped popped_body false)) /\
    y b' <> y (integrate_body dt (of_Z 10) (set_popped popped_body false)) /\
    vy b' <> vy (integrate_body dt (of_Z 10) (set_popped popped_body false)).
Proof.
  split; [reflexivity|]. split; [reflexivity|]. split; [reflexivity|].
  eexists. split; [vm_compute; reflexivity|].
  repeat split; try reflexivity; intros H; vm_compute in H; discriminate H.
Qed.

(** The amended C1 at [popped_body]. *)
Lemma popped_body_not_integrated_witness :
  exists bs' b',
    fst (physics_step (Some [popped_body]) 1 dt (of_Z 10) (Some arena) (Some rng0))
      = Some bs' /\
    bs' !! 0%nat = Some b' /\
    b' = tick_cooldown (wall_collide (Some arena) popped_body) /\
    y b' = y popped_body /\ vy b' = vy popped_body /\
    x b' = x (wall_collide (Some arena) popped_body) /\
    vx b' = vx (wall_collide (Some arena) popped_body) /\
    popped b' = true.
Proof.
  apply (popped_body_not_integrated [popped_body] 1 dt (of_Z 10) (Some arena)
           (Some rng0) 0 popped_body).
  - reflexivity.
  - reflexivity.
  - lia.
  - reflexivity.
Defined.

(** C9 at a negative timestep. *)
Lemma physics_step_noop_witness :
  physics_step (Some [left_in; right_in]) 2 (of_Z (-1)) (of_Z 0) (Some arena) (Some rng0)
  = (Some [left_in; right_in], Some rng0).
Proof.
  apply (physics_step_noop (Some [left_in; right_in]) 2 (of_Z (-1)) (of_Z 0)
           (Some arena) (Some rng0)).
  left. reflexivity.
Defined.

(** C2 fails as stated: [left_in] and [right_in] overlap, approach each
    other and bounce, their pop chances are 0, and the generator comes back
    as it went in. *)
Lemma no_draw_at_zero_pop_chance :
  let l1 := step_body dt (of_Z 0) (Some arena) left_in in
  let r1 := step_body dt (of_Z 0) (Some arena) right_in in
  is_Some (pair_contact (Some arena) true l1 r1) /\
  avg_pop l1 r1 = of_Z 0 /\
  (exists a' b',
     physics_step (Some [left_in; right_in]) 2 dt (of_Z 0) (Some arena) (Some rng0)
       = (Some [a'; b'], Some rng0) /\
     (vx a' <? f0)%fl = true /\ (f0 <? vx b')%fl = true) /\
  snd (rng_next rng0) <> rng0.
Proof.
  cbv zeta. split; [|split; [|split]].
  - vm_compute. eexists. reflexivity.
  - vm_compute. reflexivity.
  - eexists _, _. split; [vm_compute; reflexivity|]. split; reflexivity.
  - intros H. vm_compute in H. discriminate H.
Qed.

(** C8: [rng_next_float01] advances the generator as [rng_next] does and
    returns the binary32 number that is exactly
    [(rng_next() & 0x00FFFFFF) / 0x01000000]: the conversion of the masked
    integer and the division by [2^24] round nothing.  The number returned
    is at least 0 and less than 1. *)
Theorem rng_next_float01_unit (rng : SimpleRng) :
  let n := Z.land (fst (rng_next rng)) 0x00FFFFFF in
  let u := fst (rng_next_float01 (F:=spec_float) rng) in
  snd (rng_next_float01 (F:=spec_float) rng) = snd (rng_next rng) /\
  (exists q, to_Q u = Some q /\ (q == n # 16777216)%Q) /\
  (f0 <=? u)%fl = true /\ (u <? f1)%fl = true.
Proof.
  cbv zeta. split; [reflexivity|].
  apply (unit_quotient (Z.land (fst (rng_next rng)) 0x00FFFFFF)).
  apply land_mask_bounds.
Qed.

(** Every draw is below [1.0f]. *)
Lemma draw_below_one (r : SimpleRng) :
  (fst (rng_next_float01 (F:=spec_float) r) <? of_Z 1)%fl = true.
Proof.
  exact (proj2 (proj2 (unit_quotient (Z.land (fst (rng_next r)) 0x00FFFFFF)
                         (land_mask_bounds _)))).
Qed.

(** With both pop chances at 1 the pop logic eliminates a body on every
    draw: the first if its radius is at most the second's. *)
Lemma pop_logic_certain (a b : PhysicsBody spec_float) (r : SimpleRng) :
  pop_chance a = of_Z 1 -> pop_chance b = of_Z 1 ->
  pop_logic a b (Some r) =
  if (radius a <=? radius b)%fl
  then (set_popped a true, b, Some (snd (rng_next r)))
  else (a, set_popped b true, Some (snd (rng_next r))).
Proof.
  intros Ha Hb. unfold pop_logic, avg_pop. rewrite Ha, Hb.
  change ((of_Z 1 + of_Z 1) * fhalf)%fl with (of_Z 1).
  change (f0 <? of_Z 1)%fl with true. cbv iota.
  pose proof (draw_below_one r) as Hlt.
  pose proof (rng_next_float01_state (F:=spec_float) r) as Hs.
  destruct (rng_next_float01 r) as [u r']. cbn [fst snd] in *.
  rewrite Hlt, Hs. reflexivity.
Qed.

(** C6 fails as stated: [left_out] and [right_out] have pop chance 1 and
    overlap, the step resolves the overlap by pushing them apart, and
    because they already move apart neither is eliminated and nothing is
    drawn. *)
Lemma separating_pair_not_popped :
  let l1 := step_body dt (of_Z 0) (Some arena) left_out in
  let r1 := step_body dt (of_Z 0) (Some arena) right_out in
  pop_chance left_out = of_Z 1 /\ pop_chance right_out = of_Z 1 /\
  is_Some (pair_contact (Some arena) true l1 r1) /\
  (exists a' b',
     physics_step (Some [left_out; right_out]) 2 dt (of_Z 0) (Some arena) (Some rng0)
       = (Some [a'; b'], Some rng0) /\
     (x a' <? x l1)%fl = true /\ (x r1 <? x b')%fl = true /\
     popped a' = false /\ popped b' = false).
Proof.
  cbv zeta. split; [reflexivity|]. split; [reflexivity|]. split.
  - vm_compute. eexists. reflexivity.
  - eexists _, _. split; [vm_compute; reflexivity|]. repeat split; reflexivity.
Qed.

(** C6, as the code has it: a colliding pair that is not already separating
    and whose bodies both have pop chance 1 loses exactly one body to the pop
    logic, on every state of the generator: the first if its radius is at
    most the second's (so on a tie), else the second; the flag of the other
    body is as it was, and one value has been drawn. *)
Theorem certain_pop_hits_smaller (bounds : option (WorldBounds spec_float))
    (vis_a : bool) (a b : PhysicsBody spec_float) (r : SimpleRng)
    (c : Contact spec_float) :
  pair_contact bounds vis_a a b = Some c ->
  (f0 <? vel_norm (c_nx c) (c_ny c) a b)%fl = false ->
  pop_chance a = of_Z 1 ->
  pop_chance b = of_Z 1 ->
  let res := resolve_pair bounds vis_a a b (Some r) in
  let a' := fst (fst res) in
  let b' := snd (fst res) in
  snd res = Some (snd (rng_next r)) /\
  if (radius a <=? radius b)%fl
  then popped a' = true /\ popped b' = popped b
  else popped b' = true /\ popped a' = popped a.
Proof.
  intros Hc Hvn Ha Hb. cbv zeta.
  rewrite resolve_pair_cases, Hc, Hvn.
  destruct (before_pop_fields c a b) as [(Hra & Hpa & Hfa) (Hrb & Hpb & Hfb)].
  cbv zeta in *.
  rewrite pop_logic_certain by congruence.
  rewrite Hra, Hrb.
  destruct (radius a <=? radius b)%fl; cbn; auto.
Qed.

(** The amended C6 at two bodies at rest, the second the smaller. *)
Lemma certain_pop_hits_smaller_witness :
  let res := resolve_pair (Some arena) true big_still small_still (Some rng0) in
  snd res = Some (snd (rng_next rng0)) /\
  popped (snd (fst res)) = true /\ popped (fst (fst res)) = popped big_still.
Proof.
  eapply (certain_pop_hits_smaller (Some arena) true big_still small_still rng0).
  - vm_compute. reflexivity.
  - reflexivity.
  - reflexivity.
  - reflexivity.
Defined.

(** C3 fails as stated: for the body at (64, -25) with radius 5 and
    [min_y = 0] the test [y + radius < min_y - 20] compares -20 with -20 and
    is false.  The off-top pass, the popped pass and a whole tick leave the
    body at [y = -25], above the arena and not at or below [max_y]. *)
Lemma margin_body_not_respawned :
  x margin_body = of_Z 64 /\ y margin_body = of_Z (-25) /\
  radius margin_body = of_Z 5 /\ min_y arena = of_Z 0 /\
  (y margin_body + radius margin_body <? min_y arena - of_int 20)%fl = false /\
  respawn_off_top (app_of [margin_body]) = Some (app_of [margin_body]) /\
  respawn_popped (app_of [margin_body]) = Some (app_of [margin_body]) /\
  bubble_sim_tick (app_of [margin_body]) = Some (app_of [margin_body]) /\
  (y margin_body <? max_y arena)%fl = true /\
  (max_y arena <=? y margin_body)%fl = false.
Proof. repeat split; vm_compute; reflexivity. Qed.



(** *** The scenarios of the specification, run on binary32 *)

(** Two bodies of radius 5 at (60, 30) and (65, 30) that approach each
    other, restitution 0.8, pop chance 0: after the loop body has run their
    centers are 10 apart, the relative speed along the normal has dropped from
    2 to 1.6, and both have bounced. *)
Example approaching_pair_binary32 :
  exists c a' b',
    pair_contact (Some arena) true left_in right_in = Some c /\
    resolve_pair (Some arena) true left_in right_in (Some rng0) = (a', b', Some rng0) /\
    fsqrt (ph_len2 (x b' - x a') (y b' - y a'))%fl = of_Z 10 /\
    (- vel_norm (c_nx c) (c_ny c) a' b' <? - vel_norm (c_nx c) (c_ny c) left_in right_in)%fl
      = true /\
    (vx a' <? f0)%fl = true /\ (f0 <? vx b')%fl = true.
Proof.
  eexists _, _, _. split; [vm_compute; reflexivity|].
  split; [vm_compute; reflexivity|]. repeat split; vm_compute; reflexivity.
Qed.

(** The body at (64, -26) with radius 5 is beyond the margin: the off-top
    pass respawns it below the arena. *)
Example gone_body_respawned_binary32 :
  (y gone_body + radius gone_body <? min_y arena - of_int 20)%fl = true /\
  exists app' b',
    respawn_off_top (app_of [gone_body]) = Some app' /\
    app_bodies app' = [b'] /\
    (max_y arena <=? y b')%fl = true /\ spawn_cooldown b' = 10.
Proof.
  split; [reflexivity|]. eexists _, _. split; [vm_compute; reflexivity|].
  repeat split; vm_compute; reflexivity.
Qed.

(** A respawn in the 128x64 arena: between the walls, at least 45 below the
    arena, cooldown 10, flag cleared. *)
Example respawn_binary32 :
  exists b' r',
    bubble_respawn_body (app_of [popped_body]) popped_body = Some (b', r') /\
    (min_x arena + radius popped_body <=? x b')%fl = true /\
    (x b' <=? max_x arena - radius popped_body)%fl = true /\
    (max_y arena + radius popped_body + of_int 40 <=? y b')%fl = true /\
    spawn_cooldown b' = 10 /\ popped b' = false /\
    r' = snd (rng_next (snd (rng_next (snd (rng_next rng0))))).
Proof.
  eexists _, _. split; [vm_compute; reflexivity|].
  repeat split; vm_compute; reflexivity.
Qed.

End Binary32Claims.

(** * Binary32: the respawn *)

Section RespawnFields.

Context {F : Type} {ops : FloatOps F}.

(** What [bubble_respawn_body] writes, in terms of its first two draws. *)
Lemma respawn_position (app : BubbleApp F) b b' (rng' : SimpleRng) :
  bubble_respawn_body app b = Some (b', rng') ->
  let bd := app_bounds app in
  let u1 := fst (rng_next_float01 (F:=F) (app_rng app)) in
  let u2 := fst (rng_next_float01 (F:=F) (snd (rng_next_float01 (F:=F) (app_rng app)))) in
  x b' = ((min_x bd + radius b)
          + u1 * ((max_x bd - radius b) - (min_x bd + radius b)))%fl /\
  y b' = ((max_y bd + radius b + of_int 40) + u2 * of_int 20)%fl /\
  spawn_cooldown b' = SPAWN_COOLDOWN_FRAMES /\ popped b' = false.
Proof.
  unfold bubble_respawn_body. destruct (group_config app (group b)) as [cfg|]; [|done].
  cbn [mbind option_bind]. intros H. apply (inj Some) in H.
  apply (f_equal fst) in H. cbn [fst] in H. subst b'. done.
Qed.

End RespawnFields.

Section Binary32Respawn.

Import B32 Scenario.

Lemma SFadd_finite_inv (a b : spec_float) :
  is_finite (SFadd prec emax a b) = true -> is_finite a = true /\ is_finite b = true.
Proof. by destruct a as [[]|[]| |], b as [[]|[]| |]. Qed.

Lemma SFsub_finite_inv (a b : spec_float) :
  is_finite (SFsub prec emax a b) = true -> is_finite a = true /\ is_finite b = true.
Proof. by destruct a as [[]|[]| |], b as [[]|[]| |]. Qed.

(** The height of a respawned body: not above the base
    [max_y + r + 40] the code computes, which is not above [max_y]. *)
Lemma respawn_not_above (app : BubbleApp spec_float) b b' (rng' : SimpleRng) :
  bubble_respawn_body app b = Some (b', rng') ->
  valid (max_y (app_bounds app)) = true -> is_nan (max_y (app_bounds app)) = false ->
  valid (radius b) = true -> is_finite (radius b) = true -> 0 <= ord (radius b) ->
  (max_y (app_bounds app) <=? y b')%fl = true /\
  (max_y (app_bounds app) + radius b + of_int 40 <=? y b')%fl = true.
Proof.
  intros Hb Hvm Hnm Hvr Hfr Hr0.
  destruct (respawn_position app b b' rng' Hb) as (_ & Hy & _). cbv zeta in Hy.
  cbn [fadd fmul fleb of_int binary32] in Hy |- *. rewrite Hy.
  set (u2 := fst (rng_next_float01 _)).
  destruct (SFadd_ge_left (max_y (app_bounds app)) (radius b) Hvm Hvr Hnm Hfr Hr0)
    as (Hv1 & Hn1 & Ho1).
  set (b1 := SFadd prec emax (max_y (app_bounds app)) (radius b)) in *.
  destruct (SFadd_ge_left b1 (of_Z 40) Hv1 eq_refl Hn1 eq_refl ltac:(by vm_compute))
    as (Hv2 & Hn2 & Ho2).
  set (b2 := SFadd prec emax b1 (of_Z 40)) in *.
  destruct (draw_mul_spec (snd (rng_next_float01 (F:=spec_float) (app_rng app))) (of_Z 20)
              eq_refl eq_refl ltac:(by vm_compute)) as (Hvq & Hfq & [Hq0 _] & _).
  fold u2 in Hvq, Hfq, Hq0.
  destruct (SFadd_ge_left b2 (SFmul prec emax u2 (of_Z 20)) Hv2 Hvq Hn2 Hfq Hq0)
    as (Hv3 & Hn3 & Ho3).
  split; apply SFleb_ord; try done; lia.
Qed.

(** The test of the off-top pass on a body of radius 5 above [y = -25] in
    an arena with [min_y = 0]: the sum [y + 5] rounds to a number below
    [-20]. *)
Lemma off_top_test (yb : spec_float) :
  valid yb = true -> SFltb yb (of_Z (-25)) = true ->
  SFltb (SFadd prec emax yb (of_Z 5)) (SFsub prec emax (of_Z 0) (of_Z 20)) = true.
Proof.
  intros Hv Hlt. destruct (SFltb_not_nan _ _ Hlt) as [Hn _].
  apply SFltb_ord in Hlt; [|done..].
  change (SFsub prec emax (of_Z 0) (of_Z 20)) with (S754_finite true 10485760 (-19)).
  change (ord (of_Z (-25))) with (- (13107200 * 2 ^ 130)) in Hlt.
  destruct (is_finite yb) eqn:Hf.
  - destruct (SFadd_rounds yb (of_Z 5) Hv eq_refl Hf eq_refl) as (Hvs & Hns & Hs).
    apply SFltb_ord; [done..|].
    pose proof (ord_succ 13107200 (-19) (SFopp yb) eq_refl) as Hgap.
    rewrite valid_opp, finite_opp, ord_opp in Hgap.
    specialize (Hgap Hv Hf). change (2 ^ (-19 + 149)) with (2 ^ 130) in Hgap.
    specialize (Hgap ltac:(lia)).
    destruct (Hs (S754_finite true 10485761 (-19)) eq_refl eq_refl) as [_ Hup].
    change (ord (S754_finite true 10485761 (-19))) with (- (10485761 * 2 ^ 130)) in Hup.
    change (ord (of_Z 5)) with (2621440 * 2 ^ 130) in Hup.
    change (ord (S754_finite true 10485760 (-19))) with (- (10485760 * 2 ^ 130)).
    assert (0 < 2 ^ 130) by done. lia.
  - by destruct yb as [|[]| |].
Qed.

Lemma finite_not_nan (f : spec_float) : is_finite f = true -> is_nan f = false.
Proof. by destruct f. Qed.

(** [bubble_respawn_body] draws [x] from the interval whose ends are
    [min_x + r] and [max_x - r], each rounded once.  When that interval is
    not empty and its width is finite, the new [x] is in it, both ends
    included: the product of the draw and the width is not negative, and it
    is not more than the exact difference of the ends even when the width
    was rounded up.  The new [y] is at least the base [max_y + r + 40] as the
    code rounds it, and at least [max_y]. *)
Lemma respawn_in_interval (app : BubbleApp spec_float) b b' (rng' : SimpleRng) :
  bubble_respawn_body app b = Some (b', rng') ->
  valid (min_x (app_bounds app)) = true ->
  valid (max_x (app_bounds app)) = true ->
  valid (max_y (app_bounds app)) = true ->
  is_nan (max_y (app_bounds app)) = false ->
  valid (radius b) = true ->
  (f0 <=? radius b)%fl = true ->
  is_finite ((max_x (app_bounds app) - radius b)
             - (min_x (app_bounds app) + radius b))%fl = true ->
  (min_x (app_bounds app) + radius b <=? max_x (app_bounds app) - radius b)%fl = true ->
  (min_x (app_bounds app) + radius b <=? x b')%fl = true /\
  (x b' <=? max_x (app_bounds app) - radius b)%fl = true /\
  (max_y (app_bounds app) <=? y b')%fl = true /\
  (max_y (app_bounds app) + radius b + of_int 40 <=? y b')%fl = true /\
  spawn_cooldown b' = 10 /\
  popped b' = false.
Proof.
  intros Hb Hvmn Hvmx Hvmy Hnmy Hvr Hr0 Hfw Hle.
  destruct (respawn_position app b b' rng' Hb) as (Hx & _ & Hcd & Hpop). cbv zeta in Hx.
  cbn [fadd fsub fmul fleb of_int binary32] in Hx, Hr0, Hfw, Hle |- *.
  set (mn := min_x (app_bounds app)) in *. set (mx := max_x (app_bounds app)) in *.
  set (r := radius b) in *.
  destruct (SFsub_finite_inv _ _ Hfw) as [Hfhi Hflo].
  destruct (SFadd_finite_inv _ _ Hflo) as [Hfmn Hfr].
  destruct (SFsub_finite_inv _ _ Hfhi) as [Hfmx _].
  destruct (SFadd_rounds mn r Hvmn Hvr Hfmn Hfr) as (Hvlo & Hnlo & _).
  destruct (SFsub_rounds mx r Hvmx Hvr Hfmx Hfr) as (Hvhi & Hnhi & _).
  set (lo := SFadd prec emax mn r) in *. set (hi := SFsub prec emax mx r) in *.
  apply SFleb_ord in Hle; [|done..].
  pose proof (SFsub_rounds hi lo Hvhi Hvlo Hfhi Hflo) as Hw.
  pose proof Hw as (Hvw & _ & _).
  destruct (rounds_to_sign _ _ Hw) as [Hw0 _]. specialize (Hw0 ltac:(lia)).
  destruct (draw_mul_spec (app_rng app) _ Hvw Hfw Hw0) as (Hvp & Hfp & [Hp0 _] & Hstrict).
  specialize (Hstrict (ord hi - ord lo) ltac:(lia) Hw).
  set (p := SFmul prec emax _ _) in *.
  destruct (SFadd_rounds lo p Hvlo Hvp Hflo Hfp) as (Hvx & Hnx & Hsx).
  rewrite <- Hx in Hvx, Hnx, Hsx.
  apply SFleb_ord in Hr0; [|done|done|done|by apply finite_not_nan].
  change (ord f0) with 0 in Hr0.
  destruct (respawn_not_above app b b' rng' Hb Hvmy Hnmy Hvr Hfr Hr0) as [Hy1 Hy2].
  split; [apply SFleb_ord; [done..|]; apply (Hsx lo Hvlo Hflo); lia|].
  split; [apply SFleb_ord; [done..|]; apply (Hsx hi Hvhi Hfhi); lia|].
  done.
Qed.

(** The interval of the respawn is not empty when the radius is at most
    half the width of the arena: rounding keeps the order of the two ends. *)
Lemma half_width_interval (mn mx r : spec_float) :
  valid mn = true -> valid mx = true -> valid r = true ->
  is_finite mn = true -> is_finite mx = true -> is_finite r = true ->
  ord r + ord r <= ord mx - ord mn ->
  SFleb (SFadd prec emax mn r) (SFsub prec emax mx r) = true.
Proof.
  intros Hvmn Hvmx Hvr Hfmn Hfmx Hfr Hhalf.
  destruct (SFadd_rounds mn r Hvmn Hvr Hfmn Hfr) as (Hvlo & Hnlo & _).
  destruct (SFsub_rounds mx r Hvmx Hvr Hfmx Hfr) as (Hvhi & Hnhi & _).
  apply SFleb_ord; [done..|].
  rewrite SFadd_exact, SFsub_exact by done. apply sRN_mono. lia.
Qed.

(** C7, on the numbers the code computes.  For a body whose radius is not
    negative and at most half the width of the arena
    ([r + r <= max_x - min_x] as numbers, without rounding), in an arena
    whose bounds are binary32 numbers, [max_y] not a NaN, and where the width
    of the interval [max_x - r - (min_x + r)] does not overflow,
    [bubble_respawn_body] puts
    the body between [min_x + r] and [max_x - r], each rounded once to
    binary32, both ends included; the new [y] is at least the base
    [max_y + r + 40] as the code rounds it, and at least [max_y]; the
    cooldown is [SPAWN_COOLDOWN_FRAMES] and the flag is cleared. *)
Theorem respawn_placement (app : BubbleApp spec_float) b b' (rng' : SimpleRng) :
  bubble_respawn_body app b = Some (b', rng') ->
  valid (min_x (app_bounds app)) = true ->
  valid (max_x (app_bounds app)) = true ->
  valid (max_y (app_bounds app)) = true ->
  is_nan (max_y (app_bounds app)) = false ->
  valid (radius b) = true ->
  (f0 <=? radius b)%fl = true ->
  ord (radius b) + ord (radius b)
    <= ord (max_x (app_bounds app)) - ord (min_x (app_bounds app)) ->
  is_finite ((max_x (app_bounds app) - radius b)
             - (min_x (app_bounds app) + radius b))%fl = true ->
  (min_x (app_bounds app) + radius b <=? x b')%fl = true /\
  (x b' <=? max_x (app_bounds app) - radius b)%fl = true /\
  (max_y (app_bounds app) <=? y b')%fl = true /\
  (max_y (app_bounds app) + radius b + of_int 40 <=? y b')%fl = true /\
  spawn_cooldown b' = 10 /\
  popped b' = false.
Proof.
  intros Hb Hvmn Hvmx Hvmy Hnmy Hvr Hr0 Hhalf Hfw.
  apply (respawn_in_interval app b b' rng'); try done.
  cbn [fadd fsub fleb binary32] in Hfw |- *.
  destruct (SFsub_finite_inv _ _ Hfw) as [Hfhi Hflo].
  destruct (SFadd_finite_inv _ _ Hflo) as [Hfmn Hfr].
  destruct (SFsub_finite_inv _ _ Hfhi) as [Hfmx _].
  by apply half_width_interval.
Qed.

(** C3, as the code has it: a body of radius 5 in an arena with
    [min_y = 0] whose [y] is a binary32 number (or an infinity) less than
    -25, so that the rounded [y + radius] is less than [min_y - 20], is
    respawned by the off-top pass of the run loop, and afterwards its [y] is
    at least [max_y], whatever binary32 number or infinity [max_y] is.  (At
    [y = -25] itself the test is false and the body stays.) *)
Theorem off_top_body_respawned (app : BubbleApp spec_float) (i : nat) b :
  groups_ok app ->
  app_bodies app !! i = Some b ->
  (i < app_body_count app)%nat ->
  radius b = of_Z 5 ->
  min_y (app_bounds app) = of_Z 0 ->
  valid (y b) = true ->
  (y b <? of_Z (-25))%fl = true ->
  valid (max_y (app_bounds app)) = true ->
  is_nan (max_y (app_bounds app)) = false ->
  exists app' b',
    respawn_off_top app = Some app' /\
    app_bounds app' = app_bounds app /\
    app_bodies app' !! i = Some b' /\
    (max_y (app_bounds app) <=? y b')%fl = true.
Proof.
  intros Hok Hi Hlt Hr Hmin Hvy Hy Hvm Hnm.
  destruct (respawn_off_top_slot app i b Hok Hi Hlt)
    as (app' & app1 & b' & r' & Hpass & Hset1 & Hset & Hb' & Hslot).
  { rewrite Hr, Hmin. by apply off_top_test. }
  exists app', b'. split; [done|]. split; [apply Hset|]. split; [done|].
  destruct Hset1 as (Hbd & _).
  destruct (respawn_not_above app1 b b' r' Hb') as [Hy1 _];
    rewrite ?Hbd, ?Hr; try done.
  by rewrite Hbd in Hy1.
Qed.

(** C7 fails against the unrounded interval, for the strict inequality and
    where the width overflows.  In the 128x64 arena a body of radius
    [16.2f], well below half the width, is respawned at
    [x = 14522778 * 2^-17], which is what [max_x - r] rounds to and is
    greater than 127 minus the radius; in an arena with [max_y = 2^30] the
    offsets are absorbed and the respawned body has [y = max_y], not more;
    in an arena from [-2^127] to [2^127] the width of the interval is
    infinite and so is the new [x]. *)
Lemma respawn_beyond_real_bound :
  (exists b' r' qx qr qmax,
     bubble_respawn_body edge_app wide_body = Some (b', r') /\
     ord (radius wide_body) + ord (radius wide_body)
       <= ord (max_x arena) - ord (min_x arena) /\
     to_Q (x b') = Some qx /\ to_Q (radius wide_body) = Some qr /\
     to_Q (max_x arena) = Some qmax /\
     (qmax - qr < qx)%Q) /\
  (exists b' r',
     bubble_respawn_body deep_app popped_body = Some (b', r') /\
     y b' = max_y deep_arena /\
     (max_y deep_arena <? y b')%fl = false) /\
  (exists b' r',
     bubble_respawn_body vast_app popped_body = Some (b', r') /\
     ord (radius popped_body) + ord (radius popped_body)
       <= ord (max_x vast_arena) - ord (min_x vast_arena) /\
     ((max_x vast_arena - radius popped_body)
      - (min_x vast_arena + radius popped_body))%fl = S754_infinity false /\
     x b' = S754_infinity false /\
     (x b' <=? max_x vast_arena - radius popped_body)%fl = false).
Proof.
  split; [|split].
  - eexists _, _, _, _, _. split; [vm_compute; reflexivity|].
    split; [by vm_compute|]. repeat split; vm_compute; reflexivity.
  - eexists _, _. split; [vm_compute; reflexivity|]. repeat split; vm_compute; reflexivity.
  - eexists _, _. split; [vm_compute; reflexivity|].
    split; [by vm_compute|]. repeat split; vm_compute; reflexivity.
Qed.

Lemma gone_groups_ok : groups_ok (app_of [gone_body]).
Proof. intros [|j] b Hb; [|done]. apply (inj Some) in Hb. subst b. by eexists. Qed.

(** The amended C3 at the body at (64, -26). *)
Lemma off_top_body_respawned_witness :
  exists app' b',
    respawn_off_top (app_of [gone_body]) = Some app' /\
    app_bounds app' = arena /\
    app_bodies app' !! 0%nat = Some b' /\
    (max_y arena <=? y b')%fl = true.
Proof.
  apply (off_top_body_respawned (app_of [gone_body]) 0 gone_body).
  - exact gone_groups_ok.
  - reflexivity.
  - cbn. lia.
  - reflexivity.
  - reflexivity.
  - reflexivity.
  - reflexivity.
  - reflexivity.
  - reflexivity.
Defined.

(** The amended C7 at a body of radius 5 in the 128x64 arena. *)
Lemma respawn_placement_witness :
  exists b' rng',
    bubble_respawn_body (app_of [popped_body]) popped_body = Some (b', rng') /\
    (min_x arena + radius popped_body <=? x b')%fl = true /\
    (x b' <=? max_x arena - radius popped_body)%fl = true /\
    (max_y arena <=? y b')%fl = true /\
    (max_y arena + radius popped_body + of_int 40 <=? y b')%fl = true /\
    spawn_cooldown b' = 10 /\
    popped b' = false.
Proof.
  eexists _, _. split; [reflexivity|].
  eapply (respawn_placement (app_of [popped_body]) popped_body);
    first [reflexivity | by vm_compute].
Defined.

End Binary32Respawn.

(** * Exact arithmetic: facts and claims *)

Section ExactArithmetic.

Import Exact.

Local Open Scope R_scope.

Implicit Types (a b : PhysicsBody R) (c : Contact R).

Lemma Rltb_true (u v : R) : Rltb u v = true <-> u < v.
Proof. unfold Rltb. destruct (Rlt_dec u v); split; (done || lra). Qed.



(** Unfold the interface at the reals. *)
Ltac to_R :=
  unfold f0, f1, fhalf, lit in *;
  cbn [fadd fsub fmul fdiv fneg fsqrt fltb fleb of_int real_ops] in *.

(** The draw of [rng_next_float01] is in the unit interval. *)
Lemma unit_draw (rng : SimpleRng) :
  0 <= fst (rng_next_float01 (F:=R) rng) < 1.
Proof.
  unfold rng_next_float01, rng_next. cbn [fst]. to_R.
  pose proof (land_mask_bounds ((state rng * 1664525 + 1013904223) mod 2 ^ 32)) as [Hlo Hhi].
  apply IZR_le in Hlo. apply IZR_lt in Hhi. change (2 ^ 24)%Z with 16777216%Z in Hhi.
  set (n := IZR (Z.land _ _)) in *.
  split.
  - apply Rmult_le_pos; [exact Hlo|]. left. apply Rinv_0_lt_compat. lra.
  - apply (Rmult_lt_reg_r 16777216); [lra|].
    unfold Rdiv. rewrite Rmult_assoc, Rinv_l by lra. lra.
Qed.









(** Without rounding, [bubble_respawn_body] on a body of positive radius at
    most half the width of the arena puts it between the walls,
    [min_x + r <= x <= max_x - r], and below the arena by at least the base
    offset [r + 40] ([y >= max_y + r + 40], so [y > max_y]); the cooldown is
    [SPAWN_COOLDOWN_FRAMES] and the flag is cleared. *)
Lemma respawn_placement_exact (app : BubbleApp R) b b' (rng' : SimpleRng) :
  bubble_respawn_body app b = Some (b', rng') ->
  0 < radius b ->
  2 * radius b <= max_x (app_bounds app) - min_x (app_bounds app) ->
  (min_x (app_bounds app) + radius b <= x b' <= max_x (app_bounds app) - radius b) /\
  max_y (app_bounds app) < y b' /\
  max_y (app_bounds app) + (radius b + 40) <= y b' /\
  spawn_cooldown b' = 10%Z /\
  popped b' = false.
Proof.
  unfold bubble_respawn_body. intros H Hr Hw.
  destruct (group_config app (group b)) as [cfg|]; [|done]. cbn in H.
  injection H as <- <-. cbn.
  pose proof (unit_draw (app_rng app)) as Hu1.
  pose proof (unit_draw (snd (rng_next_float01 (F:=R) (app_rng app)))) as Hu2.
  cbn in Hu1, Hu2.
  set (u1 := IZR _ / _) in Hu1 |- *. set (u2 := IZR _ / _) in Hu2 |- *.
  set (w := max_x (app_bounds app) - radius b - (min_x (app_bounds app) + radius b)).
  assert (0 <= w) by (unfold w; lra).
  assert (0 <= u1 * w <= w) by nra.
  assert (0 <= u2 * 20) by nra.
  repeat split; try done; unfold w in *; lra.
Qed.

(** A respawned body is at least [r + 40] below the arena. *)
Lemma respawn_height (app : BubbleApp R) b b' (rng' : SimpleRng) :
  bubble_respawn_body app b = Some (b', rng') ->
  max_y (app_bounds app) + radius b + 40 <= y b'.
Proof.
  unfold bubble_respawn_body. intros H.
  destruct (group_config app (group b)) as [cfg|]; [|done]. cbn in H.
  injection H as <- <-. cbn.
  pose proof (unit_draw (snd (rng_next_float01 (F:=R) (app_rng app)))) as Hu2.
  cbn in Hu2. set (u2 := IZR _ / _) in Hu2 |- *. nra.
Qed.

(** Without rounding, a body of radius 5 in an arena with [min_y = 0] that
    is strictly above [y = -25] is respawned by the off-top pass of the run
    loop at [max_y + 45] or below. *)
Lemma off_top_body_respawned_exact (app : BubbleApp R) (i : nat) b :
  groups_ok app ->
  app_bodies app !! i = Some b ->
  (i < app_body_count app)%nat ->
  radius b = 5 ->
  min_y (app_bounds app) = 0 ->
  y b < -25 ->
  exists app' b',
    respawn_off_top app = Some app' /\
    app_bounds app' = app_bounds app /\
    app_bodies app' !! i = Some b' /\
    max_y (app_bounds app) <= y b' /\
    max_y (app_bounds app) + 45 <= y b'.
Proof.
  intros Hok Hi Hlt Hr Hmin Hy.
  destruct (respawn_off_top_slot app i b Hok Hi Hlt)
    as (app' & app1 & b' & r' & Hpass & Hset1 & Hset & Hb' & Hslot).
  { to_R. apply Rltb_true. lra. }
  exists app', b'. split; [done|]. split; [apply Hset|]. split; [done|].
  apply respawn_height in Hb'. destruct Hset1 as (Hbd & _). rewrite Hbd in Hb'.
  split; lra.
Qed.


End ExactArithmetic.

Section ExactWitnesses.

Import Exact RealScenario.

Local Open Scope R_scope.




(** The respawn without rounding, at a body of radius 5 in the 128x64
    arena. *)
Example respawn_placement_exact_at_gone_body :
  exists b' rng',
    bubble_respawn_body (app_of [gone_body]) gone_body = Some (b', rng') /\
    (min_x arena + radius gone_body <= x b' <= max_x arena - radius gone_body) /\
    max_y arena < y b' /\
    max_y arena + (radius gone_body + 40) <= y b' /\
    spawn_cooldown b' = 10%Z /\
    popped b' = false.
Proof.
  eexists _, _. split; [reflexivity|].
  eapply (respawn_placement_exact (app_of [gone_body]) gone_body).
  - reflexivity.
  - cbn. lra.
  - cbn. lra.
Qed.

(** The off-top pass without rounding, at the body at (64, -26). *)
Example off_top_body_respawned_exact_at_gone_body :
  exists app' b',
    respawn_off_top (app_of [gone_body]) = Some app' /\
    app_bounds app' = app_bounds (app_of [gone_body]) /\
    app_bodies app' !! 0%nat = Some b' /\
    max_y arena <= y b' /\
    max_y arena + 45 <= y b'.
Proof.
  apply (off_top_body_respawned_exact (app_of [gone_body]) 0 gone_body).
  - intros [|j] b Hb; [|done]. injection Hb as <-. by eexists.
  - reflexivity.
  - cbn. lia.
  - reflexivity.
  - reflexivity.
  - cbn. lra.
Qed.

End ExactWitnesses.

(** * More of the generator *)

Section Generator.

Implicit Types (r : SimpleRng).

Lemma rng_next_state r :
  state (snd (rng_next r)) = (state r * 1664525 + 1013904223) mod 2 ^ 32.
Proof. reflexivity. Qed.

Lemma rng_next_value r : fst (rng_next r) = state (snd (rng_next r)).
Proof. reflexivity. Qed.

Lemma rng_prev_next (s : Z) :
  0 <= s < 2 ^ 32 ->
  rng_prev ((s * 1664525 + 1013904223) mod 2 ^ 32) = s.
Proof.
  intros Hs. unfold rng_prev.
  rewrite <- Z.mul_mod_idemp_l, Zminus_mod_idemp_l, Z.mul_mod_idemp_l by lia.
  replace ((s * 1664525 + 1013904223 - 1013904223) * 4276115653)
    with (s + s * 1657219 * 2 ^ 32) by (change (2 ^ 32) with 4294967296; lia).
  rewrite Z.mod_add by lia. apply Z.mod_small. exact Hs.
Qed.

Lemma rng_next_prev (v : Z) :
  0 <= v < 2 ^ 32 ->
  (rng_prev v * 1664525 + 1013904223) mod 2 ^ 32 = v.
Proof.
  intros Hv. unfold rng_prev.
  rewrite <- Z.add_mod_idemp_l, Z.mul_mod_idemp_l, Z.add_mod_idemp_l by lia.
  replace ((v - 1013904223) * 4276115653 * 1664525 + 1013904223)
    with (v + (v - 1013904223) * 1657219 * 2 ^ 32) by (change (2 ^ 32) with 4294967296; lia).
  rewrite Z.mod_add by lia. apply Z.mod_small. exact Hv.
Qed.

(** X1: one draw is a bijection of the 32-bit states: two different states
    lead to different states, every state is reached from exactly the state
    [rng_prev] names, and the state after a draw is again a 32-bit value. *)
Theorem rng_next_bijective r1 r2 (v : Z) :
  0 <= state r1 < 2 ^ 32 ->
  0 <= state r2 < 2 ^ 32 ->
  0 <= v < 2 ^ 32 ->
  (fst (rng_next r1) = fst (rng_next r2) -> r1 = r2) /\
  0 <= state (snd (rng_next r1)) < 2 ^ 32 /\
  0 <= rng_prev v < 2 ^ 32 /\
  fst (rng_next {| state := rng_prev v |}) = v /\
  rng_prev (fst (rng_next r1)) = state r1.
Proof.
  intros H1 H2 Hv. split; [|split; [|split; [|split]]].
  - intros Heq. rewrite !rng_next_value, !rng_next_state in Heq.
    apply (f_equal rng_prev) in Heq. rewrite !rng_prev_next in Heq by done.
    destruct r1, r2. cbn in Heq. by subst.
  - rewrite rng_next_state. apply Z.mod_pos_bound. lia.
  - unfold rng_prev. apply Z.mod_pos_bound. lia.
  - rewrite rng_next_value, rng_next_state. cbn [state]. by apply rng_next_prev.
  - rewrite rng_next_value, rng_next_state. by apply rng_prev_next.
Qed.

(** *** The period *)

Lemma rng_skip_add (n m : N) r : rng_skip (n + m) r = rng_skip n (rng_skip m r).
Proof. unfold rng_skip. apply N.iter_add. Qed.

Lemma rng_skip_mul (m p : N) r : rng_skip (m * p) r = N.iter m (rng_skip p) r.
Proof.
  induction m as [|m IH] using N.peano_ind.
  - reflexivity.
  - rewrite N.mul_succ_l, N.add_comm, rng_skip_add, IH, N.iter_succ. reflexivity.
Qed.

(** [2^k] draws as one affine map. *)
Lemma rng_skip_pow2 (k : nat) r :
  state (rng_skip (2 ^ N.of_nat k) r)
  = (fst (lcg_pow2 k) * state r + snd (lcg_pow2 k)) mod 2 ^ 32.
Proof.
  revert r. induction k as [|k IH]; intros r.
  - change (rng_skip (2 ^ N.of_nat 0) r) with (snd (rng_next r)).
    rewrite rng_next_state. change (lcg_pow2 0) with (1664525, 1013904223).
    cbn [fst snd]. f_equal. lia.
  - rewrite Nat2N.inj_succ, N.pow_succ_r'.
    replace (2 * 2 ^ N.of_nat k)%N with (2 ^ N.of_nat k + 2 ^ N.of_nat k)%N by lia.
    rewrite rng_skip_add, !IH.
    change (lcg_pow2 (S k)) with (lcg_double (lcg_pow2 k)).
    destruct (lcg_pow2 k) as [A C]. cbn [fst snd lcg_double].
    rewrite <- Z.add_mod_idemp_l, Z.mul_mod_idemp_r, Z.add_mod_idemp_l by lia.
    rewrite Z.add_mod_idemp_r by lia.
    rewrite <- (Z.add_mod_idemp_l (A * A mod 2 ^ 32 * state r)) by lia.
    rewrite Z.mul_mod_idemp_l, Z.add_mod_idemp_l by lia.
    f_equal. ring.
Qed.

(** The table of the 32 doublings: modulo [2^(j+1)], [2^j] draws add
    [2^j]. *)
Lemma lcg_pow2_table (j : nat) :
  (j < 32)%nat ->
  fst (lcg_pow2 j) mod 2 ^ (Z.of_nat j + 1) = 1 /\
  snd (lcg_pow2 j) mod 2 ^ (Z.of_nat j + 1) = 2 ^ Z.of_nat j.
Proof.
  intros Hj.
  assert (forallb (fun j => (fst (lcg_pow2 j) mod 2 ^ (Z.of_nat j + 1) =? 1) &&
                            (snd (lcg_pow2 j) mod 2 ^ (Z.of_nat j + 1) =? 2 ^ Z.of_nat j))
                  (seq 0 32) = true) as Hall by (vm_compute; reflexivity).
  rewrite forallb_forall in Hall. specialize (Hall j).
  rewrite in_seq in Hall. specialize (Hall ltac:(lia)).
  apply andb_true_iff in Hall as [HA HC]. split; by apply Z.eqb_eq.
Qed.

Lemma rng_skip_pow2_step (j : nat) r :
  (j < 32)%nat ->
  state (rng_skip (2 ^ N.of_nat j) r) mod 2 ^ (Z.of_nat j + 1)
  = (state r + 2 ^ Z.of_nat j) mod 2 ^ (Z.of_nat j + 1).
Proof.
  intros Hj. rewrite rng_skip_pow2.
  destruct (lcg_pow2_table j Hj) as [HA HC].
  destruct (lcg_pow2 j) as [A C]. cbn [fst snd] in *.
  assert (0 < 2 ^ (Z.of_nat j + 1)) as Hpos by (apply Z.pow_pos_nonneg; lia).
  rewrite Z.mod_mod_divide.
  2:{ exists (2 ^ (32 - (Z.of_nat j + 1))).
      rewrite <- Z.pow_add_r by lia. f_equal. lia. }
  rewrite <- Z.add_mod_idemp_l, <- Z.mul_mod_idemp_l, HA by lia.
  rewrite Z.add_mod_idemp_l by lia.
  rewrite <- Z.add_mod_idemp_r, HC, Z.mul_1_l by lia. reflexivity.
Qed.

Lemma rng_skip_multiple (j : nat) (m : N) r :
  (j < 32)%nat ->
  state (N.iter m (rng_skip (2 ^ N.of_nat j)) r) mod 2 ^ (Z.of_nat j + 1)
  = (state r + Z.of_N m * 2 ^ Z.of_nat j) mod 2 ^ (Z.of_nat j + 1).
Proof.
  intros Hj. induction m as [|m IH] using N.peano_ind.
  - cbn. f_equal. lia.
  - assert (0 < 2 ^ (Z.of_nat j + 1)) as Hpos by (apply Z.pow_pos_nonneg; lia).
    rewrite N.iter_succ, rng_skip_pow2_step by done.
    rewrite <- Z.add_mod_idemp_l, IH, Z.add_mod_idemp_l by lia.
    f_equal. lia.
Qed.

(** Every positive number is an odd multiple of a power of two. *)
Lemma odd_part (p : positive) :
  exists (j : nat) (m : N), N.pos p = (m * 2 ^ N.of_nat j)%N /\ N.odd m = true.
Proof.
  induction p as [p _ | p IH |].
  - exists 0%nat, (N.pos p~1). split; [cbn; lia|reflexivity].
  - destruct IH as (j & m & Hp & Hm). exists (S j), m. split; [|done].
    rewrite Nat2N.inj_succ, N.pow_succ_r'. lia.
  - exists 0%nat, 1%N. split; reflexivity.
Qed.

(** X2: the generator has full period.  From any 32-bit state, [2^32] draws
    bring the state back, and no smaller positive number of draws does: all
    [2^32] states are visited before the first repetition. *)
Theorem rng_full_period r (n : N) :
  0 <= state r < 2 ^ 32 ->
  rng_skip 4294967296 r = r /\
  ((0 < n < 4294967296)%N -> rng_skip n r <> r).
Proof.
  intros Hr. split.
  - pose proof (rng_skip_pow2 32 r) as H32.
    change (2 ^ N.of_nat 32)%N with 4294967296%N in H32.
    change (lcg_pow2 32) with (1, 0) in H32. cbn [fst snd] in H32.
    rewrite Z.mul_1_l, Z.add_0_r, Z.mod_small in H32 by done.
    destruct r as [s], (rng_skip 4294967296 {| state := s |}) as [s'].
    cbn in H32. by subst.
  - intros [Hn0 Hn] Heq. destruct n as [|p]; [lia|].
    destruct (odd_part p) as (j & m & Hp & Hm).
    assert (j < 32)%nat as Hj.
    { destruct (Nat.lt_ge_cases j 32) as [|Hge]; [done|exfalso].
      assert (2 ^ 32 <= 2 ^ N.of_nat j)%N by (apply N.pow_le_mono_r; lia).
      assert (1 <= m)%N by (destruct m; [discriminate|lia]).
      change (2 ^ 32)%N with 4294967296%N in *. nia. }
    rewrite Hp, rng_skip_mul in Heq.
    pose proof (rng_skip_multiple j m r Hj) as Hstep. rewrite Heq in Hstep.
    assert (0 < 2 ^ Z.of_nat j) as Hpj by (apply Z.pow_pos_nonneg; lia).
    apply N.odd_spec in Hm as [q ->].
    replace (Z.of_N (2 * q + 1) * 2 ^ Z.of_nat j)
      with (2 ^ Z.of_nat j + Z.of_N q * 2 ^ (Z.of_nat j + 1)) in Hstep
      by (rewrite Z.pow_add_r by lia; lia).
    rewrite Z.add_assoc, Z.mod_add in Hstep by lia.
    assert (2 ^ (Z.of_nat j + 1) = 2 * 2 ^ Z.of_nat j) as Hpow
      by (rewrite Z.pow_add_r by lia; lia).
    rewrite Hpow in Hstep.
    pose proof (Z.mod_pos_bound (state r) (2 * 2 ^ Z.of_nat j) ltac:(lia)) as Hb.
    set (t := state r mod (2 * 2 ^ Z.of_nat j)) in *.
    rewrite <- Z.add_mod_idemp_l in Hstep by lia. fold t in Hstep.
    destruct (Z.lt_ge_cases (t + 2 ^ Z.of_nat j) (2 * 2 ^ Z.of_nat j)) as [Hlt|Hge].
    + rewrite Z.mod_small in Hstep by lia. lia.
    + replace (t + 2 ^ Z.of_nat j)
        with (t - 2 ^ Z.of_nat j + 1 * (2 * 2 ^ Z.of_nat j)) in Hstep by lia.
      rewrite Z.mod_add, Z.mod_small in Hstep by lia. lia.
Qed.

(** X1 at three states. *)
Lemma rng_next_bijective_witness :
  (fst (rng_next (rng_init 1)) = fst (rng_next (rng_init 2)) -> rng_init 1 = rng_init 2) /\
  0 <= state (snd (rng_next (rng_init 1))) < 2 ^ 32 /\
  0 <= rng_prev 1015568748 < 2 ^ 32 /\
  fst (rng_next {| state := rng_prev 1015568748 |}) = 1015568748 /\
  rng_prev (fst (rng_next (rng_init 1))) = state (rng_init 1).
Proof.
  apply (rng_next_bijective (rng_init 1) (rng_init 2) 1015568748); cbn; lia.
Defined.

(** X2 at the state 1, for two draws. *)
Lemma rng_full_period_witness :
  rng_skip 4294967296 (rng_init 1) = rng_init 1 /\
  ((0 < 2 < 4294967296)%N -> rng_skip 2 (rng_init 1) <> rng_init 1).
Proof. apply (rng_full_period (rng_init 1) 2). cbn. lia. Defined.

End Generator.

(** * More of [physics_step], for every arithmetic *)

(** A loop keeps an invariant that each iteration keeps for the indices it
    really runs over. *)
Lemma fold_left_invariant_in {S A : Type} (P : S -> Prop) (f : S -> A -> S) (l : list A) :
  (forall s x, In x l -> P s -> P (f s x)) ->
  forall s, P s -> P (fold_left f l s).
Proof.
  induction l as [|x l IH]; intros Hstep s Hs; cbn; [done|].
  apply IH; [|apply Hstep; [by left|done]].
  intros s' x' Hx'. apply Hstep. by right.
Qed.

(** Writing [b'] over [b] keeps a relation to an earlier array that it
    keeps from [b] to [b']. *)
Lemma Forall2_insert_step {A : Type} (R : A -> A -> Prop) (l0 l : list A) (i : nat) (u u' : A) :
  Forall2 R l0 l -> l !! i = Some u -> (forall u0, R u0 u -> R u0 u') ->
  Forall2 R l0 (<[i := u']> l).
Proof.
  intros HF Hi Hstep. apply Forall2_same_length_lookup_2.
  - rewrite length_insert. by eapply Forall2_length.
  - intros j v0 v Hv0 Hv. destruct (decide (i = j)) as [->|Hne].
    + rewrite list_lookup_insert_eq in Hv by (eapply lookup_lt_Some; eauto).
      injection Hv as <-. apply Hstep. eapply Forall2_lookup_lr; eauto.
    + rewrite list_lookup_insert_ne in Hv by done. eapply Forall2_lookup_lr; eauto.
Qed.

Section PhysicsFrames.

Context {F : Type} {ops : FloatOps F}.

Implicit Types (a b : PhysicsBody F) (bs : list (PhysicsBody F)).
Implicit Types (st : sim_state F) (bounds : option (WorldBounds F)).
Implicit Types (rng : option SimpleRng) (c : Contact F).

(** *** Slots the loops do not reach *)

Lemma collide_pair_other_slot bounds vis_a i st j k :
  k <> i -> k <> j -> fst (collide_pair bounds vis_a i st j) !! k = fst st !! k.
Proof.
  intros Hi Hj. unfold collide_pair. destruct st as [bs rng]. cbn [fst].
  destruct (bs !! i); [|done]. destruct (bs !! j); [|done].
  destruct (resolve_pair _ _ _ _ _) as [[a' b'] rng']. cbn [fst].
  by rewrite !list_lookup_insert_ne.
Qed.

Lemma collide_row_beyond bounds count st i k :
  (i < count)%nat -> (count <= k)%nat ->
  fst (collide_row bounds count st i) !! k = fst st !! k.
Proof.
  intros Hi Hk. unfold collide_row.
  destruct (fst st !! i) as [a|]; [|done]. destruct (popped a); [done|]. cbv zeta.
  apply (fold_left_invariant_in (fun s => fst s !! k = fst st !! k)); [|done].
  intros s j Hj Hs. apply in_seq in Hj. rewrite <- Hs.
  apply collide_pair_other_slot; lia.
Qed.

Lemma collide_all_beyond bounds count st k :
  (count <= k)%nat -> fst (collide_all bounds count st) !! k = fst st !! k.
Proof.
  intros Hk. unfold collide_all.
  apply (fold_left_invariant_in (fun s => fst s !! k = fst st !! k)); [|done].
  intros s i Hi Hs. apply in_seq in Hi. rewrite <- Hs.
  apply collide_row_beyond; lia.
Qed.

(** X3: [physics_step] reads and writes the first [count] slots of the
    array only: a slot at index [count] or beyond holds after the step
    exactly the body it held before. *)
Theorem physics_step_beyond_count bs count dt g bounds rng (k : nat) :
  (count <= k)%nat ->
  exists bs',
    fst (physics_step (Some bs) count dt g bounds rng) = Some bs' /\
    bs' !! k = bs !! k.
Proof.
  intros Hk. unfold physics_step.
  destruct (dt <=? f0)%fl; [by exists bs|].
  destruct (count =? 0)%nat; [by exists bs|]. cbv zeta.
  pose proof (collide_all_beyond bounds count
                (integrate_all count dt g bounds bs, rng) k Hk) as Hc.
  destruct (collide_all bounds count _) as [bs2 rng2]. cbn [fst] in *.
  exists bs2. split; [done|]. rewrite Hc, integrate_all_lookup.
  destruct (decide (k < count)%nat); [lia|done].
Qed.

(** *** The spawn cooldown *)

Lemma resolve_pair_cooldown_skip bounds vis_a a b rng :
  (0 <? spawn_cooldown a) || (0 <? spawn_cooldown b) = true ->
  resolve_pair bounds vis_a a b rng = (a, b, rng).
Proof.
  intros H. unfold resolve_pair, pair_contact. destruct (popped b); [done|].
  destruct (negb vis_a && negb _); [done|]. by rewrite H.
Qed.

Lemma resolve_pair_cooldown bounds vis_a a b rng :
  spawn_cooldown (fst (fst (resolve_pair bounds vis_a a b rng))) = spawn_cooldown a /\
  spawn_cooldown (snd (fst (resolve_pair bounds vis_a a b rng))) = spawn_cooldown b.
Proof.
  rewrite resolve_pair_cases.
  destruct (pair_contact bounds vis_a a b) as [c|]; [|done].
  assert (spawn_cooldown (fst (positional_correction c a b)) = spawn_cooldown a /\
          spawn_cooldown (snd (positional_correction c a b)) = spawn_cooldown b)
    as [Hpa Hpb].
  { unfold positional_correction. cbv zeta.
    by destruct (f0 <? inv_mass a)%fl, (f0 <? inv_mass b)%fl. }
  destruct (f0 <? vel_norm (c_nx c) (c_ny c) a b)%fl; [done|].
  assert (spawn_cooldown (fst (before_pop c a b)) = spawn_cooldown a /\
          spawn_cooldown (snd (before_pop c a b)) = spawn_cooldown b)
    as [Hba Hbb].
  { unfold before_pop. destruct (positional_correction c a b) as [a1 b1].
    cbn [fst snd] in *. rewrite <- Hpa, <- Hpb. unfold impulse_response. cbv zeta.
    by destruct (f0 <? inv_mass a1)%fl, (f0 <? inv_mass b1)%fl. }
  rewrite <- Hba, <- Hbb. unfold pop_logic.
  destruct rng as [r|]; [|done].
  destruct (f0 <? avg_pop _ _)%fl; [|done].
  destruct (rng_next_float01 r) as [u r'].
  destruct (u <? avg_pop _ _)%fl; [|done].
  by destruct (radius _ <=? radius _)%fl.
Qed.

Lemma collide_pair_cooldowns bounds vis_a i st j bs0 :
  Forall2 (fun b0 b => spawn_cooldown b = spawn_cooldown b0) bs0 (fst st) ->
  Forall2 (fun b0 b => spawn_cooldown b = spawn_cooldown b0) bs0
          (fst (collide_pair bounds vis_a i st j)).
Proof.
  intros HF. unfold collide_pair. destruct st as [bs rng]. cbn [fst] in *.
  destruct (bs !! i) as [a|] eqn:Hi; [|done].
  destruct (bs !! j) as [b|] eqn:Hj; [|done].
  destruct (resolve_pair_cooldown bounds vis_a a b rng) as [Ha Hb].
  destruct (resolve_pair bounds vis_a a b rng) as [[a' b'] rng']. cbn [fst snd] in *.
  destruct (decide (i = j)) as [->|Hne].
  - rewrite list_insert_insert_eq.
    eapply Forall2_insert_step; eauto. intros; congruence.
  - eapply Forall2_insert_step.
    + eapply Forall2_insert_step; eauto. intros; congruence.
    + rewrite list_lookup_insert_ne by done. eauto.
    + intros; congruence.
Qed.

Lemma collide_all_cooldowns bounds count bs rng :
  Forall2 (fun b0 b => spawn_cooldown b = spawn_cooldown b0) bs
          (fst (collide_all bounds count (bs, rng))).
Proof.
  unfold collide_all.
  apply (fold_left_invariant
           (fun s => Forall2 (fun b0 b => spawn_cooldown b = spawn_cooldown b0) bs (fst s))).
  - intros s i Hs. unfold collide_row.
    destruct (fst s !! i) as [a|]; [|done]. destruct (popped a); [done|]. cbv zeta.
    apply (fold_left_invariant
             (fun s => Forall2 (fun b0 b => spawn_cooldown b = spawn_cooldown b0) bs (fst s)));
      [|done].
    intros s' j Hs'. by apply collide_pair_cooldowns.
  - cbn. induction bs; by constructor.
Qed.

Lemma step_body_cooldown dt g bounds b :
  spawn_cooldown (step_body dt g bounds b)
  = if 0 <? spawn_cooldown b then spawn_cooldown b - 1 else spawn_cooldown b.
Proof.
  unfold step_body, tick_cooldown.
  assert (spawn_cooldown (wall_collide bounds (integrate_body dt g b)) = spawn_cooldown b)
    as Hw.
  { unfold wall_collide, integrate_body. destruct bounds as [bd|]; cbv zeta.
    - destruct (_ && _); cbn; repeat (match goal with
        |- context [if ?t then _ else _] => destruct t end); done.
    - by destruct (_ && _). }
  rewrite Hw. destruct (0 <? spawn_cooldown b); [by cbn|exact Hw].
Qed.

(** X4: one step with [dt > 0] counts the spawn cooldown of every body among
    the first [count] down by exactly one if it is positive and leaves it
    alone otherwise (it never goes below zero from above, and the collision
    loop never changes it); beyond [count] it is untouched. *)
Theorem physics_step_cooldown bs count dt g bounds rng (i : nat) b :
  (dt <=? f0)%fl = false ->
  bs !! i = Some b ->
  exists bs' b',
    fst (physics_step (Some bs) count dt g bounds rng) = Some bs' /\
    bs' !! i = Some b' /\
    spawn_cooldown b' =
      if (i <? count)%nat && (0 <? spawn_cooldown b)
      then spawn_cooldown b - 1 else spawn_cooldown b.
Proof.
  intros Hdt Hi. unfold physics_step. rewrite Hdt.
  destruct count as [|n].
  - exists bs, b. cbn. by rewrite Hi.
  - cbn [Nat.eqb]. cbv zeta.
    pose proof (collide_all_cooldowns bounds (S n) (integrate_all (S n) dt g bounds bs) rng)
      as HF.
    destruct (collide_all bounds (S n) _) as [bs2 rng2]. cbn [fst] in *.
    pose proof (integrate_all_lookup (S n) dt g bounds bs i) as H1. rewrite Hi in H1.
    destruct (decide (i < S n)%nat) as [Hlt|Hge].
    + cbn in H1. destruct (Forall2_lookup_l _ _ _ _ _ HF H1) as (b' & Hb' & Hcd).
      exists bs2, b'. split; [done|]. split; [done|].
      rewrite Hcd, step_body_cooldown.
      replace (i <? S n)%nat with true by (symmetry; apply Nat.ltb_lt; lia). done.
    + destruct (Forall2_lookup_l _ _ _ _ _ HF H1) as (b' & Hb' & Hcd).
      exists bs2, b'. split; [done|]. split; [done|]. rewrite Hcd.
      replace (i <? S n)%nat with false by (symmetry; apply Nat.ltb_ge; lia). done.
Qed.

Lemma collide_pair_cooling_slot bounds vis_a i st j k b0 :
  0 < spawn_cooldown b0 -> fst st !! k = Some b0 ->
  fst (collide_pair bounds vis_a i st j) !! k = Some b0.
Proof.
  intros Hcd Hk. unfold collide_pair. destruct st as [bs rng]. cbn [fst] in *.
  destruct (bs !! i) as [a|] eqn:Hi; [|done].
  destruct (bs !! j) as [b|] eqn:Hj; [|done].
  assert ((0 <? spawn_cooldown b0) = true) as Hb0 by (apply Z.ltb_lt; lia).
  destruct (decide (k = i)) as [->|Hki]; [|destruct (decide (k = j)) as [->|Hkj]].
  - assert (a = b0) as -> by congruence.
    rewrite resolve_pair_cooldown_skip by (by rewrite Hb0). cbn [fst].
    destruct (decide (i = j)) as [->|Hne].
    + rewrite list_insert_insert_eq, list_lookup_insert_eq; [congruence|].
      eapply lookup_lt_Some; eauto.
    + rewrite list_lookup_insert_ne by done.
      apply list_lookup_insert_eq. eapply lookup_lt_Some; eauto.
  - assert (b = b0) as -> by congruence.
    rewrite resolve_pair_cooldown_skip by (by rewrite Hb0, orb_true_r). cbn [fst].
    apply list_lookup_insert_eq. rewrite length_insert. eapply lookup_lt_Some; eauto.
  - destruct (resolve_pair _ _ _ _ _) as [[a' b'] rng']. cbn [fst].
    by rewrite !list_lookup_insert_ne.
Qed.

(** X5: the cooldown shields a body.  A body among the first [count] that
    enters a step with a cooldown of 2 or more leaves it as the first loop
    alone made it (integrated, clamped at the walls, cooldown one less): no
    collision moves it, bounces it or pops it. *)
Theorem physics_step_cooldown_shield bs count dt g bounds rng (i : nat) b :
  (dt <=? f0)%fl = false ->
  bs !! i = Some b ->
  (i < count)%nat ->
  2 <= spawn_cooldown b ->
  exists bs',
    fst (physics_step (Some bs) count dt g bounds rng) = Some bs' /\
    bs' !! i = Some (step_body dt g bounds b) /\
    popped (step_body dt g bounds b) = popped b.
Proof.
  intros Hdt Hi Hlt Hcd. unfold physics_step. rewrite Hdt.
  destruct count as [|n]; [lia|]. cbn [Nat.eqb]. cbv zeta.
  assert (integrate_all (S n) dt g bounds bs !! i = Some (step_body dt g bounds b)) as H1.
  { rewrite integrate_all_lookup. destruct (decide (i < S n)%nat); [|lia]. by rewrite Hi. }
  assert (0 < spawn_cooldown (step_body dt g bounds b)) as Hcd1.
  { rewrite step_body_cooldown.
    replace (0 <? spawn_cooldown b) with true by (symmetry; apply Z.ltb_lt; lia). lia. }
  assert (fst (collide_all bounds (S n) (integrate_all (S n) dt g bounds bs, rng)) !! i
          = Some (step_body dt g bounds b)) as H2.
  { unfold collide_all.
    apply (fold_left_invariant (fun s => fst s !! i = Some (step_body dt g bounds b)));
      [|done].
    intros s i' Hs. unfold collide_row.
    destruct (fst s !! i') as [a|]; [|done]. destruct (popped a); [done|]. cbv zeta.
    apply (fold_left_invariant (fun s => fst s !! i = Some (step_body dt g bounds b)));
      [|done].
    intros s' j Hs'. by apply collide_pair_cooling_slot. }
  destruct (collide_all bounds (S n) _) as [bs2 rng2]. cbn [fst] in *.
  exists bs2. split; [done|]. split; [done|].
  unfold step_body. rewrite tick_cooldown_popped, wall_collide_popped.
  unfold integrate_body. by destruct (_ && _).
Qed.

(** *** Steps in which the pop logic is inert *)

(** The first loop changes neither the flag nor the pop chance. *)
Lemma integrate_all_flags count dt g bounds bs :
  Forall2 flags_kept bs (integrate_all count dt g bounds bs).
Proof.
  apply Forall2_same_length_lookup_2.
  - eapply Forall2_length, integrate_all_keeps.
  - intros i b0 b1 H0 H1. rewrite integrate_all_lookup, H0 in H1.
    destruct (decide (i < count)%nat); cbn in H1; injection H1 as <-; [|done].
    split; [|apply step_body_keeps].
    unfold step_body. rewrite tick_cooldown_popped, wall_collide_popped.
    unfold integrate_body. by destruct (_ && _).
Qed.

Section Inert.

(** Either there is no generator, or the pop chances of the bodies lie in a
    set [P] on which no average is above zero. *)
Variable rng : option SimpleRng.
Variable P : F -> Prop.
Hypothesis inert :
  rng = None \/
  forall p q, P p -> P q -> (f0 <? (p + q) * fhalf)%fl = false.

Lemma resolve_pair_inert bounds vis_a a b :
  P (pop_chance a) -> P (pop_chance b) ->
  let res := resolve_pair bounds vis_a a b rng in
  snd res = rng /\
  popped (fst (fst res)) = popped a /\ pop_chance (fst (fst res)) = pop_chance a /\
  popped (snd (fst res)) = popped b /\ pop_chance (snd (fst res)) = pop_chance b.
Proof.
  intros HPa HPb. cbv zeta. rewrite resolve_pair_cases.
  destruct (pair_contact bounds vis_a a b) as [c|]; [|done].
  destruct (f0 <? vel_norm (c_nx c) (c_ny c) a b)%fl.
  - destruct (positional_correction_fields c a b) as [(_&_&_&_&_&?&?) (_&_&_&_&_&?&?)].
    done.
  - destruct (before_pop_fields c a b) as [(_ & Hpa & Hfa) (_ & Hpb & Hfb)].
    cbv zeta in *.
    assert (pop_logic (fst (before_pop c a b)) (snd (before_pop c a b)) rng
            = (fst (before_pop c a b), snd (before_pop c a b), rng)) as ->; [|done].
    unfold pop_logic. destruct inert as [->|Hzero]; [done|].
    destruct rng as [r|]; [|done].
    unfold avg_pop. rewrite Hpa, Hpb, Hzero; done.
Qed.

Lemma collide_pair_inert bounds vis_a i st j bs0 :
  Forall (fun b => P (pop_chance b)) bs0 ->
  snd st = rng /\ Forall2 flags_kept bs0 (fst st) ->
  snd (collide_pair bounds vis_a i st j) = rng /\
  Forall2 flags_kept bs0 (fst (collide_pair bounds vis_a i st j)).
Proof.
  intros HP0 [Hrng HF]. unfold collide_pair. destruct st as [bs rng0]. cbn [fst snd] in *.
  subst rng0.
  destruct (bs !! i) as [a|] eqn:Hi; [|done].
  destruct (bs !! j) as [b|] eqn:Hj; [|done].
  assert (forall k u, bs !! k = Some u -> P (pop_chance u)) as HPbs.
  { intros k u Hu. destruct (Forall2_lookup_r _ _ _ _ _ HF Hu) as (u0 & Hu0 & _ & Hpc).
    rewrite Hpc. rewrite Forall_lookup in HP0. by eapply HP0. }
  pose proof (resolve_pair_inert bounds vis_a a b (HPbs _ _ Hi) (HPbs _ _ Hj))
    as (Hr & Hfa & Hpa & Hfb & Hpb).
  cbv zeta in *.
  destruct (resolve_pair bounds vis_a a b rng) as [[a' b'] rng']. cbn [fst snd] in *.
  split; [done|]. unfold flags_kept in *.
  destruct (decide (i = j)) as [->|Hne].
  - rewrite list_insert_insert_eq.
    eapply Forall2_insert_step; eauto. intros u0 [? ?]. split; congruence.
  - eapply Forall2_insert_step.
    + eapply Forall2_insert_step; eauto. intros u0 [? ?]. split; congruence.
    + rewrite list_lookup_insert_ne by done. eauto.
    + intros u0 [? ?]. split; congruence.
Qed.

Lemma collide_all_inert bounds count bs0 bs :
  Forall (fun b => P (pop_chance b)) bs0 ->
  Forall2 flags_kept bs0 bs ->
  snd (collide_all bounds count (bs, rng)) = rng /\
  Forall2 flags_kept bs0 (fst (collide_all bounds count (bs, rng))).
Proof.
  intros HP0 HF. unfold collide_all.
  apply (fold_left_invariant (fun s => snd s = rng /\ Forall2 flags_kept bs0 (fst s)));
    [|done].
  intros s i Hs. unfold collide_row.
  destruct (fst s !! i) as [a|]; [|done]. destruct (popped a); [done|]. cbv zeta.
  apply (fold_left_invariant (fun s => snd s = rng /\ Forall2 flags_kept bs0 (fst s)));
    [|done].
  intros s' j Hs'. by apply collide_pair_inert.
Qed.

Lemma physics_step_inert bs count dt g bounds :
  Forall (fun b => P (pop_chance b)) bs ->
  exists bs',
    physics_step (Some bs) count dt g bounds rng = (Some bs', rng) /\
    Forall2 (fun b b' => popped b' = popped b) bs bs'.
Proof.
  intros HP0. unfold physics_step.
  assert (Forall2 (fun b b' => popped b' = popped b) bs bs) as Hrefl
    by (clear; induction bs; by constructor).
  destruct (dt <=? f0)%fl; [by exists bs|].
  destruct (count =? 0)%nat; [by exists bs|]. cbv zeta.
  destruct (collide_all_inert bounds count bs (integrate_all count dt g bounds bs) HP0
              (integrate_all_flags count dt g bounds bs)) as [Hr HF].
  destruct (collide_all bounds count _) as [bs2 rng2]. cbn [fst snd] in *. subst rng2.
  exists bs2. split; [done|].
  eapply Forall2_impl; [exact HF|]. by intros ? ? [? _].
Qed.

End Inert.

(** X6: without a generator ([rng] null) [physics_step] still moves and
    bounces bodies but never eliminates one: every body's flag after the step
    is the flag before, and the generator is still null. *)
Theorem physics_step_without_rng bs count dt g bounds :
  exists bs',
    physics_step (Some bs) count dt g bounds None = (Some bs', None) /\
    Forall2 (fun b b' => popped b' = popped b) bs bs'.
Proof.
  apply (physics_step_inert None (fun _ => True)); [by left|].
  by apply Forall_forall.
Qed.

End PhysicsFrames.

(** * More on binary32 *)

Section Binary32Extras.

Import B32 Scenario.

(** X7: when every body has pop chance [0.0f], [physics_step] neither
    eliminates a body nor draws from the generator, whatever collides: the
    generator comes back in the state it went in and every flag is as it
    was. *)
Theorem physics_step_zero_pop_chance (bs : list (PhysicsBody spec_float)) (count : nat)
    (dt g : spec_float) (bounds : option (WorldBounds spec_float))
    (rng : option SimpleRng) :
  Forall (fun b => pop_chance b = of_Z 0) bs ->
  exists bs',
    physics_step (Some bs) count dt g bounds rng = (Some bs', rng) /\
    Forall2 (fun b b' => popped b' = popped b) bs bs'.
Proof.
  intros H0. apply (physics_step_inert rng (fun p => p = of_Z 0)); [|exact H0].
  right. intros p q -> ->. reflexivity.
Qed.

(** X7 at the approaching pair of the specification's scenario. *)
Lemma physics_step_zero_pop_chance_witness :
  exists bs',
    physics_step (Some [left_in; right_in]) 2 dt (of_Z 0) (Some arena) (Some rng0)
      = (Some bs', Some rng0) /\
    Forall2 (fun b b' => popped b' = popped b) [left_in; right_in] bs'.
Proof.
  apply (physics_step_zero_pop_chance [left_in; right_in] 2 dt (of_Z 0) (Some arena)
           (Some rng0)).
  repeat constructor.
Defined.

End Binary32Extras.

(** * More of the respawn passes, for every arithmetic *)

Section RespawnPasses.

Context {F : Type} {ops : FloatOps F}.

Implicit Types (app : BubbleApp F) (b : PhysicsBody F).

(** Both passes of the run loop have one shape: test the body in slot [j],
    respawn it if the test says so. *)
Variable test : BubbleApp F -> PhysicsBody F -> bool.
Variable step : BubbleApp F -> nat -> option (BubbleApp F).
Hypothesis step_shape : forall app j,
  step app j =
  match app_bodies app !! j with
  | Some b => if test app b then respawn_at app j else Some app
  | None => Some app
  end.
Hypothesis test_setup : forall app app' b,
  same_setup app app' -> test app' b = test app b.

Lemma respawn_keeps_groups_ok app i b b' (r' : SimpleRng) :
  groups_ok app -> app_bodies app !! i = Some b ->
  bubble_respawn_body app b = Some (b', r') ->
  groups_ok (set_app_rng (set_app_bodies app (<[i := b']> (app_bodies app))) r').
Proof.
  intros Hok Hi Hb' j bj. cbn. intros Hbj.
  destruct (decide (i = j)) as [->|Hne].
  - rewrite list_lookup_insert_eq in Hbj by (eapply lookup_lt_Some; eauto).
    injection Hbj as <-.
    destruct (respawn_clears_popped app b b' r' Hb') as (_ & _ & _ & Hg).
    specialize (Hok j b Hi). unfold group_config in *. cbn. by rewrite Hg.
  - rewrite list_lookup_insert_ne in Hbj by done.
    specialize (Hok j bj Hbj). unfold group_config in *. by cbn.
Qed.

Lemma pass_prefix app (n : nat) :
  groups_ok app ->
  exists app',
    fold_left (fun acc j => acc ≫= fun a => step a j) (seq 0 n) (Some app) = Some app' /\
    same_setup app app' /\ groups_ok app' /\
    length (app_bodies app') = length (app_bodies app) /\
    forall i b, app_bodies app !! i = Some b ->
      exists b', app_bodies app' !! i = Some b' /\
        if decide (i < n)%nat then visited test app b b' else b' = b.
Proof.
  intros Hok. induction n as [|n IH].
  - exists app. cbn. split; [done|]. split; [apply same_setup_refl|].
    split; [done|]. split; [done|]. intros i b Hi. exists b. split; [done|].
    destruct (decide (i < 0)%nat); [lia|done].
  - destruct IH as (app1 & Hfold & Hset & Hok1 & Hlen & Hslots).
    rewrite seq_S, fold_left_app, Hfold. cbn [fold_left mbind option_bind Nat.add].
    rewrite step_shape.
    destruct (app_bodies app1 !! n) as [bn|] eqn:Hn.
    2:{ exists app1. split; [done|]. split; [done|]. split; [done|]. split; [done|].
        intros i b Hi. destruct (Hslots i b Hi) as (b' & Hb' & Hv). exists b'.
        split; [done|].
        destruct (decide (i < n)%nat), (decide (i < S n)%nat); try done; try lia.
        assert (i = n) as -> by lia. congruence. }
    assert (app_bodies app !! n = Some bn) as Hn0.
    { destruct (app_bodies app !! n) as [b0|] eqn:E.
      - destruct (Hslots n b0 E) as (b' & Hb' & Hv).
        destruct (decide (n < n)%nat); [lia|]. congruence.
      - apply lookup_ge_None in E. apply lookup_lt_Some in Hn. lia. }
    destruct (test app1 bn) eqn:Ht.
    + destruct (respawn_at_defined app1 n bn Hn (Hok1 n bn Hn)) as (b' & r' & Hb' & Hat).
      rewrite Hat. eexists. split; [reflexivity|].
      split; [destruct Hset as (?&?&?); by unfold same_setup|].
      split; [by eapply respawn_keeps_groups_ok|].
      split; [cbn; by rewrite length_insert|].
      intros i b Hi. cbn. destruct (decide (i = n)) as [->|Hne].
      * exists b'. split; [apply list_lookup_insert_eq; by eapply lookup_lt_Some|].
        destruct (decide (n < S n)%nat); [|lia].
        assert (b = bn) as -> by congruence.
        right. split; [by rewrite <- (test_setup app app1)|]. eauto.
      * rewrite list_lookup_insert_ne by done.
        destruct (Hslots i b Hi) as (bi & Hbi & Hv). exists bi. split; [done|].
        destruct (decide (i < n)%nat), (decide (i < S n)%nat); try done; lia.
    + exists app1. split; [done|]. split; [done|]. split; [done|]. split; [done|].
      intros i b Hi. destruct (Hslots i b Hi) as (bi & Hbi & Hv). exists bi.
      split; [done|].
      destruct (decide (i < n)%nat), (decide (i < S n)%nat); try done; try lia.
      assert (i = n) as -> by lia. subst bi.
      assert (b = bn) as -> by congruence.
      left. split; [done|]. by rewrite <- (test_setup app app1).
Qed.

End RespawnPasses.

Section RunLoop.

Context {F : Type} {ops : FloatOps F}.

Implicit Types (app : BubbleApp F) (b : PhysicsBody F).

(** The pass "handle popped bubbles" as a whole. *)
Lemma respawn_popped_spec app :
  groups_ok app ->
  exists app',
    respawn_popped app = Some app' /\
    same_setup app app' /\ groups_ok app' /\
    length (app_bodies app') = length (app_bodies app) /\
    (forall i b', (i < app_body_count app)%nat ->
       app_bodies app' !! i = Some b' -> popped b' = false) /\
    (forall i b, app_bodies app !! i = Some b -> popped b = false ->
       app_bodies app' !! i = Some b).
Proof.
  intros Hok.
  destruct (pass_prefix (fun _ b => popped b) respawn_if_popped
              ltac:(reflexivity) ltac:(reflexivity) app (app_body_count app) Hok)
    as (app' & Hfold & Hset & Hok' & Hlen & Hslots).
  exists app'. split; [exact Hfold|]. split; [done|]. split; [done|]. split; [done|].
  split.
  - intros i b' Hi Hb'.
    destruct (app_bodies app !! i) as [b|] eqn:Hb.
    2:{ apply lookup_ge_None in Hb. apply lookup_lt_Some in Hb'. lia. }
    destruct (Hslots i b Hb) as (b'' & Hb'' & Hv).
    assert (b'' = b') as -> by congruence.
    destruct (decide (i < app_body_count app)%nat); [|lia].
    destruct Hv as [[-> Hf]|[_ (app1 & r' & _ & Hr)]]; [done|].
    by apply respawn_clears_popped in Hr as (? & _).
  - intros i b Hb Hp. destruct (Hslots i b Hb) as (b' & Hb' & Hv).
    destruct (decide (i < app_body_count app)%nat); [|by subst].
    destruct Hv as [[-> _]|[Ht _]]; [done|congruence].
Qed.

(** [physics_step] keeps every body's group, hence [groups_ok]. *)
Lemma physics_step_groups_ok app dt bs' rng' :
  groups_ok app ->
  physics_step (Some (app_bodies app)) (app_body_count app) dt (app_gravity_y app)
               (Some (app_bounds app)) (Some (app_rng app)) = (Some bs', rng') ->
  groups_ok (set_app_rng (set_app_bodies app bs') (default (app_rng app) rng')).
Proof.
  intros Hok Hstep.
  destruct (physics_step_some (app_bodies app) (app_body_count app) dt (app_gravity_y app)
              (Some (app_bounds app)) (Some (app_rng app))) as (bs2 & rng2 & Hstep2 & Hk).
  rewrite Hstep in Hstep2. injection Hstep2 as <- <-.
  intros j bj. cbn. intros Hbj.
  destruct (Forall2_lookup_r _ _ _ _ _ Hk Hbj) as (b0 & Hb0 & (_&_&_&Hg&_)).
  specialize (Hok j b0 Hb0). unfold group_config in *. cbn. by rewrite Hg.
Qed.

(** One turn of the run loop as a whole. *)
Lemma bubble_sim_tick_spec app :
  groups_ok app ->
  exists app',
    bubble_sim_tick app = Some app' /\
    same_setup app app' /\ groups_ok app' /\
    length (app_bodies app') = length (app_bodies app) /\
    forall i b', (i < app_body_count app)%nat ->
      app_bodies app' !! i = Some b' -> popped b' = false.
Proof.
  intros Hok. unfold bubble_sim_tick. cbv zeta.
  destruct (physics_step_some (app_bodies app) (app_body_count app) (lit 3 100)
              (app_gravity_y app) (Some (app_bounds app)) (Some (app_rng app)))
    as (bs1 & rng1 & Hstep & Hk).
  pose proof (physics_step_groups_ok app _ _ _ Hok Hstep) as Hok1.
  rewrite Hstep. change (default (app_bodies app) (Some bs1)) with bs1.
  set (app1 := set_app_rng (set_app_bodies app bs1) (default (app_rng app) rng1)) in *.
  destruct (respawn_popped_spec app1 Hok1)
    as (app2 & Hpop & Hset2 & Hok2 & Hlen2 & Hclear & _).
  rewrite Hpop. cbn [mbind option_bind].
  destruct (pass_prefix
              (fun a b => (y b + radius b <? min_y (app_bounds a) - of_int 20)%fl)
              respawn_if_off_top ltac:(reflexivity)
              ltac:(by intros a a' b (-> & _)) app2 (app_body_count app2) Hok2)
    as (app3 & Hfold & Hset3 & Hok3 & Hlen3 & Hslots).
  exists app3. split; [exact Hfold|].
  assert (same_setup app app1) as Hset1 by (by unfold same_setup, app1).
  split; [eauto using same_setup_trans|]. split; [done|].
  split.
  { rewrite Hlen3, Hlen2. unfold app1. cbn. symmetry. by eapply Forall2_length. }
  intros i b' Hi Hb'.
  assert (app_body_count app2 = app_body_count app) as Hcnt
    by (destruct Hset2 as (_&_&->); done).
  destruct (app_bodies app2 !! i) as [b2|] eqn:Hb2.
  2:{ apply lookup_ge_None in Hb2. apply lookup_lt_Some in Hb'. lia. }
  destruct (Hslots i b2 Hb2) as (b'' & Hb'' & Hv).
  assert (b'' = b') as -> by congruence.
  destruct (decide (i < app_body_count app2)%nat); [|lia].
  destruct Hv as [[-> _]|[_ (a1 & r' & _ & Hr)]].
  - apply (Hclear i); [|done]. unfold app1. cbn. lia.
  - by apply respawn_clears_popped in Hr as (? & _).
Qed.

(** X8: on an application whose bodies all have a group in range, the pass
    "handle popped bubbles" is defined, keeps bounds, groups and count, and
    leaves no body among those in use flagged; a body that was not flagged is
    left exactly as it was. *)
Theorem respawn_popped_clears app :
  groups_ok app ->
  exists app',
    respawn_popped app = Some app' /\
    same_setup app app' /\ groups_ok app' /\
    length (app_bodies app') = length (app_bodies app) /\
    (forall i b', (i < app_body_count app)%nat ->
       app_bodies app' !! i = Some b' -> popped b' = false) /\
    (forall i b, app_bodies app !! i = Some b -> popped b = false ->
       app_bodies app' !! i = Some b).
Proof. apply respawn_popped_spec. Qed.

(** X9: one turn of the run loop on an application whose bodies all have a
    group in range is defined (no array of groups is indexed out of range),
    keeps bounds, groups and count, and ends with no body among those in use
    flagged as popped: [physics_step] never meets an eliminated body in the
    next turn. *)
Theorem bubble_sim_tick_clears app :
  groups_ok app ->
  exists app',
    bubble_sim_tick app = Some app' /\
    same_setup app app' /\ groups_ok app' /\
    length (app_bodies app') = length (app_bodies app) /\
    forall i b', (i < app_body_count app)%nat ->
      app_bodies app' !! i = Some b' -> popped b' = false.
Proof. apply bubble_sim_tick_spec. Qed.

End RunLoop.
(** * Population: building and rebuilding the bodies *)

Section PopulationFacts.

Context {F : Type} {ops : FloatOps F}.

Implicit Types (app : BubbleApp F) (b : PhysicsBody F) (cfg : BubbleGroupConfig F).

Lemma new_body_rng (bd : WorldBounds F) cfg (g : Z) (r : SimpleRng) :
  snd (new_body bd cfg g r) = rng_skip 3 r.
Proof. reflexivity. Qed.

(** What every created body looks like. *)
Lemma new_body_fields (bd : WorldBounds F) cfg (g : Z) (r : SimpleRng) :
  let b := fst (new_body bd cfg g r) in
  group b = g /\ popped b = false /\ spawn_cooldown b = SPAWN_COOLDOWN_FRAMES /\
  inv_mass b = f1 /\ radius b = cfg_radius cfg /\
  restitution b = cfg_restitution cfg /\ pop_chance b = cfg_pop_chance cfg /\
  vy b = (- cfg_rise_speed cfg)%fl /\ ax b = f0 /\ ay b = f0.
Proof. cbv zeta. repeat split. Qed.

(** The creation loop: it creates [min n (MAX_BODIES - body_count)] bodies
    behind the ones in use and touches nothing else. *)
Lemma spawn_loop_spec cfg (g : Z) (n : nat) app :
  length (app_bodies app) = MAX_BODIES ->
  (app_body_count app <= MAX_BODIES)%nat ->
  let k := Nat.min n (MAX_BODIES - app_body_count app) in
  let app' := spawn_loop cfg g n app in
  app_body_count app' = (app_body_count app + k)%nat /\
  length (app_bodies app') = MAX_BODIES /\
  app_bounds app' = app_bounds app /\ app_groups app' = app_groups app /\
  app_gravity_y app' = app_gravity_y app /\
  app_rng app' = rng_skip (3 * N.of_nat k) (app_rng app) /\
  (forall i, (i < app_body_count app \/ app_body_count app + k <= i)%nat ->
     app_bodies app' !! i = app_bodies app !! i) /\
  (forall i, (app_body_count app <= i < app_body_count app + k)%nat ->
     exists r, app_bodies app' !! i = Some (fst (new_body (app_bounds app) cfg g r))).
Proof.
  unfold MAX_BODIES.
  revert app. induction n as [|n IH]; intros app Hlen Hcnt; cbv zeta.
  - cbn [spawn_loop]. rewrite Nat.min_0_l, Nat.add_0_r.
    repeat split; try done. intros i Hi. lia.
  - cbn [spawn_loop]. unfold MAX_BODIES.
    destruct (app_body_count app <? 48)%nat eqn:Hlt.
    + apply Nat.ltb_lt in Hlt.
      specialize (IH (spawn_one cfg g app)).
      unfold spawn_one in *.
      destruct (new_body (app_bounds app) cfg g (app_rng app)) as [b r'] eqn:Hnb.
      cbn [app_body_count app_bodies app_bounds app_groups app_gravity_y app_rng
           set_app_rng set_app_body_count set_app_bodies] in IH.
      rewrite length_insert in IH.
      destruct (IH Hlen ltac:(lia)) as (Hc & Hl & Hb & Hg & Hgr & Hr & Hsame & Hnew).
      replace (Nat.min (S n) (48 - app_body_count app))
        with (S (Nat.min n (48 - S (app_body_count app)))) by lia.
      set (k := Nat.min n (48 - S (app_body_count app))) in *.
      split; [lia|]. split; [exact Hl|]. split; [exact Hb|]. split; [exact Hg|].
      split; [exact Hgr|].
      split.
      { rewrite Hr. replace (3 * N.of_nat (S k))%N with (3 * N.of_nat k + 3)%N by lia.
        rewrite rng_skip_add. f_equal.
        change r' with (snd (b, r')). rewrite <- Hnb. apply new_body_rng. }
      split.
      * intros i Hi. rewrite Hsame by lia. apply list_lookup_insert_ne. lia.
      * intros i Hi. destruct (decide (i = app_body_count app)) as [->|Hne].
        -- exists (app_rng app). rewrite Hsame by lia.
           rewrite list_lookup_insert_eq by lia. by rewrite Hnb.
        -- apply Hnew. lia.
    + apply Nat.ltb_ge in Hlt.
      replace (Nat.min (S n) (48 - app_body_count app)) with 0%nat by lia.
      rewrite Nat.add_0_r. repeat split; try done. intros i Hi. lia.
Qed.


(** The same, on the list of the bodies in use. *)
Lemma spawn_loop_used cfg (g : Z) (n : nat) app :
  length (app_bodies app) = MAX_BODIES ->
  (app_body_count app <= MAX_BODIES)%nat ->
  let k := Nat.min n (MAX_BODIES - app_body_count app) in
  let app' := spawn_loop cfg g n app in
  exists fresh,
    used app' = used app ++ fresh /\ length fresh = k /\
    Forall (created (app_bounds app) cfg g) fresh.
Proof.
  intros Hlen Hcnt k app'.
  destruct (spawn_loop_spec cfg g n app Hlen Hcnt)
    as (Hc & Hl & _ & _ & _ & _ & Hsame & Hnew).
  fold k app' in Hc, Hl, Hsame, Hnew.
  assert (k <= MAX_BODIES - app_body_count app)%nat as Hk by (unfold k; lia).
  exists (take k (drop (app_body_count app) (app_bodies app'))).
  unfold used. rewrite Hc. split; [|split].
  - rewrite <- take_take_drop. f_equal.
    apply list_eq. intros i. destruct (decide (i < app_body_count app)%nat).
    + rewrite !lookup_take_lt by done. apply Hsame. lia.
    + by rewrite !lookup_take_ge by lia.
  - rewrite length_take, length_drop. lia.
  - apply Forall_lookup. intros i b Hi.
    apply lookup_take_Some in Hi as [Hi Hik]. rewrite lookup_drop in Hi.
    destruct (Hnew (app_body_count app + i)%nat ltac:(lia)) as (r & Hr).
    exists r. congruence.
Qed.

(** The creation loop keeps the application well formed. *)
Lemma spawn_loop_app_ok cfg (g : Z) (n : nat) app :
  0 <= g < GROUP_COUNT -> app_ok app -> app_ok (spawn_loop cfg g n app).
Proof.
  intros Hg (Hlen & Hcnt & Hgs & Hgr).
  destruct (spawn_loop_spec cfg g n app Hlen Hcnt)
    as (Hc & Hl & _ & Hgs' & _ & _ & Hsame & Hnew).
  split; [done|]. split; [lia|]. split; [by rewrite Hgs'|].
  intros j b Hj.
  set (k := Nat.min n (MAX_BODIES - app_body_count app)) in *.
  destruct (decide (app_body_count app <= j < app_body_count app + k)%nat) as [Hin|Hout].
  - destruct (Hnew j Hin) as (r & Hr). rewrite Hr in Hj. injection Hj as <-. done.
  - rewrite Hsame in Hj by lia. eauto.
Qed.

Lemma drop_succ_eq {A : Type} (l1 l2 : list A) (n : nat) :
  drop n l1 = drop n l2 -> drop (S n) l1 = drop (S n) l2.
Proof.
  intros H. replace (S n) with (n + 1)%nat by lia. by rewrite <- !drop_drop, H.
Qed.

(** The compaction loop of [bubble_app_reinit_group] after [n] slots: the
    first [write] slots hold the visited bodies of the other groups, in their
    order; the slots not yet visited are as they were. *)
Lemma compact_spec (g : Z) (bs : list (PhysicsBody F)) (n : nat) :
  (n <= length bs)%nat ->
  exists bs',
    let w := length (filter (fun b => group b <> g) (take n bs)) in
    fold_left (compact_step g) (seq 0 n) (Some (bs, O)) = Some (bs', w) /\
    take w bs' = filter (fun b => group b <> g) (take n bs) /\
    drop n bs' = drop n bs /\ length bs' = length bs /\ (w <= n)%nat /\
    forall b, b ∈ bs' -> b ∈ bs.
Proof.
  induction n as [|n IH]; intros Hn.
  - exists bs. cbn. by repeat split.
  - destruct (IH ltac:(lia)) as (bs1 & Hfold & Htake & Hdrop & Hlen & Hw & Hin).
    cbv zeta in *.
    set (w := length (filter (fun b => group b <> g) (take n bs))) in *.
    destruct (lookup_lt_is_Some_2 bs n ltac:(lia)) as [b Hb].
    assert (bs1 !! n = Some b) as Hb1.
    { rewrite <- (Nat.add_0_r n), <- lookup_drop, Hdrop, lookup_drop.
      by rewrite Nat.add_0_r. }
    rewrite seq_S, fold_left_app, Hfold. cbn [fold_left Nat.add].
    unfold compact_step. cbn [mbind option_bind]. rewrite Hb1. cbn [mbind option_bind].
    rewrite (take_S_r _ _ _ Hb), filter_app.
    destruct (group b =? g) eqn:Hg.
    + apply Z.eqb_eq in Hg.
      rewrite (filter_cons_False (fun b => group b <> g) b [] ltac:(intros H; by apply H)).
      rewrite filter_nil, app_nil_r.
      fold w. exists bs1. split; [done|]. split; [done|].
      split.
      { apply drop_succ_eq. by rewrite ?drop_insert_lt by lia. }
      split; [done|]. split; [lia|done].
    + apply Z.eqb_neq in Hg.
      rewrite (filter_cons_True (fun b => group b <> g) b [] Hg), filter_nil, length_app.
      fold w.
      cbn [length]. replace (w + 1)%nat with (S w) by lia.
      destruct (w =? n)%nat eqn:Hwn.
      * apply Nat.eqb_eq in Hwn. exists bs1. split; [done|].
        split.
        { rewrite (take_S_r _ _ b) by (by rewrite Hwn). by rewrite Htake. }
        split.
        { apply drop_succ_eq. by rewrite ?drop_insert_lt by lia. }
        split; [done|]. split; [lia|done].
      * apply Nat.eqb_neq in Hwn. exists (<[w := b]> bs1). split; [done|].
        split.
        { rewrite (take_S_r _ _ b) by (apply list_lookup_insert_eq; lia).
          by rewrite take_insert_ge, Htake by lia. }
        split.
        { apply drop_succ_eq. by rewrite ?drop_insert_lt by lia. }
        split; [by rewrite length_insert|]. split; [lia|].
        intros b' Hb'. apply list_elem_of_lookup in Hb' as [i Hi].
        destruct (decide (i = w)) as [->|Hne].
        -- rewrite list_lookup_insert_eq in Hi by lia. injection Hi as <-.
           by eapply list_elem_of_lookup_2.
        -- rewrite list_lookup_insert_ne in Hi by done.
           apply Hin. by eapply list_elem_of_lookup_2.
Qed.


Lemma group_config_range app (g : Z) cfg :
  group_config app g = Some cfg -> 0 <= g < GROUP_COUNT.
Proof.
  unfold group_config. destruct (0 <=? g) eqn:H0, (g <? GROUP_COUNT) eqn:H1; try done.
  apply Z.leb_le in H0. apply Z.ltb_lt in H1. lia.
Qed.

Lemma reinit_group_spec app (g : Z) cfg :
  app_ok app -> group_config app g = Some cfg ->
  exists app' fresh,
    bubble_app_reinit_group app g = Some app' /\
    used app' = filter (fun b => group b <> g) (used app) ++ fresh /\
    length fresh =
      Nat.min (requested cfg)
              (MAX_BODIES - length (filter (fun b => group b <> g) (used app))) /\
    Forall (created (app_bounds app) cfg g) fresh /\
    app_rng app' = rng_skip (3 * N.of_nat (length fresh)) (app_rng app) /\
    app_groups app' = app_groups app /\ app_bounds app' = app_bounds app /\
    app_gravity_y app' = app_gravity_y app /\
    app_ok app'.
Proof.
  intros (Hlen & Hcnt & Hgs & Hgr) Hcfg.
  pose proof (group_config_range _ _ _ Hcfg) as Hg.
  unfold bubble_app_reinit_group.
  replace ((g <? 0) || (GROUP_COUNT <=? g)) with false
    by (symmetry; apply orb_false_iff; split; [apply Z.ltb_ge|apply Z.leb_gt]; lia).
  rewrite Hcfg. cbn [mbind option_bind].
  destruct (compact_spec g (app_bodies app) (app_body_count app) ltac:(lia))
    as (bs1 & Hfold & Htake & Hdrop & Hlen1 & Hw & Hin).
  cbv zeta in Hfold, Htake, Hw. fold (used app) in Hfold, Htake, Hw.
  set (kept := filter (fun b => group b <> g) (used app)) in *.
  rewrite Hfold. cbn [mbind option_bind].
  set (app1 := set_app_body_count (set_app_bodies app bs1) (length kept)).
  assert (app_ok app1) as Hok1.
  { split; [cbn; lia|]. split; [cbn; lia|]. split; [done|].
    intros j b Hj. apply list_elem_of_lookup_2, Hin, list_elem_of_lookup in Hj as [i Hi].
    eauto. }
  destruct (spawn_loop_used cfg g (requested cfg) app1 ltac:(cbn; lia) ltac:(cbn; lia))
    as (fresh & Hused & Hlenf & Hcr).
  destruct (spawn_loop_spec cfg g (requested cfg) app1 ltac:(cbn; lia) ltac:(cbn; lia))
    as (_ & _ & Hb & Hg' & Hgy & Hr & _ & _).
  cbn [app_body_count app_bounds app_rng app_groups app_gravity_y set_app_body_count
       set_app_bodies app1] in Hlenf, Hcr, Hb, Hg', Hgy, Hr.
  exists (spawn_loop cfg g (requested cfg) app1), fresh.
  split; [done|]. split; [rewrite Hused; unfold used, app1; cbn; by rewrite Htake|].
  split; [done|]. split; [done|].
  split; [by rewrite Hlenf|]. split; [done|]. split; [done|]. split; [done|].
  by apply spawn_loop_app_ok.
Qed.

Lemma build_bodies_spec app c0 c1 c2 :
  length (app_bodies app) = MAX_BODIES -> app_groups app = [c0; c1; c2] ->
  exists app' l0 l1 l2,
    bubble_app_build_bodies app = Some app' /\
    used app' = l0 ++ l1 ++ l2 /\
    Forall (created (app_bounds app) c0 0) l0 /\
    Forall (created (app_bounds app) c1 1) l1 /\
    Forall (created (app_bounds app) c2 2) l2 /\
    length l0 = Nat.min (requested c0) MAX_BODIES /\
    length l1 = Nat.min (requested c1) (MAX_BODIES - length l0) /\
    length l2 = Nat.min (requested c2) (MAX_BODIES - length l0 - length l1) /\
    app_body_count app' =
      Nat.min MAX_BODIES (requested c0 + requested c1 + requested c2) /\
    app_rng app' = rng_skip (3 * N.of_nat (app_body_count app')) (app_rng app) /\
    app_groups app' = app_groups app /\ app_bounds app' = app_bounds app /\
    app_gravity_y app' = app_gravity_y app /\
    length (app_bodies app') = MAX_BODIES /\
    forall j, (app_body_count app' <= j)%nat -> app_bodies app' !! j = app_bodies app !! j.
Proof.
  intros Hlen Hgs.
  assert (forall a cfg (g : Z), app_groups a = [c0; c1; c2] ->
            [c0; c1; c2] !! Z.to_nat g = Some cfg -> 0 <= g < 3 ->
            spawn_group a g = Some (spawn_loop cfg g (requested cfg) a)) as Hsg.
  { intros a cfg g Ha Hc Hg. unfold spawn_group, group_config. rewrite Ha.
    replace ((0 <=? g) && (g <? GROUP_COUNT)) with true
      by (symmetry; apply andb_true_iff; split; [apply Z.leb_le|apply Z.ltb_lt];
          unfold GROUP_COUNT; lia).
    by rewrite Hc. }
  unfold bubble_app_build_bodies.
  change (map Z.of_nat (seq 0 (Z.to_nat GROUP_COUNT))) with [0; 1; 2].
  cbn [fold_left].
  set (a0 := set_app_body_count app 0).
  assert (used a0 = []) as Hu0 by done.
  set (a1 := spawn_loop c0 0 (requested c0) a0).
  destruct (spawn_loop_spec c0 0 (requested c0) a0 Hlen ltac:(cbn; lia))
    as (Hc1 & Hl1 & Hb1 & Hg1 & Hy1 & Hr1 & Hs1 & _).
  destruct (spawn_loop_used c0 0 (requested c0) a0 Hlen ltac:(cbn; lia))
    as (l0 & Hused1 & Hlen0 & Hcr0).
  fold a1 in Hc1, Hl1, Hb1, Hg1, Hy1, Hr1, Hs1, Hused1.
  cbn [app_body_count app_bounds app_rng app_groups app_gravity_y app_bodies
       set_app_body_count a0] in Hc1, Hb1, Hg1, Hy1, Hr1, Hs1, Hlen0, Hcr0.
  set (a2 := spawn_loop c1 1 (requested c1) a1).
  destruct (spawn_loop_spec c1 1 (requested c1) a1 Hl1 ltac:(unfold MAX_BODIES in *; lia))
    as (Hc2 & Hl2 & Hb2 & Hg2 & Hy2 & Hr2 & Hs2 & _).
  destruct (spawn_loop_used c1 1 (requested c1) a1 Hl1 ltac:(unfold MAX_BODIES in *; lia))
    as (l1 & Hused2 & Hlen1 & Hcr1).
  fold a2 in Hc2, Hl2, Hb2, Hg2, Hy2, Hr2, Hs2, Hused2.
  set (a3 := spawn_loop c2 2 (requested c2) a2).
  destruct (spawn_loop_spec c2 2 (requested c2) a2 Hl2 ltac:(unfold MAX_BODIES in *; lia))
    as (Hc3 & Hl3 & Hb3 & Hg3 & Hy3 & Hr3 & Hs3 & _).
  destruct (spawn_loop_used c2 2 (requested c2) a2 Hl2 ltac:(unfold MAX_BODIES in *; lia))
    as (l2 & Hused3 & Hlen2 & Hcr2).
  fold a3 in Hc3, Hl3, Hb3, Hg3, Hy3, Hr3, Hs3, Hused3.
  cbn [mbind option_bind].
  rewrite (Hsg a0 c0 0 Hgs eq_refl ltac:(lia)). cbn [mbind option_bind]. fold a1.
  rewrite (Hsg a1 c1 1 ltac:(congruence) eq_refl ltac:(lia)). cbn [mbind option_bind].
  fold a2.
  rewrite (Hsg a2 c2 2 ltac:(congruence) eq_refl ltac:(lia)). fold a3.
  exists a3, l0, l1, l2. split; [done|].
  split; [by rewrite Hused3, Hused2, Hused1, Hu0, app_assoc|].
  split; [done|]. split; [by rewrite <- Hb1|]. split; [by rewrite <- Hb1, <- Hb2|].
  unfold MAX_BODIES in *.
  split; [lia|]. split; [lia|]. split; [lia|]. split; [lia|].
  split.
  { rewrite Hr3, Hr2, Hr1, <- !rng_skip_add. f_equal. lia. }
  split; [congruence|]. split; [congruence|]. split; [congruence|]. split; [done|].
  intros j Hj. rewrite Hs3, Hs2, Hs1 by lia. done.
Qed.

End PopulationFacts.

(** * The menu and the run loop *)

Section InputFacts.

Context {F : Type} {ops : FloatOps F}.

Implicit Types (app : BubbleApp F) (b : PhysicsBody F) (cfg : BubbleGroupConfig F)
  (m : Menu).

Lemma app_ok_groups_ok app : app_ok app -> groups_ok app.
Proof.
  intros (_ & _ & Hgs & Hgr) j b Hb. specialize (Hgr j b Hb).
  unfold group_config.
  replace ((0 <=? group b) && (group b <? GROUP_COUNT)) with true
    by (symmetry; apply andb_true_iff; split; [apply Z.leb_le|apply Z.ltb_lt]; lia).
  apply lookup_lt_is_Some. rewrite Hgs. lia.
Qed.

Lemma app_ok_group_config app (g : Z) :
  app_ok app -> 0 <= g < GROUP_COUNT -> is_Some (group_config app g).
Proof.
  intros (_ & _ & Hgs & _) Hg. unfold group_config.
  replace ((0 <=? g) && (g <? GROUP_COUNT)) with true
    by (symmetry; apply andb_true_iff; split; [apply Z.leb_le|apply Z.ltb_lt]; lia).
  apply lookup_lt_is_Some. rewrite Hgs. lia.
Qed.

(** The adjustment of one configuration: defined when the count can move,
    and the count it leaves can move again. *)
Lemma adjust_config_counts (field dir : Z) cfg :
  -1 <= dir <= 1 -> INT_MIN < cfg_count cfg < INT_MAX ->
  exists cfg', adjust_config field dir cfg = Some cfg' /\
    INT_MIN < cfg_count cfg' < INT_MAX /\
    (field = ConfigFieldCount -> 0 <= cfg_count cfg' <= BUBBLE_MAX_COUNT).
Proof.
  unfold INT_MIN, INT_MAX, BUBBLE_MAX_COUNT. intros Hd Hc. unfold adjust_config.
  destruct (field =? ConfigFieldCount) eqn:H0.
  - cbv zeta.
    replace ((cfg_count cfg + dir <? INT_MIN) || (INT_MAX <? cfg_count cfg + dir))
      with false
      by (symmetry; apply orb_false_iff; unfold INT_MIN, INT_MAX;
          split; apply Z.ltb_ge; lia).
    eexists. split; [reflexivity|]. cbn [cfg_count set_cfg_count].
    unfold BUBBLE_MAX_COUNT.
    destruct (cfg_count cfg + dir <? 0) eqn:E1.
    + change (64 <? 0) with false. cbv iota. lia.
    + apply Z.ltb_ge in E1.
      destruct (64 <? cfg_count cfg + dir) eqn:E2; [lia|]. apply Z.ltb_ge in E2. lia.
  - apply Z.eqb_neq in H0.
    destruct (field =? ConfigFieldRadius); [by eexists|].
    destruct (field =? ConfigFieldSpeed); [by eexists|].
    destruct (field =? ConfigFieldRestitution); [by eexists|].
    destruct (field =? ConfigFieldPopChance); by eexists.
Qed.

Lemma tick_ok app :
  app_ok app ->
  exists app', bubble_sim_tick app = Some app' /\ app_ok app' /\ same_setup app app' /\
    forall i b', (i < app_body_count app)%nat ->
      app_bodies app' !! i = Some b' -> popped b' = false.
Proof.
  intros Hok.
  destruct (bubble_sim_tick_spec app (app_ok_groups_ok app Hok))
    as (app' & Ht & Hset & Hgok & Hlen & Hpop).
  exists app'. split; [done|]. split; [|done].
  destruct Hok as (Hl & Hc & Hgs & _), Hset as (Hb' & Hg' & Hc').
  split; [by rewrite Hlen|]. split; [by rewrite Hc'|]. split; [by rewrite Hg'|].
  intros j b Hj. destruct (Hgok j b Hj) as [cfg Hcfg].
  by eapply group_config_range.
Qed.


Lemma group_config_insert app (g h : Z) cfg' :
  0 <= g -> h <> g ->
  group_config (set_app_groups app (<[Z.to_nat g := cfg']> (app_groups app))) h
  = group_config app h.
Proof.
  intros Hg Hne. unfold group_config. cbn.
  destruct (0 <=? h) eqn:H0; [|done]. destruct (h <? GROUP_COUNT) eqn:H1; [|done].
  cbn. apply Z.leb_le in H0. apply list_lookup_insert_ne. lia.
Qed.

Lemma respawn_settings_kept app b b' (r' : SimpleRng) :
  bubble_respawn_body app b = Some (b', r') -> settings_kept b b'.
Proof.
  unfold bubble_respawn_body. destruct (group_config app (group b)) as [cfg|]; [|done].
  cbn. destruct (rng_next_float01 (app_rng app)) as [u1 r1].
  destruct (rng_next_float01 r1) as [u2 r2].
  destruct (rng_next_float01 r2) as [u3 r3].
  intros [= <- <-]. done.
Qed.

Lemma visited_settings_kept (test : BubbleApp F -> PhysicsBody F -> bool) app b b' :
  visited test app b b' -> settings_kept b b'.
Proof.
  intros [[-> _]|[_ (app1 & r' & _ & Hr)]]; [done|]. by eapply respawn_settings_kept.
Qed.

Lemma settings_kept_trans b1 b2 b3 :
  settings_kept b1 b2 -> settings_kept b2 b3 -> settings_kept b1 b3.
Proof. unfold settings_kept. intros (?&?&?&?&?) (?&?&?&?&?). repeat split; congruence. Qed.

(** A turn of the run loop changes no body's radius, mass, material or
    group. *)
Lemma tick_settings_kept app app' :
  groups_ok app -> bubble_sim_tick app = Some app' ->
  forall i b, app_bodies app !! i = Some b ->
    exists b', app_bodies app' !! i = Some b' /\ settings_kept b b'.
Proof.
  intros Hok. unfold bubble_sim_tick. cbv zeta.
  destruct (physics_step_some (app_bodies app) (app_body_count app) (lit 3 100)
              (app_gravity_y app) (Some (app_bounds app)) (Some (app_rng app)))
    as (bs1 & rng1 & Hstep & Hk).
  pose proof (physics_step_groups_ok app _ _ _ Hok Hstep) as Hok1.
  rewrite Hstep. change (default (app_bodies app) (Some bs1)) with bs1.
  set (app1 := set_app_rng (set_app_bodies app bs1) (default (app_rng app) rng1)) in *.
  destruct (pass_prefix (fun _ b => popped b) respawn_if_popped
              ltac:(reflexivity) ltac:(reflexivity) app1 (app_body_count app1) Hok1)
    as (app2 & Hpop & Hset2 & Hok2 & Hlen2 & Hslots2).
  unfold respawn_popped, for_each_body. rewrite Hpop. cbn [mbind option_bind].
  destruct (pass_prefix
              (fun a b => (y b + radius b <? min_y (app_bounds a) - of_int 20)%fl)
              respawn_if_off_top ltac:(reflexivity)
              ltac:(by intros a a' b (-> & _)) app2 (app_body_count app2) Hok2)
    as (app3 & Hfold & Hset3 & Hok3 & Hlen3 & Hslots3).
  unfold respawn_off_top, for_each_body. rewrite Hfold. intros [= <-] i b Hb.
  destruct (Forall2_lookup_l _ _ _ _ _ Hk Hb) as (b1 & Hb1 & (?&?&?&?&?&_)).
  destruct (Hslots2 i b1 Hb1) as (b2 & Hb2 & Hv2).
  destruct (Hslots3 i b2 Hb2) as (b3 & Hb3 & Hv3).
  exists b3. split; [done|].
  apply (settings_kept_trans b b1); [done|]. apply (settings_kept_trans b1 b2).
  - destruct (decide (i < app_body_count app1)%nat); [|by subst].
    by eapply visited_settings_kept.
  - destruct (decide (i < app_body_count app2)%nat); [|by subst].
    by eapply visited_settings_kept.
Qed.

Lemma follows_groups app app' b b' :
  app_groups app' = app_groups app -> settings_kept b b' ->
  follows app b -> follows app' b'.
Proof.
  intros Hg (Hr & Hm & He & Hgr & Hp) (cfg & Hcfg & ? & ? & ? & ?).
  exists cfg. unfold group_config in *. rewrite Hg, Hgr, Hr, Hm, He, Hp. done.
Qed.

Lemma created_follows app (g : Z) cfg b :
  group_config app g = Some cfg -> created (app_bounds app) cfg g b -> follows app b.
Proof. intros Hcfg (r & ->). by exists cfg. Qed.

Lemma tick_follows app app' :
  app_ok app -> bodies_follow app -> bubble_sim_tick app = Some app' ->
  bodies_follow app'.
Proof.
  intros Hok Hf Ht.
  destruct (tick_ok app Hok) as (app1 & Ht1 & Hok1 & (Hb & Hg & Hc) & _).
  rewrite Ht in Ht1. injection Ht1 as <-.
  pose proof (tick_settings_kept app app' (app_ok_groups_ok app Hok) Ht) as Hk.
  unfold bodies_follow, used in *. rewrite Forall_lookup in Hf. apply Forall_lookup.
  intros i b' Hi. apply lookup_take_Some in Hi as [Hi Hlt].
  destruct (lookup_lt_is_Some_2 (app_bodies app) i) as [b Hbi].
  { destruct Hok as (Hl & ? & _). rewrite Hc in Hlt. lia. }
  destruct (Hk i b Hbi) as (b'' & Hb'' & Hkept).
  assert (b'' = b') as -> by congruence.
  eapply follows_groups; [done|done|]. apply (Hf i).
  rewrite lookup_take_lt by lia. done.
Qed.

(** Rebuilding a group from its configuration. *)
Lemma reinit_follows app (g : Z) cfg app' :
  app_ok app -> group_config app g = Some cfg ->
  Forall (follows app) (filter (fun b => group b <> g) (used app)) ->
  bubble_app_reinit_group app g = Some app' ->
  app_ok app' /\ bodies_follow app' /\ app_groups app' = app_groups app /\
  app_bounds app' = app_bounds app.
Proof.
  intros Hok Hcfg Hf Hre.
  destruct (reinit_group_spec app g cfg Hok Hcfg)
    as (app1 & fresh & Hre1 & Hused & _ & Hcr & _ & Hgs & Hb & _ & Hok1).
  rewrite Hre in Hre1. injection Hre1 as <-.
  split; [done|]. split; [|done].
  unfold bodies_follow. rewrite Hused. apply Forall_app. split.
  - eapply Forall_impl; [exact Hf|]. intros b Hb'.
    by eapply follows_groups.
  - eapply Forall_impl; [exact Hcr|]. intros b Hb'.
    eapply (created_follows app' g cfg); [|by rewrite Hb].
    unfold group_config in *. by rewrite Hgs.
Qed.

(** An adjustment, when it is defined. *)
Lemma adjust_field_follows app m (dir : Z) app' :
  app_ok app -> bodies_follow app -> bubble_adjust_field app m dir = Some app' ->
  app_ok app' /\ bodies_follow app' /\ app_bounds app' = app_bounds app.
Proof.
  intros Hok Hf. unfold bubble_adjust_field.
  destruct ((menu_field m <? 0) || (ConfigFieldCountEnum <=? menu_field m));
    [by intros [= <-]|].
  destruct (group_config app (selected_group m)) as [cfg|] eqn:Hcfg; [|done].
  cbn [mbind option_bind].
  destruct (adjust_config (menu_field m) dir cfg) as [cfg'|]; [|done].
  cbn [mbind option_bind]. unfold bubble_save_and_reinit.
  set (app2 := set_app_groups app (<[Z.to_nat (selected_group m) := cfg']> (app_groups app))).
  intros Hre.
  assert (app_ok app2) as Hok2.
  { destruct Hok as (? & ? & Hgs & ?). split; [done|]. split; [done|].
    split; [cbn; by rewrite length_insert|done]. }
  assert (group_config app2 (selected_group m) = Some cfg') as Hcfg2.
  { unfold group_config in *.
    destruct ((0 <=? selected_group m) && (selected_group m <? GROUP_COUNT)); [|done].
    cbn. apply list_lookup_insert_eq. by eapply lookup_lt_Some. }
  destruct (reinit_follows app2 (selected_group m) cfg' app' Hok2 Hcfg2) as (? & ? & _ & ?);
    [|done|done].
  change (used app2) with (used app).
  apply Forall_forall. intros b Hb. apply list_elem_of_filter in Hb as [Hg Hb].
  unfold bodies_follow in Hf. rewrite Forall_forall in Hf.
  destruct (Hf b Hb) as (c & Hc & ?). exists c. split; [|done].
  unfold app2. rewrite group_config_insert; [done| |done].
  apply group_config_range in Hcfg. lia.
Qed.

Lemma handle_input_follows app m (ty : InputType) (key : InputKey) (running : bool)
    app' m' (running' : bool) :
  app_ok app -> bodies_follow app ->
  bubble_handle_input app m ty key running = Some (app', m', running') ->
  app_ok app' /\ bodies_follow app' /\ app_bounds app' = app_bounds app.
Proof.
  intros Hok Hf. unfold bubble_handle_input.
  destruct ty, key; cbv zeta;
    try (intros [= <- <- <-]; done);
    try (destruct (INT_MAX <? selected_group m + 1); [done|intros [= <- <- <-]; done]);
    (destruct (bubble_adjust_field app m _) as [app1|] eqn:Hadj; [|done];
     cbn [mbind option_bind]; intros [= <- <- <-];
     by eapply adjust_field_follows).
Qed.

Lemma turn_follows (ev : option (InputType * InputKey)) app m (running : bool)
    app' m' (running' : bool) :
  app_ok app -> bodies_follow app ->
  bubble_sim_turn ev (app, m, running) = Some (app', m', running') ->
  app_ok app' /\ bodies_follow app' /\ app_bounds app' = app_bounds app.
Proof.
  intros Hok Hf. unfold bubble_sim_turn.
  destruct (match ev with
            | Some (ty, key) => bubble_handle_input app m ty key running
            | None => Some (app, m, running)
            end) as [[[app1 m1] r1]|] eqn:Hin; [|done].
  assert (app_ok app1 /\ bodies_follow app1 /\ app_bounds app1 = app_bounds app)
    as (Hok1 & Hf1 & Hb1).
  { destruct ev as [[ty key]|]; [by eapply handle_input_follows|].
    by injection Hin as <- <- <-. }
  cbn [mbind option_bind].
  destruct (bubble_sim_tick app1) as [app2|] eqn:Ht; [|done].
  cbn [mbind option_bind]. intros [= <- <- <-].
  destruct (tick_ok app1 Hok1) as (app2' & Ht' & Hok2 & (Hb2 & _) & _).
  rewrite Ht in Ht'. injection Ht' as <-.
  split; [done|]. split; [exact (tick_follows app1 app2 Hok1 Hf1 Ht)|congruence].
Qed.

Lemma loop_follows (evs : list (option (InputType * InputKey))) app m (running : bool)
    app' m' (running' : bool) :
  app_ok app -> bodies_follow app ->
  bubble_sim_loop evs (app, m, running) = Some (app', m', running') ->
  app_ok app' /\ bodies_follow app' /\ app_bounds app' = app_bounds app.
Proof.
  revert app m running. induction evs as [|ev evs IH]; intros app m running Hok Hf.
  - by intros [= <- <- <-].
  - cbn [bubble_sim_loop snd]. destruct running; [|by intros [= <- <- <-]].
    destruct (bubble_sim_turn ev (app, m, true)) as [[[app1 m1] r1]|] eqn:Ht; [|done].
    cbn [mbind option_bind]. intros Hl.
    destruct (turn_follows ev app m true app1 m1 r1 Hok Hf Ht) as (Hok1 & Hf1 & Hb1).
    destruct (IH app1 m1 r1 Hok1 Hf1 Hl) as (? & ? & ?).
    split; [done|]. split; [done|congruence].
Qed.

(** The bodies that [bubble_app_build_bodies] makes follow the settings. *)
Lemma build_follows app c0 c1 c2 app' :
  length (app_bodies app) = MAX_BODIES -> app_groups app = [c0; c1; c2] ->
  bubble_app_build_bodies app = Some app' -> bodies_follow app'.
Proof.
  intros Hlen Hgs Hb.
  destruct (build_bodies_spec app c0 c1 c2 Hlen Hgs)
    as (app1 & l0 & l1 & l2 & Hb1 & Hused & H0 & H1 & H2 & _ & _ & _ & _ & _ & Hg & Hbd & _).
  rewrite Hb in Hb1. injection Hb1 as <-.
  unfold bodies_follow. rewrite Hused, !Forall_app. rewrite <- Hbd in H0, H1, H2.
  assert (forall (g : Z) cfg, [c0; c1; c2] !! Z.to_nat g = Some cfg -> 0 <= g < 3 ->
            group_config app' g = Some cfg) as Hcfg.
  { intros g cfg Hl Hr. unfold group_config. rewrite Hg, Hgs.
    replace ((0 <=? g) && (g <? GROUP_COUNT)) with true
      by (symmetry; apply andb_true_iff; split; [apply Z.leb_le|apply Z.ltb_lt];
          unfold GROUP_COUNT; lia).
    done. }
  split; [|split]; (eapply Forall_impl; [eassumption|]); intros b Hcr;
    eapply created_follows; try exact Hcr; apply Hcfg; (done || lia).
Qed.

Lemma counts_adjust (field dir : Z) cfg :
  -1 <= dir <= 1 -> INT_MIN < cfg_count cfg < INT_MAX ->
  exists cfg', adjust_config field dir cfg = Some cfg' /\
    INT_MIN < cfg_count cfg' < INT_MAX.
Proof.
  intros Hd Hc.
  destruct (adjust_config_counts field dir cfg Hd Hc) as (cfg' & ? & ? & _). eauto.
Qed.

(** A property [Q] of the configurations that every adjustment keeps, and
    under which every adjustment is defined, holds all along the run. *)
Section Settings.

Variable Q : BubbleGroupConfig F -> Prop.
Hypothesis adjust_Q : forall (field dir : Z) cfg,
  -1 <= dir <= 1 -> Q cfg ->
  exists cfg', adjust_config field dir cfg = Some cfg' /\ Q cfg'.

Lemma adjust_field_ok app m (dir : Z) :
  -1 <= dir <= 1 -> app_ok app -> menu_ok m -> Forall Q (app_groups app) ->
  exists app', bubble_adjust_field app m dir = Some app' /\
    app_ok app' /\ Forall Q (app_groups app') /\ app_bounds app' = app_bounds app.
Proof.
  intros Hd Hok (Hsel & Hfield) Hcnt. unfold bubble_adjust_field.
  replace ((menu_field m <? 0) || (ConfigFieldCountEnum <=? menu_field m)) with false
    by (symmetry; apply orb_false_iff; split; [apply Z.ltb_ge|apply Z.leb_gt]; lia).
  destruct (app_ok_group_config app (selected_group m) Hok Hsel) as [cfg Hcfg].
  rewrite Hcfg. cbn [mbind option_bind].
  assert (app_groups app !! Z.to_nat (selected_group m) = Some cfg) as Hlk.
  { unfold group_config in Hcfg.
    by destruct ((0 <=? selected_group m) && (selected_group m <? GROUP_COUNT)). }
  destruct (adjust_Q (menu_field m) dir cfg Hd) as (cfg' & Hadj & Hc').
  { rewrite Forall_lookup in Hcnt. by eapply Hcnt. }
  rewrite Hadj. cbn [mbind option_bind]. unfold bubble_save_and_reinit.
  set (app2 := set_app_groups app (<[Z.to_nat (selected_group m) := cfg']> (app_groups app))).
  assert (app_ok app2) as Hok2.
  { destruct Hok as (? & ? & Hgs & ?). split; [done|]. split; [done|].
    split; [cbn; by rewrite length_insert|done]. }
  assert (group_config app2 (selected_group m) = Some cfg') as Hcfg2.
  { unfold group_config in *.
    destruct ((0 <=? selected_group m) && (selected_group m <? GROUP_COUNT)); [|done].
    cbn. apply list_lookup_insert_eq. by eapply lookup_lt_Some. }
  destruct (reinit_group_spec app2 (selected_group m) cfg' Hok2 Hcfg2)
    as (app' & fresh & Hre & _ & _ & _ & _ & Hgs' & Hb' & Hy' & Hok').
  exists app'. split; [done|]. split; [done|].
  split; [|by rewrite Hb'].
  rewrite Hgs'. cbn. by apply Forall_insert.
Qed.

(** What [bubble_handle_input] keeps, whatever the event. *)
Lemma handle_input_ok app m (ty : InputType) (key : InputKey) (running : bool) :
  app_ok app -> menu_ok m -> Forall Q (app_groups app) ->
  exists app' m' running',
    bubble_handle_input app m ty key running = Some (app', m', running') /\
    app_ok app' /\ menu_ok m' /\ Forall Q (app_groups app') /\
    app_bounds app' = app_bounds app.
Proof.
  intros Hok Hm Hcnt.
  destruct (adjust_field_ok app m (-1) ltac:(lia) Hok Hm Hcnt)
    as (appl & Hl & Hokl & Hcl & Hbl).
  destruct (adjust_field_ok app m 1 ltac:(lia) Hok Hm Hcnt)
    as (appr & Hr & Hokr & Hcr & Hbr).
  assert (menu_ok (set_menu_field m
            (if menu_field m =? 0 then ConfigFieldCountEnum - 1 else menu_field m - 1)))
    as Hup.
  { destruct Hm as (Hs & Hf). split; [done|]. cbn.
    unfold ConfigFieldCountEnum in *.
    destruct (menu_field m =? 0) eqn:E; [lia|]. apply Z.eqb_neq in E. lia. }
  assert (menu_ok (set_menu_field m
            (if ConfigFieldCountEnum <=? menu_field m + 1
             then ConfigFieldCount else menu_field m + 1))) as Hdown.
  { destruct Hm as (Hs & Hf). split; [done|]. cbn.
    unfold ConfigFieldCountEnum, ConfigFieldCount in *.
    destruct (5 <=? menu_field m + 1) eqn:E; [lia|]. apply Z.leb_gt in E. lia. }
  assert (menu_ok (set_selected_group m
            (if GROUP_COUNT <=? selected_group m + 1 then 0 else selected_group m + 1)))
    as Hnext.
  { destruct Hm as (Hs & Hf). split; [|done]. cbn. unfold GROUP_COUNT in *.
    destruct (3 <=? selected_group m + 1) eqn:E; [lia|]. apply Z.leb_gt in E. lia. }
  assert (menu_ok (set_hud_visible m (negb (hud_visible m)))) as Hhud by done.
  assert ((INT_MAX <? selected_group m + 1) = false) as Hint
    by (apply Z.ltb_ge; destruct Hm as (Hs & _);
        unfold INT_MAX, GROUP_COUNT in *; lia).
  unfold bubble_handle_input.
  destruct ty, key; cbv zeta; rewrite ?Hl, ?Hr, ?Hint; cbn [mbind option_bind];
    do 3 eexists; (split; [reflexivity|]);
    (split; [assumption|split; [assumption|split; [assumption|]]]);
    first [assumption|reflexivity].
Qed.

Lemma turn_ok (ev : option (InputType * InputKey)) app m (running : bool) :
  app_ok app -> menu_ok m -> Forall Q (app_groups app) ->
  exists app' m' running',
    bubble_sim_turn ev (app, m, running) = Some (app', m', running') /\
    app_ok app' /\ menu_ok m' /\ Forall Q (app_groups app') /\ app_bounds app' = app_bounds app.
Proof.
  intros Hok Hm Hcnt. unfold bubble_sim_turn.
  assert (exists app1 m1 r1,
            match ev with
            | Some (ty, key) => bubble_handle_input app m ty key running
            | None => Some (app, m, running)
            end = Some (app1, m1, r1) /\
            app_ok app1 /\ menu_ok m1 /\ Forall Q (app_groups app1) /\
            app_bounds app1 = app_bounds app)
    as (app1 & m1 & r1 & -> & Hok1 & Hm1 & Hcnt1 & Hb1).
  { destruct ev as [[ty key]|]; [by apply handle_input_ok|].
    by exists app, m, running. }
  cbn [mbind option_bind].
  destruct (tick_ok app1 Hok1) as (app2 & -> & Hok2 & (Hb2 & Hg2 & _) & _).
  cbn [mbind option_bind]. exists app2, m1, r1. split; [done|]. split; [done|].
  split; [done|]. split; [|congruence].
  by rewrite Hg2.
Qed.

Lemma loop_ok (evs : list (option (InputType * InputKey))) app m (running : bool) :
  app_ok app -> menu_ok m -> Forall Q (app_groups app) ->
  exists app' m' running',
    bubble_sim_loop evs (app, m, running) = Some (app', m', running') /\
    app_ok app' /\ menu_ok m' /\ Forall Q (app_groups app') /\ app_bounds app' = app_bounds app.
Proof.
  revert app m running. induction evs as [|ev evs IH]; intros app m running Hok Hm Hcnt.
  - by exists app, m, running.
  - cbn [bubble_sim_loop snd]. destruct running; [|by exists app, m, false].
    destruct (turn_ok ev app m true Hok Hm Hcnt)
      as (app1 & m1 & r1 & -> & Hok1 & Hm1 & Hcnt1 & Hb1).
    cbn [mbind option_bind].
    destruct (IH app1 m1 r1 Hok1 Hm1 Hcnt1) as (app2 & m2 & r2 & H2 & ? & ? & ? & Hb2).
    exists app2, m2, r2. split; [done|]. split; [done|]. split; [done|].
    split; [done|congruence].
Qed.

End Settings.

(** The start of the program: whatever the configuration file holds, the
    bodies are built and the application is well formed. *)
Lemma init_ok (tick : Z)
    (file : option (BubbleGroupConfig F * BubbleGroupConfig F * BubbleGroupConfig F)) :
  exists app m, bubble_sim_app_init tick file = Some (app, m) /\
    app_ok app /\ menu_ok m /\ bodies_follow app /\
    exists c0 c1 c2, app_groups app = [c0; c1; c2] /\
      (forall d0 d1 d2, file = Some (d0, d1, d2) -> [c0; c1; c2] = [d0; d1; d2]) /\
      (file = None ->
       app_groups app = app_groups (bubble_app_init_groups app)) /\
      app_body_count app =
        Nat.min MAX_BODIES (requested c0 + requested c1 + requested c2).
Proof.
  unfold bubble_sim_app_init. cbv zeta.
  set (app0 := {| app_bodies := replicate MAX_BODIES zero_body |}).
  set (app1 := bubble_load_config (bubble_app_init_groups app0) file).
  assert (exists c0 c1 c2, app_groups app1 = [c0; c1; c2] /\
            (forall d0 d1 d2, file = Some (d0, d1, d2) -> [c0; c1; c2] = [d0; d1; d2]) /\
            (file = None -> [c0; c1; c2] = app_groups (bubble_app_init_groups app0)))
    as (c0 & c1 & c2 & Hgs & Hfile & Hnone).
  { unfold app1. destruct file as [[[d0 d1] d2]|].
    - exists d0, d1, d2. split; [done|]. split; [|done]. by intros ? ? ? [= -> -> ->].
    - do 3 eexists. split; [reflexivity|]. split; [done|]. done. }
  assert (app_bodies app1 = replicate MAX_BODIES zero_body) as Hbs
    by (unfold app1; by destruct file as [[[? ?] ?]|]).
  destruct (build_bodies_spec app1 c0 c1 c2 ltac:(by rewrite Hbs, length_replicate) Hgs)
    as (app2 & l0 & l1 & l2 & Hbuild & Hused & Hcr0 & Hcr1 & Hcr2 & _ & _ & _ & Hc & _ &
        Hg2 & _ & _ & Hlen & Hrest).
  pose proof (build_follows app1 c0 c1 c2 app2 ltac:(by rewrite Hbs, length_replicate)
                Hgs Hbuild) as Hfollow.
  rewrite Hbuild.
  cbn [mbind option_bind]. do 2 eexists. split; [reflexivity|].
  split.
  { split; [done|]. split; [rewrite Hc; lia|]. split; [by rewrite Hg2, Hgs|].
    intros j b Hj. destruct (decide (j < app_body_count app2)%nat) as [Hlt|Hge].
    - assert (b ∈ l0 ++ l1 ++ l2) as Hin.
      { rewrite <- Hused. apply list_elem_of_lookup. exists j. unfold used.
        by rewrite lookup_take_lt. }
      rewrite !elem_of_app in Hin. rewrite Forall_forall in Hcr0, Hcr1, Hcr2.
      destruct Hin as [Hin|[Hin|Hin]];
        [apply Hcr0 in Hin|apply Hcr1 in Hin|apply Hcr2 in Hin];
        destruct Hin as (r & ->); done.
    - rewrite Hrest, Hbs in Hj by lia. apply lookup_replicate in Hj as [-> _]. done. }
  split; [done|]. split; [done|].
  exists c0, c1, c2. split; [by rewrite Hg2|]. split; [done|]. split; [|done].
  intros Hn. cbn. rewrite Hg2, Hgs. by rewrite Hnone.
Qed.


(** X10: [bubble_app_build_bodies] on the array of [MAX_BODIES] slots and
    three configurations.  It is defined; the bodies in use afterwards are
    the bodies created for group 0, then those for group 1, then those for
    group 2, each as the creation loop makes a body from its group's
    configuration; a group gets its count (0 for a negative one) or what is
    left of the 48 slots, so that [min 48 (n0 + n1 + n2)] bodies are in use;
    the generator has made three draws for each of them; the slots beyond the
    count hold what they held and bounds, gravity and groups are as before. *)
Theorem bubble_app_build_bodies_population app c0 c1 c2 :
  length (app_bodies app) = MAX_BODIES -> app_groups app = [c0; c1; c2] ->
  exists app' l0 l1 l2,
    bubble_app_build_bodies app = Some app' /\
    used app' = l0 ++ l1 ++ l2 /\
    Forall (created (app_bounds app) c0 0) l0 /\
    Forall (created (app_bounds app) c1 1) l1 /\
    Forall (created (app_bounds app) c2 2) l2 /\
    length l0 = Nat.min (requested c0) MAX_BODIES /\
    length l1 = Nat.min (requested c1) (MAX_BODIES - length l0) /\
    length l2 = Nat.min (requested c2) (MAX_BODIES - length l0 - length l1) /\
    app_body_count app' =
      Nat.min MAX_BODIES (requested c0 + requested c1 + requested c2) /\
    app_rng app' = rng_skip (3 * N.of_nat (app_body_count app')) (app_rng app) /\
    app_groups app' = app_groups app /\ app_bounds app' = app_bounds app /\
    app_gravity_y app' = app_gravity_y app /\
    length (app_bodies app') = MAX_BODIES /\
    forall j, (app_body_count app' <= j)%nat -> app_bodies app' !! j = app_bodies app !! j.
Proof. apply build_bodies_spec. Qed.

(** X11: [bubble_app_reinit_group] on a well-formed application, for a
    group that has a configuration.  It is defined; the bodies in use
    afterwards are the bodies of the other groups that were in use, in their
    order, followed by new bodies of the group, created from its
    configuration: as many as its count (0 for a negative one) or as the array
    has room for.  The generator has made three draws for each new body;
    bounds, gravity and groups are as before and the application is still
    well formed. *)
Theorem bubble_app_reinit_group_rebuilds app (g : Z) cfg :
  app_ok app -> group_config app g = Some cfg ->
  exists app' fresh,
    bubble_app_reinit_group app g = Some app' /\
    used app' = filter (fun b => group b <> g) (used app) ++ fresh /\
    length fresh =
      Nat.min (requested cfg)
              (MAX_BODIES - length (filter (fun b => group b <> g) (used app))) /\
    Forall (created (app_bounds app) cfg g) fresh /\
    app_rng app' = rng_skip (3 * N.of_nat (length fresh)) (app_rng app) /\
    app_groups app' = app_groups app /\ app_bounds app' = app_bounds app /\
    app_gravity_y app' = app_gravity_y app /\
    app_ok app'.
Proof. apply reinit_group_spec. Qed.

(** X12: Left or Right on the field "count".  With the count [n] of the
    selected group away from the ends of [int], [bubble_adjust_field] is
    defined, the count becomes [n + dir] brought into [0, BUBBLE_MAX_COUNT],
    nothing else in that configuration and no other configuration changes,
    and the group is rebuilt from the new configuration: the bodies of the
    other groups stay, in their order, and the group gets as many new bodies
    as the new count or as the array has room for (the count may be up to 64,
    the array holds 48). *)
Theorem bubble_adjust_field_count app m (dir : Z) cfg :
  app_ok app -> menu_field m = ConfigFieldCount ->
  group_config app (selected_group m) = Some cfg ->
  -1 <= dir <= 1 -> INT_MIN < cfg_count cfg < INT_MAX ->
  let n := Z.max 0 (Z.min BUBBLE_MAX_COUNT (cfg_count cfg + dir)) in
  let kept := filter (fun b => group b <> selected_group m) (used app) in
  exists app' fresh,
    bubble_adjust_field app m dir = Some app' /\
    group_config app' (selected_group m) = Some (set_cfg_count cfg n) /\
    (forall h, h <> selected_group m -> group_config app' h = group_config app h) /\
    used app' = kept ++ fresh /\
    length fresh = Nat.min (Z.to_nat n) (MAX_BODIES - length kept) /\
    Forall (created (app_bounds app) (set_cfg_count cfg n) (selected_group m)) fresh /\
    app_ok app'.
Proof.
  intros Hok Hf Hcfg Hd Hc n kept. unfold bubble_adjust_field.
  rewrite Hf. change ((ConfigFieldCount <? 0) || (ConfigFieldCountEnum <=? ConfigFieldCount))
    with false. cbv iota. rewrite Hcfg. cbn [mbind option_bind].
  assert (adjust_config ConfigFieldCount dir cfg = Some (set_cfg_count cfg n)) as ->.
  { unfold adjust_config. change (ConfigFieldCount =? ConfigFieldCount) with true.
    cbv iota zeta. unfold INT_MIN, INT_MAX, BUBBLE_MAX_COUNT in *.
    replace ((cfg_count cfg + dir <? - 2 ^ 31) || (2 ^ 31 - 1 <? cfg_count cfg + dir))
      with false by (symmetry; apply orb_false_iff; split; apply Z.ltb_ge; lia).
    do 2 f_equal. unfold n, BUBBLE_MAX_COUNT.
    destruct (cfg_count cfg + dir <? 0) eqn:E1.
    - apply Z.ltb_lt in E1. change (64 <? 0) with false. cbv iota. lia.
    - apply Z.ltb_ge in E1. destruct (64 <? cfg_count cfg + dir) eqn:E2.
      + apply Z.ltb_lt in E2. lia.
      + apply Z.ltb_ge in E2. lia. }
  cbn [mbind option_bind]. unfold bubble_save_and_reinit.
  set (cfg' := set_cfg_count cfg n).
  set (app2 := set_app_groups app (<[Z.to_nat (selected_group m) := cfg']> (app_groups app))).
  assert (app_ok app2) as Hok2.
  { destruct Hok as (? & ? & Hgs & ?). split; [done|]. split; [done|].
    split; [cbn; by rewrite length_insert|done]. }
  assert (group_config app2 (selected_group m) = Some cfg') as Hcfg2.
  { unfold group_config in *.
    destruct ((0 <=? selected_group m) && (selected_group m <? GROUP_COUNT)); [|done].
    cbn. apply list_lookup_insert_eq. by eapply lookup_lt_Some. }
  destruct (reinit_group_spec app2 (selected_group m) cfg' Hok2 Hcfg2)
    as (app' & fresh & Hre & Hused & Hlen & Hcr & _ & Hgs' & Hb' & _ & Hok').
  exists app', fresh. split; [done|].
  assert (forall h, group_config app' h = group_config app2 h) as Hgc
    by (intros h; unfold group_config; by rewrite Hgs').
  split; [by rewrite Hgc|].
  split.
  { intros h Hh. rewrite Hgc. apply group_config_insert; [|done].
    apply group_config_range in Hcfg. lia. }
  split; [done|]. split; [|done].
  rewrite Hlen. unfold requested. cbn [cfg_count cfg' set_cfg_count].
  replace (n <? 0) with false by (symmetry; apply Z.ltb_ge; unfold n; lia). done.
Qed.

(** X13: the menu keys go round.  On a menu that selects an existing field
    and group, a short press of Down undoes one of Up and conversely, five
    presses of Down and three presses of Ok each lead back to where they
    started; none of these keys touches the application or stops the loop. *)
Theorem menu_keys_cycle app m (running : bool) :
  menu_ok m ->
  let st := Some (app, m, running) in
  press InputKeyUp (press InputKeyDown st) = st /\
  press InputKeyDown (press InputKeyUp st) = st /\
  Nat.iter 5 (press InputKeyDown) st = st /\
  Nat.iter 3 (press InputKeyOk) st = st.
Proof.
  intros [Hg Hf]. destruct m as [g f h]. cbn in Hg, Hf.
  unfold GROUP_COUNT, ConfigFieldCountEnum in *.
  assert (f = 0 \/ f = 1 \/ f = 2 \/ f = 3 \/ f = 4) as Hfs by lia.
  assert (g = 0 \/ g = 1 \/ g = 2) as Hgs by lia.
  destruct Hfs as [->|[->|[->|[->| ->]]]], Hgs as [->|[->| ->]]; by cbv.
Qed.

(** X14: the run loop is safe.  From a well-formed application, a menu that
    selects an existing field and group and configured counts away from the
    ends of [int], the loop is defined for every sequence of events: no array
    is indexed out of range and no [int] overflows; and the state it ends in
    is again of that kind, in the same arena. *)
Theorem bubble_sim_loop_safe (evs : list (option (InputType * InputKey))) app m
    (running : bool) :
  app_ok app -> menu_ok m -> counts_ok app ->
  exists app' m' running',
    bubble_sim_loop evs (app, m, running) = Some (app', m', running') /\
    app_ok app' /\ menu_ok m' /\ counts_ok app' /\ app_bounds app' = app_bounds app.
Proof.
  intros Hok Hm Hcnt.
  by apply (loop_ok _ counts_adjust).
Qed.


(** X21: the bodies follow the settings.  If every body in use of a
    well-formed application has the radius, the inverse mass 1, the
    restitution and the pop chance that the configuration of its group gives,
    then so has every body in use after the run loop, whatever the sequence of
    events: physics and respawns change none of these, and an adjustment of a
    setting rebuilds every body of the group it changes. *)
Theorem bodies_follow_settings (evs : list (option (InputType * InputKey))) app m
    (running : bool) app' m' (running' : bool) :
  app_ok app -> bodies_follow app ->
  bubble_sim_loop evs (app, m, running) = Some (app', m', running') ->
  bodies_follow app'.
Proof.
  intros Hok Hf Hl. by destruct (loop_follows evs app m running app' m' running' Hok Hf Hl)
    as (_ & ? & _).
Qed.

End InputFacts.

(** * The limits of the settings, on binary32 *)

Section Binary32Limits.

Import B32.

Lemma iter_pos_invariant {A : Type} (P : A -> Prop) (f : A -> A) :
  (forall a, P a -> P (f a)) -> forall n a, P a -> P (SpecFloat.iter_pos f n a).
Proof.
  intros Hf. induction n as [n IH|n IH|]; intros a Ha; cbn [SpecFloat.iter_pos]; auto.
Qed.

Lemma shr_1_nonneg (mrs : shr_record) : 0 <= shr_m mrs -> 0 <= shr_m (shr_1 mrs).
Proof. destruct mrs as [[|[p|p|]|p] r s]; cbn; lia. Qed.

Lemma shr_fexp_nonneg (m e : Z) (l : location) :
  0 <= m -> 0 <= shr_m (fst (shr_fexp prec emax m e l)).
Proof.
  intros Hm. unfold shr_fexp, shr.
  assert (0 <= shr_m (shr_record_of_loc m l)) as H0 by (by destruct l as [|[]]).
  destruct (fexp prec emax (Zdigits2 m + e) - e) as [|p|p]; cbn [fst]; try done.
  by apply iter_pos_invariant; [apply shr_1_nonneg|].
Qed.

Lemma round_nearest_even_nonneg (m : Z) (l : location) :
  0 <= m -> 0 <= round_nearest_even m l.
Proof.
  intros Hm. destruct l as [|[]]; cbn; try lia. destruct (Z.even m); lia.
Qed.

(** Rounding a mantissa that is not negative never gives a NaN. *)
Lemma binary_round_aux_not_nan (sx : bool) (mx ex : Z) (lx : location) :
  0 <= mx -> is_nan (binary_round_aux prec emax sx mx ex lx) = false.
Proof.
  intros Hm. unfold binary_round_aux.
  pose proof (shr_fexp_nonneg mx ex lx Hm) as H1.
  destruct (shr_fexp prec emax mx ex lx) as [mrs' e']. cbn [fst] in H1.
  pose proof (shr_fexp_nonneg _ e' loc_Exact
                (round_nearest_even_nonneg _ (loc_of_shr_record mrs') H1)) as H2.
  destruct (shr_fexp prec emax (round_nearest_even _ _) e' loc_Exact) as [mrs'' e''].
  cbn [fst] in H2. destruct (shr_m mrs'') as [|m|m]; [done| |lia].
  by destruct (e'' <=? emax - prec).
Qed.

Lemma binary_normalize_not_nan (m e : Z) (szero : bool) :
  is_nan (binary_normalize prec emax m e szero) = false.
Proof.
  unfold binary_normalize, binary_round.
  destruct m as [|p|p]; [done| |];
    destruct (shl_align _ _ _) as [mz ez]; by apply binary_round_aux_not_nan.
Qed.

(** A sum is a NaN only if a term is one, or both are infinite. *)
Lemma SFadd_not_nan (u v : spec_float) :
  is_nan u = false -> is_finite v = true -> is_nan (SFadd prec emax u v) = false.
Proof.
  destruct u as [su|su| |su mu eu], v as [sv|sv| |sv mv ev]; try done; intros _ _;
    cbn [SFadd]; try (by destruct su, sv).
  apply binary_normalize_not_nan.
Qed.

Lemma SFcompare_antisym (u v : spec_float) :
  SFcompare v u = option_map CompOpp (SFcompare u v).
Proof.
  destruct u as [su|su| |su mu eu], v as [sv|sv| |sv mv ev]; cbn;
    try (by destruct su); try (by destruct sv); try (by destruct su, sv).
  f_equal. rewrite (Z.compare_antisym eu ev).
  assert (Pos.compare_cont Eq mv mu = CompOpp (Pos.compare_cont Eq mu mv)) as ->
    by (by rewrite Pos.compare_cont_antisym).
  by destruct su, sv, (eu ?= ev), (Pos.compare_cont Eq mu mv).
Qed.

Lemma SFcompare_refl (u : spec_float) : is_nan u = false -> SFcompare u u = Some Eq.
Proof.
  destruct u as [su|su| |su mu eu]; try done; intros _; cbn; [by destruct su|].
  rewrite Z.compare_refl, Pos.compare_cont_refl. by destruct su.
Qed.

(** Without a NaN, "not below" is "at least". *)
Lemma SFltb_false_leb (u v : spec_float) :
  is_nan u = false -> is_nan v = false -> SFltb u v = false -> SFleb v u = true.
Proof.
  intros Hu Hv. unfold SFltb, SFleb. rewrite (SFcompare_antisym u v).
  destruct (SFcompare u v) as [[]|] eqn:E; try done.
  by destruct u as [su|su| |su mu eu], v as [sv|sv| |sv mv ev].
Qed.

Lemma SFleb_not_ltb (u v : spec_float) : SFleb u v = true -> SFltb v u = false.
Proof.
  unfold SFltb, SFleb. rewrite (SFcompare_antisym u v).
  by destruct (SFcompare u v) as [[]|].
Qed.

(** The clamp of a value that is not a NaN lies between the limits; the
    clamp of a NaN is a NaN, because every comparison with it is false. *)
Lemma clamp_within (lo hi v : spec_float) :
  is_nan lo = false -> is_nan hi = false -> SFleb lo hi = true ->
  is_nan v = false -> within lo hi (clamp lo hi v) = true.
Proof.
  intros Hlo Hhi Hle Hv. unfold clamp, within. cbn [fltb fleb binary32].
  assert (SFleb lo lo = true) as Hll by (unfold SFleb; by rewrite SFcompare_refl).
  assert (SFleb hi hi = true) as Hhh by (unfold SFleb; by rewrite SFcompare_refl).
  destruct (SFltb v lo) eqn:E1.
  - rewrite (SFleb_not_ltb lo hi Hle). by rewrite Hll, Hle.
  - destruct (SFltb hi v) eqn:E2.
    + by rewrite Hle, Hhh.
    + by rewrite (SFltb_false_leb v lo), (SFltb_false_leb hi v).
Qed.

Lemma clamp_nan (lo hi : spec_float) : clamp lo hi S754_nan = S754_nan.
Proof. unfold clamp. cbn. by destruct hi. Qed.


Lemma within_not_nan (lo hi v : spec_float) : within lo hi v = true -> is_nan v = false.
Proof.
  unfold within. cbn [fleb binary32]. intros H. apply andb_true_iff in H as [H _].
  destruct v; try done. by destruct lo.
Qed.

(** One adjusted [float] setting: a step that is finite, a value that is
    not a NaN. *)
Lemma adjusted_within (lo hi step v : spec_float) :
  is_nan lo = false -> is_nan hi = false -> SFleb lo hi = true ->
  is_finite step = true -> is_nan v = false ->
  within lo hi (clamp lo hi (v + step)%fl) = true.
Proof.
  intros Hlo Hhi Hle Hs Hv. apply clamp_within; try done.
  cbn [fadd binary32]. by apply SFadd_not_nan.
Qed.

Lemma step_finite (dir n d : Z) :
  -1 <= dir <= 1 ->
  is_finite (of_int (-1) * lit n d)%fl = true ->
  is_finite (of_int 0 * lit n d)%fl = true ->
  is_finite (of_int 1 * lit n d)%fl = true ->
  is_finite (of_int dir * lit n d)%fl = true.
Proof.
  intros Hd Hm H0 H1.
  assert (dir = -1 \/ dir = 0 \/ dir = 1) as [->|[->| ->]] by lia; done.
Qed.

(** X15: Left or Right keeps the settings within their limits.  On binary32,
    [bubble_adjust_field]'s [switch], applied to one of the five fields of a
    configuration whose count is away from the ends of [int] and whose
    [float] settings are not NaN, leaves the adjusted setting within its
    limits, whatever it was before: the count in [0, 64], the radius in
    [1, 32], the speed in [0.25, 64], restitution and pop chance in [0, 1].
    (A NaN is not repaired: every comparison with it is false.) *)
Theorem adjust_config_limits (field dir : Z) (cfg : BubbleGroupConfig spec_float) :
  -1 <= dir <= 1 -> INT_MIN < cfg_count cfg < INT_MAX ->
  is_nan (cfg_radius cfg) = false -> is_nan (cfg_rise_speed cfg) = false ->
  is_nan (cfg_restitution cfg) = false -> is_nan (cfg_pop_chance cfg) = false ->
  exists cfg',
    adjust_config field dir cfg = Some cfg' /\
    (field = ConfigFieldCount -> 0 <= cfg_count cfg' <= BUBBLE_MAX_COUNT) /\
    (field = ConfigFieldRadius ->
     within BUBBLE_MIN_RADIUS BUBBLE_MAX_RADIUS (cfg_radius cfg') = true) /\
    (field = ConfigFieldSpeed ->
     within BUBBLE_MIN_SPEED BUBBLE_MAX_SPEED (cfg_rise_speed cfg') = true) /\
    (field = ConfigFieldRestitution ->
     within BUBBLE_MIN_RESTITUTION BUBBLE_MAX_RESTITUTION (cfg_restitution cfg') = true) /\
    (field = ConfigFieldPopChance ->
     within BUBBLE_MIN_POP BUBBLE_MAX_POP (cfg_pop_chance cfg') = true) /\
    (field <> ConfigFieldCount -> cfg_count cfg' = cfg_count cfg) /\
    (field <> ConfigFieldRadius -> cfg_radius cfg' = cfg_radius cfg) /\
    (field <> ConfigFieldSpeed -> cfg_rise_speed cfg' = cfg_rise_speed cfg) /\
    (field <> ConfigFieldRestitution -> cfg_restitution cfg' = cfg_restitution cfg) /\
    (field <> ConfigFieldPopChance -> cfg_pop_chance cfg' = cfg_pop_chance cfg).
Proof.
  intros Hd Hc Hr Hs He Hp.
  destruct (adjust_config_counts field dir cfg Hd Hc) as (cfg' & Hadj & _ & Hcount).
  exists cfg'. split; [done|]. split; [done|].
  unfold adjust_config in Hadj.
  destruct (field =? ConfigFieldCount) eqn:E0.
  { apply Z.eqb_eq in E0. subst field. cbv zeta in Hadj.
    destruct (_ || _); [done|]. apply (inj Some) in Hadj; subst cfg'. by repeat split. }
  destruct (field =? ConfigFieldRadius) eqn:E1.
  { apply Z.eqb_eq in E1. subst field. apply (inj Some) in Hadj; subst cfg'.
    repeat split; try done. intros _. cbn [cfg_radius set_cfg_radius].
    apply adjusted_within;
      [by vm_compute|by vm_compute|by vm_compute|
       apply step_finite; [done|by vm_compute..]|assumption]. }
  destruct (field =? ConfigFieldSpeed) eqn:E2.
  { apply Z.eqb_eq in E2. subst field. apply (inj Some) in Hadj; subst cfg'.
    repeat split; try done. intros _. cbn [cfg_rise_speed set_cfg_rise_speed].
    apply adjusted_within; [by vm_compute|by vm_compute|by vm_compute| |assumption].
    assert (dir = -1 \/ dir = 0 \/ dir = 1) as [->|[->| ->]] by lia; by vm_compute. }
  destruct (field =? ConfigFieldRestitution) eqn:E3.
  { apply Z.eqb_eq in E3. subst field. apply (inj Some) in Hadj; subst cfg'.
    repeat split; try done. intros _. cbn [cfg_restitution set_cfg_restitution].
    apply adjusted_within;
      [by vm_compute|by vm_compute|by vm_compute|
       apply step_finite; [done|by vm_compute..]|assumption]. }
  destruct (field =? ConfigFieldPopChance) eqn:E4.
  { apply Z.eqb_eq in E4. subst field. apply (inj Some) in Hadj; subst cfg'.
    repeat split; try done. intros _. cbn [cfg_pop_chance set_cfg_pop_chance].
    apply adjusted_within;
      [by vm_compute|by vm_compute|by vm_compute|
       apply step_finite; [done|by vm_compute..]|assumption]. }
  apply (inj Some) in Hadj; subst cfg'. apply Z.eqb_neq in E0, E1, E2, E3, E4. by repeat split.
Qed.

(** Settings within their limits stay within them. *)
Lemma adjust_limits_ok (field dir : Z) (cfg : BubbleGroupConfig spec_float) :
  -1 <= dir <= 1 -> limits_ok cfg ->
  exists cfg', adjust_config field dir cfg = Some cfg' /\ limits_ok cfg'.
Proof.
  intros Hd (Hc & Hr & Hs & He & Hp).
  assert (INT_MIN < cfg_count cfg < INT_MAX) as Hc'
    by (unfold INT_MIN, INT_MAX, BUBBLE_MAX_COUNT in *; lia).
  pose proof (within_not_nan _ _ _ Hr) as Hr'. pose proof (within_not_nan _ _ _ Hs) as Hs'.
  pose proof (within_not_nan _ _ _ He) as He'. pose proof (within_not_nan _ _ _ Hp) as Hp'.
  destruct (adjust_config_counts field dir cfg Hd Hc') as (cfg' & Hadj & _ & Hcount).
  exists cfg'. split; [done|].
  unfold adjust_config in Hadj.
  destruct (field =? ConfigFieldCount) eqn:E0.
  { apply Z.eqb_eq in E0. specialize (Hcount E0). cbv zeta in Hadj.
    destruct (_ || _); [done|]. apply (inj Some) in Hadj; subst cfg'. done. }
  destruct (field =? ConfigFieldRadius).
  { apply (inj Some) in Hadj; subst cfg'. split; [done|]. split; [|done].
    cbn [cfg_radius set_cfg_radius]. apply adjusted_within;
      [by vm_compute|by vm_compute|by vm_compute|
       apply step_finite; [done|by vm_compute..]|assumption]. }
  destruct (field =? ConfigFieldSpeed).
  { apply (inj Some) in Hadj; subst cfg'. split; [done|]. split; [done|]. split; [|done].
    cbn [cfg_rise_speed set_cfg_rise_speed]. apply adjusted_within; [by vm_compute|by vm_compute|by vm_compute| |assumption].
    assert (dir = -1 \/ dir = 0 \/ dir = 1) as [->|[->| ->]] by lia; by vm_compute. }
  destruct (field =? ConfigFieldRestitution).
  { apply (inj Some) in Hadj; subst cfg'. split; [done|]. split; [done|]. split; [done|]. split; [|done].
    cbn [cfg_restitution set_cfg_restitution]. apply adjusted_within;
      [by vm_compute|by vm_compute|by vm_compute|
       apply step_finite; [done|by vm_compute..]|assumption]. }
  destruct (field =? ConfigFieldPopChance).
  { apply (inj Some) in Hadj; subst cfg'. split; [done|]. split; [done|]. split; [done|]. split; [done|].
    cbn [cfg_pop_chance set_cfg_pop_chance]. apply adjusted_within;
      [by vm_compute|by vm_compute|by vm_compute|
       apply step_finite; [done|by vm_compute..]|assumption]. }
  by apply (inj Some) in Hadj; subst cfg'.
Qed.

(** X16: the program as a whole, on binary32.  Started at any tick, without
    a configuration file or with one whose settings are within their limits,
    [bubble_sim_app] builds its bodies (36 of them without a file: 22, 10 and
    4) and then runs its loop on every sequence of events without indexing an
    array out of range and without overflow of an [int]; at the start and
    after the loop the application is well formed, the menu selects an
    existing field and group, every setting is within its limits and every
    body in use has the radius, mass, restitution and pop chance of its
    group's configuration. *)
Theorem bubble_sim_app_safe (tick : Z)
    (file : option (BubbleGroupConfig spec_float * BubbleGroupConfig spec_float *
                    BubbleGroupConfig spec_float))
    (evs : list (option (InputType * InputKey))) :
  (forall c0 c1 c2, file = Some (c0, c1, c2) -> Forall limits_ok [c0; c1; c2]) ->
  exists app m app' m' running',
    bubble_sim_app_init tick file = Some (app, m) /\
    (file = None -> app_body_count app = 36%nat) /\
    app_ok app /\ menu_ok m /\ Forall limits_ok (app_groups app) /\
    bodies_follow app /\
    bubble_sim_loop evs (app, m, true) = Some (app', m', running') /\
    app_ok app' /\ menu_ok m' /\ Forall limits_ok (app_groups app') /\
    bodies_follow app'.
Proof.
  intros Hfile.
  destruct (init_ok tick file)
    as (app & m & Hinit & Hok & Hm & Hfol & c0 & c1 & c2 & Hgs & Hsome & Hnone & Hcount).
  assert (Forall limits_ok (app_groups app)) as Hlim.
  { destruct file as [[[d0 d1] d2]|].
    - rewrite Hgs, (Hsome d0 d1 d2 eq_refl). by apply Hfile.
    - rewrite (Hnone eq_refl). cbn. repeat constructor; by vm_compute. }
  destruct (loop_ok limits_ok adjust_limits_ok evs app m true Hok Hm Hlim)
    as (app' & m' & r' & Hloop & Hok' & Hm' & Hlim' & _).
  assert (file = None -> app_body_count app = 36%nat) as H36.
  { intros Hn. rewrite Hcount.
    assert ([c0; c1; c2] = app_groups (bubble_app_init_groups app)) as Hc
      by (rewrite <- Hgs; by apply Hnone).
    cbn [app_groups bubble_app_init_groups set_app_groups] in Hc.
    apply (f_equal (map cfg_count)) in Hc. cbn [map cfg_count] in Hc.
    unfold requested. injection Hc as -> -> ->. reflexivity. }
  destruct (loop_follows evs app m true app' m' r' Hok Hfol Hloop) as (_ & Hfol' & _).
  exists app, m, app', m', r'. repeat (split; [assumption|]). assumption.
Qed.

End Binary32Limits.

(** * More of the physics, in exact arithmetic *)

Section ExactExtras.

Import Exact.

Local Open Scope R_scope.

Implicit Types (a b : PhysicsBody R) (c : Contact R).

Ltac to_R :=
  unfold f0, f1, fhalf, lit in *;
  cbn [fadd fsub fmul fdiv fneg fsqrt fltb fleb of_int real_ops] in *.










End ExactExtras.

(** * The further properties at concrete inputs *)

Section MoreWitnesses.

Import B32 Scenario Start.

Lemma blank_ok : app_ok blank.
Proof.
  split; [reflexivity|]. split; [cbn; lia|]. split; [reflexivity|].
  intros j b Hj. apply lookup_replicate in Hj as [-> _]. done.
Qed.

Lemma menu0_ok : menu_ok menu0.
Proof. split; by vm_compute. Qed.

Lemma blank_counts : counts_ok blank.
Proof. repeat constructor; unfold INT_MIN, INT_MAX; cbn; lia. Qed.

Lemma pair_groups_ok : groups_ok (app_of [popped_body; left_in]).
Proof.
  intros [|[|j]] b Hb; [| |done]; injection Hb as <-; by eexists.
Qed.

(** X3 at the second slot of a pair stepped with [count = 1]. *)
Lemma physics_step_beyond_count_witness :
  exists bs',
    fst (physics_step (Some [left_in; right_in]) 1 dt (of_Z 0) (Some arena) (Some rng0))
      = Some bs' /\
    bs' !! 1%nat = [left_in; right_in] !! 1%nat.
Proof.
  apply (physics_step_beyond_count [left_in; right_in] 1 dt (of_Z 0) (Some arena)
           (Some rng0) 1).
  lia.
Defined.

(** X4 at a body whose cooldown is 10. *)
Lemma physics_step_cooldown_witness :
  exists bs' b',
    fst (physics_step (Some [cooling; right_in]) 2 dt (of_Z 0) (Some arena) (Some rng0))
      = Some bs' /\
    bs' !! 0%nat = Some b' /\
    spawn_cooldown b' = 9.
Proof.
  apply (physics_step_cooldown [cooling; right_in] 2 dt (of_Z 0) (Some arena)
           (Some rng0) 0 cooling).
  - reflexivity.
  - reflexivity.
Defined.

(** X5 at the same body, which overlaps its neighbour. *)
Lemma physics_step_cooldown_shield_witness :
  exists bs',
    fst (physics_step (Some [cooling; right_in]) 2 dt (of_Z 0) (Some arena) (Some rng0))
      = Some bs' /\
    bs' !! 0%nat = Some (step_body dt (of_Z 0) (Some arena) cooling) /\
    popped (step_body dt (of_Z 0) (Some arena) cooling) = popped cooling.
Proof.
  apply (physics_step_cooldown_shield [cooling; right_in] 2 dt (of_Z 0) (Some arena)
           (Some rng0) 0 cooling).
  - reflexivity.
  - reflexivity.
  - lia.
  - unfold cooling, SPAWN_COOLDOWN_FRAMES. cbn. lia.
Defined.

(** X8 at an application with one eliminated body. *)
Lemma respawn_popped_clears_witness :
  exists app',
    respawn_popped (app_of [popped_body; left_in]) = Some app' /\
    forall i b', (i < 2)%nat -> app_bodies app' !! i = Some b' -> popped b' = false.
Proof.
  destruct (respawn_popped_clears (app_of [popped_body; left_in]) pair_groups_ok)
    as (app' & H & _ & _ & _ & Hc & _).
  exists app'. split; [exact H|exact Hc].
Defined.

(** X9 at the same application. *)
Lemma bubble_sim_tick_clears_witness :
  exists app',
    bubble_sim_tick (app_of [popped_body; left_in]) = Some app' /\
    forall i b', (i < 2)%nat -> app_bodies app' !! i = Some b' -> popped b' = false.
Proof.
  destruct (bubble_sim_tick_clears (app_of [popped_body; left_in]) pair_groups_ok)
    as (app' & H & _ & _ & _ & Hc).
  exists app'. split; [exact H|exact Hc].
Defined.

(** X10 at the default groups: 22 + 10 + 4 bodies, 108 draws. *)
Lemma bubble_app_build_bodies_population_witness :
  exists app',
    bubble_app_build_bodies blank = Some app' /\
    app_body_count app' = 36%nat /\
    app_rng app' = rng_skip 108 (app_rng blank).
Proof.
  destruct (bubble_app_build_bodies_population blank _ _ _ eq_refl eq_refl)
    as (app' & l0 & l1 & l2 & H & _ & _ & _ & _ & _ & _ & _ & Hc & Hr & _).
  exists app'. split; [exact H|]. split; [exact Hc|].
  rewrite Hr, Hc. reflexivity.
Defined.

(** X11 at the small bubbles of the application before it is built. *)
Lemma bubble_app_reinit_group_rebuilds_witness :
  exists app' fresh,
    bubble_app_reinit_group blank 0 = Some app' /\
    used app' = fresh /\ length fresh = 22%nat.
Proof.
  destruct (bubble_app_reinit_group_rebuilds blank 0 small blank_ok eq_refl)
    as (app' & fresh & H & Hu & Hl & _).
  exists app', fresh. split; [exact H|]. split; [exact Hu|exact Hl].
Defined.

(** X12: Right on the count of the small bubbles, 22 to 23. *)
Lemma bubble_adjust_field_count_witness :
  exists app' fresh,
    bubble_adjust_field blank menu0 1 = Some app' /\
    group_config app' 0 = Some (set_cfg_count small 23) /\
    used app' = fresh /\ length fresh = 23%nat.
Proof.
  destruct (bubble_adjust_field_count blank menu0 1 small blank_ok eq_refl eq_refl
              ltac:(lia) ltac:(unfold INT_MIN, INT_MAX; cbn; lia))
    as (app' & fresh & H & Hg & _ & Hu & Hl & _).
  exists app', fresh. split; [exact H|]. split; [exact Hg|]. split; [exact Hu|exact Hl].
Defined.

(** X13 at the menu the program starts with. *)
Lemma menu_keys_cycle_witness :
  press InputKeyUp (press InputKeyDown (Some (blank, menu0, true)))
    = Some (blank, menu0, true) /\
  Nat.iter 3 (press InputKeyOk) (Some (blank, menu0, true)) = Some (blank, menu0, true).
Proof.
  destruct (menu_keys_cycle blank menu0 true menu0_ok) as (H1 & _ & _ & H3).
  split; [exact H1|exact H3].
Defined.

(** X14 at two turns, the first with a press of Right. *)
Lemma bubble_sim_loop_safe_witness :
  exists app' m' running',
    bubble_sim_loop [Some (InputTypeShort, InputKeyRight); None] (blank, menu0, true)
      = Some (app', m', running') /\
    app_ok app' /\ menu_ok m' /\ counts_ok app' /\ app_bounds app' = app_bounds blank.
Proof.
  apply (bubble_sim_loop_safe [Some (InputTypeShort, InputKeyRight); None] blank menu0 true).
  - exact blank_ok.
  - exact menu0_ok.
  - exact blank_counts.
Defined.

(** X15: Right on the radius of the small bubbles. *)
Lemma adjust_config_limits_witness :
  exists cfg',
    adjust_config ConfigFieldRadius 1 small = Some cfg' /\
    within BUBBLE_MIN_RADIUS BUBBLE_MAX_RADIUS (cfg_radius cfg') = true.
Proof.
  destruct (adjust_config_limits ConfigFieldRadius 1 small ltac:(lia)
              ltac:(unfold INT_MIN, INT_MAX; cbn; lia)
              eq_refl eq_refl eq_refl eq_refl)
    as (cfg' & H & _ & Hr & _).
  exists cfg'. split; [exact H|exact (Hr eq_refl)].
Defined.

(** X16 without a configuration file, at tick 1. *)
Lemma bubble_sim_app_safe_witness :
  exists app m app' m' running',
    bubble_sim_app_init 1 None = Some (app, m) /\
    app_body_count app = 36%nat /\
    bubble_sim_loop [Some (InputTypeShort, InputKeyRight); None] (app, m, true)
      = Some (app', m', running') /\
    Forall limits_ok (app_groups app').
Proof.
  destruct (bubble_sim_app_safe 1 None [Some (InputTypeShort, InputKeyRight); None]
              ltac:(intros c0 c1 c2 Hf; discriminate Hf))
    as (app & m & app' & m' & r' & Hi & Hc & _ & _ & _ & _ & Hl & _ & _ & Hlim & _).
  exists app, m, app', m', r'. split; [exact Hi|]. split; [exact (Hc eq_refl)|].
  split; [exact Hl|exact Hlim].
Defined.

(** X21 at two turns from the application before it is built. *)
Lemma bodies_follow_settings_witness :
  exists app' m' running',
    bubble_sim_loop [Some (InputTypeShort, InputKeyRight); None] (blank, menu0, true)
      = Some (app', m', running') /\
    bodies_follow app'.
Proof.
  destruct (loop_ok _ counts_adjust [Some (InputTypeShort, InputKeyRight); None]
              blank menu0 true blank_ok menu0_ok blank_counts)
    as (app' & m' & r' & Hl & _).
  exists app', m', r'. split; [exact Hl|].
  apply (bodies_follow_settings [Some (InputTypeShort, InputKeyRight); None]
           blank menu0 true app' m' r' blank_ok); [|exact Hl].
  apply Forall_nil_2.
Defined.

End MoreWitnesses.

Section MoreExactWitnesses.

Import Exact RealScenario.

Local Open Scope R_scope.






End MoreExactWitnesses.
